(** * The calculator engine of [generated_project/script.js]

    A shallow embedding of the [Calculator] class: its three fields, the
    display element it writes to, and its eight methods, as functions from
    state to state; and of the click and keydown listeners that call
    them.  JavaScript numbers are the kernel's binary64 floats; the host
    functions the class calls ([parseFloat], [parseInt],
    [Number.prototype.toString], the [String] methods) are modelled after
    ECMA-262. *)

From Stdlib Require Import ZArith Bool List Ascii String Lia Floats.
Import ListNotations.

Local Open Scope string_scope.
Local Open Scope Z_scope.

(* ================================================================= *)
(** ** JavaScript strings *)

(** [String.prototype.startsWith] *)
Fixpoint startsWith (s pre : string) {struct pre} : bool :=
  match pre, s with
  | EmptyString, _ => true
  | String _ _, EmptyString => false
  | String a pre', String b s' => Ascii.eqb a b && startsWith s' pre'
  end.

(** [String.prototype.includes] *)
Fixpoint includes (s sub : string) : bool :=
  startsWith s sub ||
  match s with
  | EmptyString => false
  | String _ s' => includes s' sub
  end.

(** [s.substring(1)] *)
Definition substring1 (s : string) : string :=
  match s with
  | EmptyString => EmptyString
  | String _ s' => s'
  end.

(** [n] copies of the character "0" *)
Fixpoint zeros (n : nat) : string :=
  match n with
  | O => EmptyString
  | S n' => String "0" (zeros n')
  end.

(** the first [n] characters, and what follows them *)
Fixpoint take (n : nat) (s : string) : string :=
  match n, s with
  | S n', String c s' => String c (take n' s')
  | _, _ => EmptyString
  end.

Fixpoint drop (n : nat) (s : string) : string :=
  match n, s with
  | S n', String _ s' => drop n' s'
  | _, _ => s
  end.

(* ================================================================= *)
(** ** Decimal digits *)

Definition is_digit (c : ascii) : bool :=
  let n := nat_of_ascii c in (48 <=? n)%nat && (n <=? 57)%nat.

Definition digit_val (c : ascii) : Z := Z.of_nat (nat_of_ascii c) - 48.

Definition digit_char (d : Z) : ascii := ascii_of_nat (Z.to_nat (d + 48)).

(** the longest prefix of decimal digits, and the rest *)
Fixpoint span_digits (s : string) : string * string :=
  match s with
  | String c s' =>
      if is_digit c
      then let '(ds, rest) := span_digits s' in (String c ds, rest)
      else (EmptyString, s)
  | EmptyString => (EmptyString, EmptyString)
  end.

(** the integer a run of digits denotes, continuing from [acc] *)
Fixpoint digits_value (acc : Z) (ds : string) : Z :=
  match ds with
  | EmptyString => acc
  | String c ds' => digits_value (10 * acc + digit_val c) ds'
  end.

Fixpoint digits_fuel (fuel : nat) (n : Z) (acc : string) : string :=
  match fuel with
  | O => acc
  | S fuel' =>
      let acc' := String (digit_char (n mod 10)) acc in
      if n <? 10 then acc' else digits_fuel fuel' (n / 10) acc'
  end.

(** the decimal digits of a non-negative integer, most significant first *)
Definition decimal_digits (n : Z) : string :=
  digits_fuel (S (Z.to_nat (Z.log2 n))) n EmptyString.

Definition length_Z (s : string) : Z := Z.of_nat (String.length s).

(* ================================================================= *)
(** ** JavaScript numbers

    A Number is a binary64 float.  Arithmetic and comparison are the
    kernel's; conversions from and to decimal text are done on the
    float's sign, mantissa and exponent ([spec_float]). *)

Definition Number := float.

Definition emin : Z := -1074.
Definition emax_finite : Z := 971.

(** [p / (q * 2^e)] as a fraction of integers *)
Definition scaled_num (p e : Z) : Z := if 0 <=? e then p else p * 2 ^ (- e).
Definition scaled_den (q e : Z) : Z := if 0 <=? e then q * 2 ^ e else q.

(** the exponent [e] at which [p/q] has a 53-bit mantissa, or [emin] *)
Definition binade (p q : Z) : Z :=
  let e1 := Z.max (Z.log2 p - Z.log2 q - 52) emin in
  if (emin <? e1) && (scaled_num p e1 / scaled_den q e1 <? 2 ^ 52)
  then e1 - 1 else e1.

(** round to nearest, ties to even: [m] is the quotient and [r] the
    remainder of a division by [den] *)
Definition nearest_even (m r den : Z) : Z :=
  if (den <? 2 * r) || ((2 * r =? den) && Z.odd m) then m + 1 else m.

(** the Number value for the positive rational [p/q], with sign [s] *)
Definition round_pos (s : bool) (p q : Z) : spec_float :=
  let e := binade p q in
  let P := scaled_num p e in
  let Q := scaled_den q e in
  let m := nearest_even (P / Q) (P mod Q) Q in
  let '(m, e) := if m =? 2 ^ 53 then (2 ^ 52, e + 1) else (m, e) in
  if m <=? 0 then S754_zero s
  else if emax_finite <? e then S754_infinity s
  else S754_finite s (Z.to_pos m) e.

(** the Number value for [D * 10^E], with sign [s] *)
Definition of_decimal (s : bool) (D E : Z) : spec_float :=
  if D <=? 0 then S754_zero s
  else if 0 <=? E then round_pos s (D * 10 ^ E) 1
  else round_pos s D (10 ^ (- E)).

(** structural equality of two floats (the same Number value) *)
Definition sf_eqb (x y : spec_float) : bool :=
  match x, y with
  | S754_zero a, S754_zero b => Bool.eqb a b
  | S754_infinity a, S754_infinity b => Bool.eqb a b
  | S754_nan, S754_nan => true
  | S754_finite a m e, S754_finite b m' e' =>
      Bool.eqb a b && Pos.eqb m m' && Z.eqb e e'
  | _, _ => false
  end.

(* ----------------------------------------------------------------- *)
(** *** [parseFloat] and [parseInt] *)

(** WhiteSpace and LineTerminator, among the 7-bit characters *)
Definition is_whitespace (c : ascii) : bool :=
  let n := nat_of_ascii c in
  ((9 <=? n)%nat && (n <=? 13)%nat) || (n =? 32)%nat.

Fixpoint trim_start (s : string) : string :=
  match s with
  | String c s' => if is_whitespace c then trim_start s' else s
  | EmptyString => s
  end.

(** an optional sign, and what follows it *)
Definition split_sign (s : string) : bool * string :=
  match s with
  | String "-"%char s' => (true, s')
  | String "+"%char s' => (false, s')
  | _ => (false, s)
  end.

(** the value of an ExponentPart at the head of [s]; 0 when there is none *)
Definition exponent_part (s : string) : Z :=
  match s with
  | String c s' =>
      if Ascii.eqb c "e" || Ascii.eqb c "E" then
        let '(neg, s'') := split_sign s' in
        let '(ds, _) := span_digits s'' in
        match ds with
        | EmptyString => 0
        | _ => if neg then - digits_value 0 ds else digits_value 0 ds
        end
      else 0
  | EmptyString => 0
  end.

(** the longest prefix that is a StrUnsignedDecimalLiteral, as a Number *)
Definition str_unsigned_decimal (neg : bool) (s : string) : spec_float :=
  if startsWith s "Infinity" then S754_infinity neg
  else
    let '(ip, rest) := span_digits s in
    let '(fp, rest') :=
      match rest with
      | String "."%char t => span_digits t
      | _ => (EmptyString, rest)
      end in
    match ip, fp with
    | EmptyString, EmptyString => S754_nan
    | _, _ =>
        of_decimal neg (digits_value 0 (ip ++ fp))
                   (exponent_part rest' - length_Z fp)
    end.

Definition parseFloatSF (s : string) : spec_float :=
  let '(neg, t) := split_sign (trim_start s) in str_unsigned_decimal neg t.

(** [parseFloat(s)] *)
Definition parseFloat (s : string) : Number := SF2Prim (parseFloatSF s).

Definition parseIntSF (s : string) : spec_float :=
  let '(neg, t) := split_sign (trim_start s) in
  let '(ds, _) := span_digits t in
  match ds with
  | EmptyString => S754_nan
  | _ => of_decimal neg (digits_value 0 ds) 0
  end.

(** [parseInt(s, 10)] *)
Definition parseInt (s : string) : Number := SF2Prim (parseIntSF s).

(* ----------------------------------------------------------------- *)
(** *** [Number.prototype.toString]

    Number::toString(x, 10): the digits [s] and the exponent [n] with
    [s * 10^(n-k)] rounding back to [x] and the fewest digits [k]; among
    two such, the nearer to [x]. *)

(** [m * 2^e] as [D * 10^E], exactly *)
Definition exact_decimal (m : positive) (e : Z) : Z * Z :=
  if 0 <=? e then (Zpos m * 2 ^ e, 0) else (Zpos m * 5 ^ (- e), e).

(** the [k]-digit decimals on either side of [D * 10^E], [D] of [L]
    digits, tried for [k], [k+1], ... ; [D] itself when none reads back.
    Above [k] nines lies a power of ten, written with the one digit 1. *)
Fixpoint shortest_from (fuel : nat) (k : Z) (x : spec_float) (D E L : Z)
  : Z * Z :=
  match fuel with
  | O => (D, E)
  | S fuel' =>
      let p10 := 10 ^ (L - k) in
      let lo := D / p10 in
      let r := D mod p10 in
      let X := E + (L - k) in
      let hi := if lo + 1 <? 10 ^ k then (lo + 1, X) else (1, X + k) in
      let ok_lo := sf_eqb (of_decimal false lo X) x in
      let ok_hi := sf_eqb (of_decimal false (fst hi) (snd hi)) x in
      if ok_lo && ok_hi then
        if (2 * r <? p10) || ((2 * r =? p10) && Z.even lo)
        then (lo, X) else hi
      else if ok_lo then (lo, X)
      else if ok_hi then hi
      else shortest_from fuel' (k + 1) x D E L
  end.

Definition shortest (m : positive) (e : Z) : Z * Z :=
  let '(D, E) := exact_decimal m e in
  let L := length_Z (decimal_digits D) in
  shortest_from (Z.to_nat (L - 1)) 1 (S754_finite false m e) D E L.

(** step 10 of Number::toString: the digits [ds], a point after the
    first when there are more, and the exponent [n - 1] *)
Definition exponential (ds : string) (n : Z) : string :=
  let e := n - 1 in
  let exp := (if e <? 0 then "-" else "+") ++ decimal_digits (Z.abs e) in
  if length_Z ds =? 1 then ds ++ "e" ++ exp
  else take 1 ds ++ "." ++ drop 1 ds ++ "e" ++ exp.

(** steps 6 to 10 of Number::toString: the digits of [s] laid out for
    the exponent [n = k + X] *)
Definition render (s X : Z) : string :=
  let ds := decimal_digits s in
  let k := length_Z ds in
  let n := k + X in
  if (k <=? n) && (n <=? 21) then ds ++ zeros (Z.to_nat (n - k))
  else if (0 <? n) && (n <=? 21) then
    take (Z.to_nat n) ds ++ "." ++ drop (Z.to_nat n) ds
  else if (-6 <? n) && (n <=? 0) then
    "0." ++ zeros (Z.to_nat (- n)) ++ ds
  else exponential ds n.

Definition toStringSF (x : spec_float) : string :=
  match x with
  | S754_nan => "NaN"
  | S754_zero _ => "0"
  | S754_infinity s => (if s then "-" else "") ++ "Infinity"
  | S754_finite s m e =>
      let '(d, X) := shortest m e in
      (if s then "-" else "") ++ render d X
  end.

(** [x.toString()] *)
Definition toString (x : Number) : string := toStringSF (Prim2SF x).

(* ================================================================= *)
(** ** The [Calculator] class *)

Record Calculator := mkCalculator {
  textContent : string;            (* displayElement.textContent *)
  currentInput : string;
  previousValue : option Number;   (* [None] is null *)
  operator : option string         (* [None] is null *)
}.

Definition set_textContent (v : string) (c : Calculator) : Calculator :=
  mkCalculator v (currentInput c) (previousValue c) (operator c).

Definition set_currentInput (v : string) (c : Calculator) : Calculator :=
  mkCalculator (textContent c) v (previousValue c) (operator c).

Definition set_previousValue (v : option Number) (c : Calculator) : Calculator :=
  mkCalculator (textContent c) (currentInput c) v (operator c).

Definition set_operator (v : option string) (c : Calculator) : Calculator :=
  mkCalculator (textContent c) (currentInput c) (previousValue c) v.

(** the string [updateDisplay] writes for a given [currentInput] *)
Definition display_of (input : string) : string :=
  if negb (includes input ".") then toString (parseInt input) else input.

Definition updateDisplay (c : Calculator) : Calculator :=
  set_textContent (display_of (currentInput c)) c.

(** [new Calculator(displayElement)], for an element showing [text] *)
Definition constructor (text : string) : Calculator :=
  updateDisplay (mkCalculator text "0" None None).

Definition inputDigit (digit : string) (c : Calculator) : Calculator :=
  updateDisplay
    (if String.eqb (currentInput c) "0"
     then set_currentInput digit c
     else set_currentInput (currentInput c ++ digit) c).

Definition inputDecimal (c : Calculator) : Calculator :=
  if negb (includes (currentInput c) ".")
  then updateDisplay (set_currentInput (currentInput c ++ ".") c)
  else c.

Definition toggleSign (c : Calculator) : Calculator :=
  updateDisplay
    (if startsWith (currentInput c) "-"
     then set_currentInput (substring1 (currentInput c)) c
     else if negb (String.eqb (currentInput c) "0")
          then set_currentInput ("-" ++ currentInput c) c
          else c).

Definition clearEntry (c : Calculator) : Calculator :=
  updateDisplay (set_currentInput "0" c).

Definition allClear (c : Calculator) : Calculator :=
  updateDisplay
    (set_operator None (set_previousValue None (set_currentInput "0" c))).

(** the [switch] of [calculateResult] *)
Definition compute (op : string) (previous current : Number) : Number :=
  if String.eqb op "+" then (previous + current)%float
  else if String.eqb op "-" then (previous - current)%float
  else if String.eqb op "*" then (previous * current)%float
  else if String.eqb op "/" then
    if (current =? 0)%float then 0%float else (previous / current)%float
  else current.

Definition calculateResult (c : Calculator) : Calculator :=
  match operator c, previousValue c with
  | Some op, Some previous =>
      let current := parseFloat (currentInput c) in
      let result := compute op previous current in
      updateDisplay
        (set_operator None
           (set_previousValue None
              (set_currentInput (toString result) c)))
  | _, _ => c
  end.

(** [this.operator && this.previousValue !== null]: a string is truthy
    unless it is empty *)
Definition pending (c : Calculator) : bool :=
  match operator c, previousValue c with
  | Some (String _ _), Some _ => true
  | _, _ => false
  end.

Definition setOperator (op : string) (c : Calculator) : Calculator :=
  let c := if pending c then calculateResult c else c in
  let c := set_operator (Some op) c in
  let c := set_previousValue (Some (parseFloat (currentInput c))) c in
  let c := set_currentInput "0" c in
  updateDisplay c.

Definition calculatePercentage (c : Calculator) : Calculator :=
  let value := (parseFloat (currentInput c) / 100)%float in
  updateDisplay (set_currentInput (toString value) c).

(* ----------------------------------------------------------------- *)
(** *** Actions and runs *)

Inductive Action :=
| InputDigit (digit : string)
| InputDecimal
| ToggleSign
| ClearEntry
| AllClear
| SetOperator (op : string)
| CalculateResult
| CalculatePercentage.

Definition step (c : Calculator) (a : Action) : Calculator :=
  match a with
  | InputDigit d => inputDigit d c
  | InputDecimal => inputDecimal c
  | ToggleSign => toggleSign c
  | ClearEntry => clearEntry c
  | AllClear => allClear c
  | SetOperator op => setOperator op c
  | CalculateResult => calculateResult c
  | CalculatePercentage => calculatePercentage c
  end.

Definition run (acts : list Action) (c : Calculator) : Calculator :=
  fold_left step acts c.

(** the keys of the user interface: a digit is one of "0" .. "9" and an
    operator one of "+", "-", "*", "/" *)
Definition digit_key (d : string) : bool :=
  match d with
  | String c EmptyString => is_digit c
  | _ => false
  end.

Definition operator_key (op : string) : bool :=
  String.eqb op "+" || String.eqb op "-" || String.eqb op "*" || String.eqb op "/".

Definition key (a : Action) : bool :=
  match a with
  | InputDigit d => digit_key d
  | SetOperator op => operator_key op
  | _ => true
  end.

(** the states some sequence of keys leads to *)
Inductive reachable : Calculator -> Prop :=
| reach_init text : reachable (constructor text)
| reach_step c a : reachable c -> key a = true -> reachable (step c a).

(** the keys that type an operand *)
Definition entry (a : Action) : bool :=
  match a with
  | InputDigit d => digit_key d
  | InputDecimal | ToggleSign | ClearEntry | CalculatePercentage => true
  | AllClear | SetOperator _ | CalculateResult => false
  end.

(** the grammar of an operand being typed: an optional minus sign, one
    or more digits, then optionally a point and any number of digits *)
Fixpoint all_digits (s : string) : bool :=
  match s with
  | EmptyString => true
  | String c s' => is_digit c && all_digits s'
  end.

Definition unsigned_operand (s : string) : bool :=
  let '(ip, rest) := span_digits s in
  match ip, rest with
  | EmptyString, _ => false
  | _, EmptyString => true
  | _, String c fp => Ascii.eqb c "." && all_digits fp
  end.

Definition operand_grammar (s : string) : bool :=
  match s with
  | String c s' =>
      if Ascii.eqb c "-" then unsigned_operand s' else unsigned_operand s
  | EmptyString => false
  end.

(** the number of occurrences of a character *)
Fixpoint count_char (ch : ascii) (s : string) : nat :=
  match s with
  | EmptyString => O
  | String c s' => (if Ascii.eqb c ch then 1 else 0) + count_char ch s'
  end.

(* ================================================================= *)
(** ** The user interface wiring *)

(** [s <= t] on strings: the code units in order, a prefix first *)
Fixpoint string_leb (s t : string) : bool :=
  match s, t with
  | EmptyString, _ => true
  | String _ _, EmptyString => false
  | String a s', String b t' =>
      if (nat_of_ascii a <? nat_of_ascii b)%nat then true
      else if (nat_of_ascii b <? nat_of_ascii a)%nat then false
      else string_leb s' t'
  end.

(** [key >= '0' && key <= '9'] *)
Definition digit_range (key : string) : bool :=
  string_leb "0" key && string_leb key "9".

(** the keydown listener, for the event's [key]: the calculator after
    it, and whether [preventDefault] was called *)
Definition keydown (key : string) (calculator : Calculator)
  : Calculator * bool :=
  if digit_range key then (inputDigit key calculator, true)
  else if String.eqb key "." || String.eqb key ","
  then (inputDecimal calculator, true)
  else if String.eqb key "+" || String.eqb key "-" ||
          String.eqb key "*" || String.eqb key "/"
  then (setOperator key calculator, true)
  else if String.eqb key "Enter" || String.eqb key "="
  then (calculateResult calculator, true)
  else if String.eqb key "Backspace" then (clearEntry calculator, true)
  else if String.eqb key "Escape" then (allClear calculator, true)
  else if String.eqb key "%" then (calculatePercentage calculator, true)
  else (calculator, false).

(** [element.dataset]: the data attributes of a button, by name *)
Definition Dataset := list (string * string).

(** [getDataAttribute(element, name)]; [None] is undefined *)
Fixpoint getDataAttribute (dataset : Dataset) (name : string)
  : option string :=
  match dataset with
  | [] => None
  | (n, v) :: rest =>
      if String.eqb n name then Some v else getDataAttribute rest name
  end.

(** the click listener of a button.  The methods of the class take
    strings: a button of action "number" or "operator" that has no
    data-value would hand them undefined, which the fields modelled here
    do not hold; that click is [None]. *)
Definition click (btn : Dataset) (calculator : Calculator)
  : option Calculator :=
  let action := getDataAttribute btn "action" in
  let value := getDataAttribute btn "value" in
  match action with
  | Some a =>
      if String.eqb a "number"
      then option_map (fun v => inputDigit v calculator) value
      else if String.eqb a "decimal" then Some (inputDecimal calculator)
      else if String.eqb a "sign" then Some (toggleSign calculator)
      else if String.eqb a "clear" then Some (allClear calculator)
      else if String.eqb a "operator"
      then option_map (fun v => setOperator v calculator) value
      else if String.eqb a "equals" then Some (calculateResult calculator)
      else if String.eqb a "percent"
      then Some (calculatePercentage calculator)
      else Some calculator
  | None => Some calculator
  end.

(* ================================================================= *)
(** ** Notions the statements below are written with *)

(** [m * 2^e] is the mantissa and exponent of a binary64 float *)
Definition canonical (m e : Z) : Prop :=
  0 < m /\ e <= emax_finite /\
  ((Z.log2 m = 52 /\ emin <= e) \/ (Z.log2 m < 52 /\ e = emin)).

(** a float with its sign replaced *)
Definition with_sign (s : bool) (x : spec_float) : spec_float :=
  match x with
  | S754_zero _ => S754_zero s
  | S754_infinity _ => S754_infinity s
  | S754_nan => S754_nan
  | S754_finite _ m e => S754_finite s m e
  end.

(** a float without the sign of its zero *)
Definition unsigned_zero (x : spec_float) : spec_float :=
  match x with
  | S754_zero _ => S754_zero false
  | _ => x
  end.

(** SameValueZero of ECMA-262: the same Number, +0 and -0 being one *)
Definition same_value_zero (x y : Number) : Prop :=
  unsigned_zero (Prim2SF x) = unsigned_zero (Prim2SF y).

Definition no_digit_head (s : string) : bool :=
  match s with
  | EmptyString => true
  | String c _ => negb (is_digit c)
  end.

(** the parts of a decimal literal after its integer digits: the
    fraction [toString] writes, and the exponent *)
Definition frac_suffix (frac : option string) : string :=
  match frac with None => "" | Some fp => "." ++ fp end.

Definition frac_digits (frac : option string) : string :=
  match frac with None => "" | Some fp => fp end.

Definition exp_suffix (ex : option Z) : string :=
  match ex with
  | None => ""
  | Some e => "e" ++ (if e <? 0 then "-" else "+") ++ decimal_digits (Z.abs e)
  end.

Definition exp_value (ex : option Z) : Z :=
  match ex with None => 0 | Some e => e end.

(** the position of the point in what [toString] writes: the [n] of
    Number::toString; the digits are written plainly, without exponent,
    for [-6 < n <= 21] *)
Definition point_position (d X : Z) : Z := length_Z (decimal_digits d) + X.

Definition plain_position (n : Z) : bool := (-6 <? n) && (n <=? 21).

(** the operand typed by [keys] from a fresh calculator *)
Definition operand (keys : list Action) : Number :=
  parseFloat (currentInput (run keys (constructor ""))).

(** [Number.isFinite] *)
Definition isFinite (x : Number) : bool :=
  match Prim2SF x with
  | S754_zero _ | S754_finite _ _ _ => true
  | _ => false
  end.

(** what [toString] writes beyond plain digits: an exponent, or Infinity *)
Definition exponent_or_infinity (t : string) : bool :=
  includes t "e" || includes t "Infinity".

(** not empty, and no "-" alone or doubled at the head *)
Definition well_signed (s : string) : bool :=
  match s with
  | EmptyString => false
  | String c r =>
      if Ascii.eqb c "-" then
        match r with
        | EmptyString => false
        | String c' _ => negb (Ascii.eqb c' "-")
        end
      else true
  end.

(** [toString] writes [x] in plain decimal notation: no exponent, and
    [x] is neither NaN nor an infinity *)
Definition plain_notation (x : Number) : bool :=
  match Prim2SF x with
  | S754_zero _ => true
  | S754_finite _ m e =>
      let '(d, X) := shortest m e in plain_position (point_position d X)
  | _ => false
  end.

(** the mantissas of 1e-6 (exponent -72) and 1e21 (exponent 17) *)
Definition mantissa_1e_6 : Z := 4722366482869645.
Definition mantissa_1e21 : Z := 7629394531250000.

(** [toString] writes [x] plainly when [x] is zero or has a magnitude
    from 1e-6 up to, and not reaching, 1e21 *)
Definition plain_magnitude (x : Number) : bool :=
  ((x =? 0) ||
   ((parseFloat "0.000001" <=? abs x) && (abs x <? parseFloat "1e21")))%float.

(** the Number whose text an action stores in [currentInput] *)
Definition stores (c : Calculator) (a : Action) : option Number :=
  match a with
  | CalculateResult =>
      match operator c, previousValue c with
      | Some op, Some previous =>
          Some (compute op previous (parseFloat (currentInput c)))
      | _, _ => None
      end
  | CalculatePercentage => Some (parseFloat (currentInput c) / 100)%float
  | _ => None
  end.

Definition stores_plain (c : Calculator) (a : Action) : bool :=
  match stores c a with
  | Some x => plain_magnitude x
  | None => true
  end.

(** the states the keys lead to while every Number stored is zero or
    has a magnitude from 1e-6 up to, and not reaching, 1e21 *)
Inductive reachable_plain : Calculator -> Prop :=
| plain_init text : reachable_plain (constructor text)
| plain_step c a :
    reachable_plain c -> key a = true -> stores_plain c a = true ->
    reachable_plain (step c a).

(** the keys that type the digits of [s], one by one *)
Definition digit_keys (s : string) : list Action :=
  map (fun ch => InputDigit (String ch "")) (list_ascii_of_string s).

(** the float of a positive integer below [2^53] *)
Definition int_float (M : Z) : spec_float :=
  S754_finite false (Z.to_pos (M * 2 ^ (52 - Z.log2 M))) (Z.log2 M - 52).

(** the four operators of the specification and their arithmetic on
    Numbers, written with the operations of binary64 *)
Inductive Operator := Plus | Minus | Times | Divide.

Definition symbol (o : Operator) : string :=
  match o with
  | Plus => "+"
  | Minus => "-"
  | Times => "*"
  | Divide => "/"
  end.

(** [x o y] in floating-point arithmetic *)
Definition direct (o : Operator) (x y : Number) : Number :=
  match o with
  | Plus => (x + y)%float
  | Minus => (x - y)%float
  | Times => (x * y)%float
  | Divide => (x / y)%float
  end.

(** the arithmetic of the specification (section 4.1): floating point,
    except that a division whose right operand equals 0 yields 0 *)
Definition evaluate (o : Operator) (x y : Number) : Number :=
  match o with
  | Divide => if (y =? 0)%float then 0%float else direct Divide x y
  | _ => direct o x y
  end.

(** 1e52 typed and "*" pressed, six times over: the product overflows *)
Definition overflow_keys : list Action :=
  List.concat
    (List.repeat (digit_keys ("1" ++ zeros 52) ++ [SetOperator "*"])%list 6).

(** [Number.isNaN] *)
Definition isNaN (x : Number) : bool :=
  match Prim2SF x with
  | S754_nan => true
  | _ => false
  end.

(** [s] without its leading zeros; its last character stays *)
Fixpoint strip_zeros (s : string) : string :=
  match s with
  | String c (String _ _ as s') => if Ascii.eqb c "0" then strip_zeros s' else s
  | _ => s
  end.

(** the first character of a Number's text, its sign apart: a digit, or
    the head of "NaN" or of "Infinity" *)
Definition number_head (c : ascii) : bool :=
  is_digit c || Ascii.eqb c "N" || Ascii.eqb c "I".

(** an optional "-", then the text of a Number, and not "-0" *)
Definition signed_number (s : string) : bool :=
  match s with
  | EmptyString => false
  | String c r =>
      if Ascii.eqb c "-" then
        match r with
        | EmptyString => false
        | String c' r' => number_head c' && negb (String.eqb r "0")
        end
      else number_head c
  end.

(** a button whose data-value, when its action passes one on, is a
    digit for "number" and one of the four operators for "operator" *)
Definition well_formed_button (btn : Dataset) : Prop :=
  forall v, getDataAttribute btn "value" = Some v ->
    (getDataAttribute btn "action" = Some "number" -> digit_key v = true) /\
    (getDataAttribute btn "action" = Some "operator" -> operator_key v = true).

(** a float that is a zero or finite *)
Definition finite_sf (x : spec_float) : bool :=
  match x with
  | S754_zero _ | S754_finite _ _ _ => true
  | _ => false
  end.

(** the float of an integer of either sign, below 2^53 in magnitude,
    the Number it is, and its text *)
Definition integer_float (z : Z) : spec_float :=
  match z with
  | Z0 => S754_zero false
  | Zpos _ => int_float z
  | Zneg _ => with_sign true (int_float (- z))
  end.

Definition integer_number (z : Z) : Number := SF2Prim (integer_float z).

Definition integer_text (z : Z) : string :=
  (if z <? 0 then "-" else "") ++ decimal_digits (Z.abs z).

(* ================================================================= *)
(** * Properties *)

(* ----------------------------------------------------------------- *)
(** ** Known values

    The conversions, on values whose JavaScript results are well known,
    and the six scenarios the specification lists. *)

Example parseFloat_tenth : parseFloat "0.1" = 0x1.999999999999ap-4%float.
Proof. vm_compute. reflexivity. Qed.

Example parseFloat_prefix :
  toString (parseFloat "  -12.5e2px") = "-1250" /\
  toString (parseFloat ".5") = "0.5" /\
  toString (parseFloat "5.e3") = "5000" /\
  toString (parseFloat "-Infinity") = "-Infinity" /\
  toString (parseFloat ".") = "NaN".
Proof. vm_compute. repeat split. Qed.

Example parseInt_prefix :
  toString (parseInt "0012") = "12" /\
  toString (parseInt "-0") = "0" /\
  toString (parseInt "1e+21") = "1" /\
  toString (parseInt "Infinity") = "NaN".
Proof. vm_compute. repeat split. Qed.

Example toString_shortest :
  toString (parseFloat "0.1" + parseFloat "0.2")%float
    = "0.30000000000000004" /\
  toString (1 / 3)%float = "0.3333333333333333" /\
  toString (parseFloat "123456789012345678901") = "123456789012345680000" /\
  toString (parseFloat "9007199254740993") = "9007199254740992" /\
  toString (parseFloat "4.35") = "4.35" /\
  toString (parseFloat "5e-324") = "5e-324" /\
  toString (parseFloat "1e23") = "1e+23".
Proof. vm_compute. repeat split. Qed.

Example toString_notation :
  toString (parseFloat "999999999999999900000") = "999999999999999900000" /\
  toString (parseFloat "1000000000000000000000") = "1e+21" /\
  toString (parseFloat "0.000001") = "0.000001" /\
  toString (parseFloat "0.0000001") = "1e-7" /\
  toString (parseFloat "0.00000125") = "0.00000125" /\
  toString (parseFloat "1234.5e20") = "1.2345e+23".
Proof. vm_compute. repeat split. Qed.

Example scenarios :
  textContent (run [InputDigit "1"; InputDigit "2"; SetOperator "+";
                    InputDigit "3"; CalculateResult] (constructor ""))
    = "15" /\
  textContent (run [InputDigit "5"; InputDigit "0"; CalculatePercentage]
                   (constructor "")) = "0.5" /\
  textContent (run [InputDigit "9"; SetOperator "/"; InputDigit "0";
                    CalculateResult] (constructor "")) = "0" /\
  textContent (run [InputDigit "7"; SetOperator "+"; InputDigit "3";
                    SetOperator "+"; InputDigit "2"; CalculateResult]
                   (constructor "")) = "12" /\
  run [InputDigit "4"; SetOperator "+"; AllClear; InputDigit "8"]
      (constructor "") = mkCalculator "8" "8" None None /\
  textContent (run [ToggleSign] (constructor "")) = "0".
Proof. vm_compute. repeat split. Qed.

(* ----------------------------------------------------------------- *)
(** ** Strings *)

Lemma count_char_app ch s t :
  count_char ch (s ++ t) = (count_char ch s + count_char ch t)%nat.
Proof.
  induction s as [|c s IH]; cbn; [reflexivity|]. rewrite IH. lia.
Qed.

(** [includes] for a pattern of one character *)
Lemma includes_char_cons ch c s :
  includes (String c s) (String ch "") =
  Ascii.eqb ch c || includes s (String ch "").
Proof. cbn [includes startsWith]. now rewrite andb_true_r. Qed.

Lemma includes_char_count ch s :
  includes s (String ch "") = negb (Nat.eqb (count_char ch s) 0).
Proof.
  induction s as [|c s IH]; [reflexivity|].
  rewrite includes_char_cons, IH. cbn [count_char].
  rewrite (Ascii.eqb_sym ch c). now destruct (Ascii.eqb c ch).
Qed.

Lemma includes_char_app ch s t :
  includes (s ++ t) (String ch "") =
  includes s (String ch "") || includes t (String ch "").
Proof.
  rewrite !includes_char_count, count_char_app.
  destruct (count_char ch s), (count_char ch t); reflexivity.
Qed.

Lemma startsWith_minus c r : startsWith (String c r) "-" = Ascii.eqb c "-".
Proof. cbn. now rewrite andb_true_r, Ascii.eqb_sym. Qed.

(* ----------------------------------------------------------------- *)
(** ** The pending operation *)

(** a state given as the run of a list of keys is reachable *)
Ltac reach :=
  cbn [run fold_left];
  repeat (apply reach_step; [|reflexivity]);
  apply reach_init.

Lemma updateDisplay_fields c :
  currentInput (updateDisplay c) = currentInput c /\
  previousValue (updateDisplay c) = previousValue c /\
  operator (updateDisplay c) = operator c.
Proof. repeat split. Qed.

Lemma calculateResult_both c :
  (previousValue c = None <-> operator c = None) ->
  (previousValue (calculateResult c) = None <->
   operator (calculateResult c) = None).
Proof.
  destruct c as [t ci [pv|] [op|]]; cbn; intuition congruence.
Qed.

Lemma step_both c a :
  (previousValue c = None <-> operator c = None) ->
  (previousValue (step c a) = None <-> operator (step c a) = None).
Proof.
  intros H. destruct a; cbn [step].
  - unfold inputDigit. destruct (String.eqb _ _); exact H.
  - unfold inputDecimal. destruct (negb _); exact H.
  - unfold toggleSign.
    destruct (startsWith _ _); [exact H|]. destruct (negb _); exact H.
  - exact H.
  - cbn. tauto.
  - cbn. split; discriminate.
  - now apply calculateResult_both.
  - exact H.
Qed.

(** C4. In every state the keys can lead to, [previousValue] is null
    exactly when [operator] is null: the two are set together by
    [setOperator] and cleared together by [calculateResult] and
    [allClear], and no other method writes either. *)
Theorem pending_fields_together c :
  reachable c -> (previousValue c = None <-> operator c = None).
Proof.
  induction 1 as [text|c a _ IH _].
  - cbn. tauto.
  - now apply step_both.
Qed.

Lemma pending_fields_together_witness :
  previousValue (run [InputDigit "4"; SetOperator "+"; InputDigit "2"]
                     (constructor "")) = None <->
  operator (run [InputDigit "4"; SetOperator "+"; InputDigit "2"]
                (constructor "")) = None.
Proof.
  apply pending_fields_together. reach.
Defined.

Lemma inputDigit_pending d c :
  previousValue (inputDigit d c) = previousValue c /\
  operator (inputDigit d c) = operator c.
Proof. unfold inputDigit. now destruct (String.eqb _ _). Qed.

Lemma inputDecimal_pending c :
  previousValue (inputDecimal c) = previousValue c /\
  operator (inputDecimal c) = operator c.
Proof. unfold inputDecimal. now destruct (negb _). Qed.

Lemma toggleSign_pending c :
  previousValue (toggleSign c) = previousValue c /\
  operator (toggleSign c) = operator c.
Proof.
  unfold toggleSign. destruct (startsWith _ _); [easy|]. now destruct (negb _).
Qed.

(** C8. [inputDigit], [inputDecimal], [toggleSign], [clearEntry] and
    [calculatePercentage] leave [previousValue] and [operator] as they
    were, in every state. *)
Theorem entry_keeps_pending c :
  (forall d, previousValue (inputDigit d c) = previousValue c /\
             operator (inputDigit d c) = operator c) /\
  (previousValue (inputDecimal c) = previousValue c /\
   operator (inputDecimal c) = operator c) /\
  (previousValue (toggleSign c) = previousValue c /\
   operator (toggleSign c) = operator c) /\
  (previousValue (clearEntry c) = previousValue c /\
   operator (clearEntry c) = operator c) /\
  (previousValue (calculatePercentage c) = previousValue c /\
   operator (calculatePercentage c) = operator c).
Proof.
  split; [intros d; apply inputDigit_pending|].
  split; [apply inputDecimal_pending|].
  split; [apply toggleSign_pending|].
  split; split; reflexivity.
Qed.

(** C9. With no operator pending, [calculateResult] changes nothing; and
    a second [calculateResult] right after a first changes nothing, for
    the first has cleared [operator]. *)
Theorem calculateResult_noop c :
  (operator c = None -> calculateResult c = c) /\
  calculateResult (calculateResult c) = calculateResult c.
Proof.
  split.
  - intros H. unfold calculateResult. now rewrite H.
  - unfold calculateResult at 1.
    destruct (operator (calculateResult c)) eqn:Hop; [|reflexivity].
    destruct (previousValue (calculateResult c)) eqn:Hpv; [|reflexivity].
    exfalso. revert Hop Hpv. unfold calculateResult.
    destruct (operator c) eqn:Ho; [|congruence].
    destruct (previousValue c) eqn:Hp; [|congruence].
    cbn. discriminate.
Qed.

Lemma calculateResult_noop_witness :
  calculateResult (constructor "") = constructor "".
Proof.
  exact (proj1 (calculateResult_noop (constructor "")) eq_refl).
Defined.

(** C2. With "/" pending and a right operand equal to zero,
    [calculateResult] stores "0" in [currentInput], whatever
    [previousValue] holds. *)
Theorem division_by_zero_is_zero c previous :
  operator c = Some "/" ->
  previousValue c = Some previous ->
  (parseFloat (currentInput c) =? 0)%float = true ->
  currentInput (calculateResult c) = "0".
Proof.
  intros Hop Hpv Hz. unfold calculateResult. rewrite Hop, Hpv.
  cbn [currentInput updateDisplay set_textContent set_operator
       set_previousValue set_currentInput].
  unfold compute. cbn [String.eqb Ascii.eqb Bool.eqb].
  rewrite Hz. reflexivity.
Qed.

Lemma division_by_zero_is_zero_witness :
  currentInput
    (calculateResult
       (run [InputDigit "9"; SetOperator "/"; InputDigit "0"]
            (constructor ""))) = "0".
Proof.
  apply (division_by_zero_is_zero _ (parseFloat "9")); reflexivity.
Defined.

(* ----------------------------------------------------------------- *)
(** ** Decimal digits *)

Lemma append_nil_r (s : string) : s ++ "" = s.
Proof. induction s as [|c s IH]; cbn; congruence. Qed.

Lemma append_assoc (s t u : string) : (s ++ t) ++ u = s ++ t ++ u.
Proof. induction s as [|c s IH]; cbn; congruence. Qed.

Lemma length_Z_app s t : length_Z (s ++ t) = length_Z s + length_Z t.
Proof.
  unfold length_Z. induction s as [|c s IH]; cbn [String.length append].
  - lia.
  - rewrite !Nat2Z.inj_succ. lia.
Qed.

Lemma length_Z_cons c s : length_Z (String c s) = 1 + length_Z s.
Proof. unfold length_Z. cbn [String.length]. lia. Qed.

Lemma length_Z_nonneg s : 0 <= length_Z s.
Proof. unfold length_Z. lia. Qed.

Lemma decimal_ind (P : Z -> Prop) :
  (forall n, 0 <= n < 10 -> P n) ->
  (forall n, 10 <= n -> P (n / 10) -> P n) ->
  forall n, 0 <= n -> P n.
Proof.
  intros Hsmall Hbig. apply Zlt_0_ind. intros n IH Hn.
  destruct (Z_lt_le_dec n 10) as [Hlt|Hge].
  - apply Hsmall. lia.
  - apply Hbig; [exact Hge|]. apply IH.
    split; [apply Z.div_pos; lia|apply Z.div_lt; lia].
Qed.

Lemma digits_fuel_S fuel n acc :
  digits_fuel (S fuel) n acc =
  if n <? 10 then String (digit_char (n mod 10)) acc
  else digits_fuel fuel (n / 10) (String (digit_char (n mod 10)) acc).
Proof. reflexivity. Qed.

Lemma digits_fuel_acc fuel : forall n acc,
  digits_fuel fuel n acc = digits_fuel fuel n "" ++ acc.
Proof.
  induction fuel as [|fuel IH]; intros n acc; cbn [digits_fuel].
  - reflexivity.
  - destruct (n <? 10); [reflexivity|].
    rewrite IH. rewrite (IH _ (String _ "")).
    now rewrite append_assoc.
Qed.

Lemma digits_fuel_enough f1 : forall f2 n acc,
  0 <= n < 2 ^ Z.of_nat (S f1) -> n < 2 ^ Z.of_nat (S f2) ->
  digits_fuel (S f1) n acc = digits_fuel (S f2) n acc.
Proof.
  induction f1 as [|f1 IH]; intros f2 n acc Hn1 Hn2.
  - cbn [digits_fuel]. change (2 ^ Z.of_nat 1) with 2 in Hn1.
    destruct (Z.ltb_spec n 10); [reflexivity|lia].
  - rewrite (digits_fuel_S (S f1)), (digits_fuel_S f2).
    destruct (Z.ltb_spec n 10) as [|Hge]; [reflexivity|].
    destruct f2 as [|f2].
    { change (2 ^ Z.of_nat 1) with 2 in Hn2. lia. }
    rewrite !Nat2Z.inj_succ, !Z.pow_succ_r in Hn1, Hn2 by lia.
    apply IH.
    + split; [apply Z.div_pos; lia|].
      rewrite Nat2Z.inj_succ, Z.pow_succ_r by lia.
      apply Z.div_lt_upper_bound; lia.
    + rewrite Nat2Z.inj_succ, Z.pow_succ_r by lia.
      apply Z.div_lt_upper_bound; lia.
Qed.

Lemma log2_fuel n : 0 <= n -> n < 2 ^ Z.of_nat (S (Z.to_nat (Z.log2 n))).
Proof.
  intros Hn. rewrite Nat2Z.inj_succ, Z2Nat.id by apply Z.log2_nonneg.
  destruct (Z.eq_dec n 0) as [->|Hnz]; [reflexivity|].
  apply Z.log2_spec. lia.
Qed.

Lemma decimal_digits_small n :
  0 <= n < 10 -> decimal_digits n = String (digit_char n) "".
Proof.
  intros Hn. unfold decimal_digits. cbn [digits_fuel].
  destruct (Z.ltb_spec n 10); [|lia].
  now rewrite Z.mod_small by lia.
Qed.

Lemma decimal_digits_step n :
  10 <= n ->
  decimal_digits n =
  decimal_digits (n / 10) ++ String (digit_char (n mod 10)) "".
Proof.
  intros Hn. unfold decimal_digits at 1.
  pose proof (log2_fuel n ltac:(lia)) as Hf.
  destruct (Z.to_nat (Z.log2 n)) as [|f] eqn:Ef.
  { change (2 ^ Z.of_nat 1) with 2 in Hf. lia. }
  rewrite (digits_fuel_S (S f)).
  destruct (Z.ltb_spec n 10); [lia|].
  rewrite digits_fuel_acc. f_equal. unfold decimal_digits.
  assert (0 <= n / 10) by (apply Z.div_pos; lia).
  apply digits_fuel_enough.
  - split; [assumption|].
    rewrite !Nat2Z.inj_succ, !Z.pow_succ_r in Hf by lia.
    rewrite Nat2Z.inj_succ, Z.pow_succ_r by lia.
    apply Z.div_lt_upper_bound; lia.
  - now apply log2_fuel.
Qed.

Lemma digit_char_is_digit d : 0 <= d < 10 -> is_digit (digit_char d) = true.
Proof.
  intros Hd.
  assert (Hc : d = 0 \/ d = 1 \/ d = 2 \/ d = 3 \/ d = 4 \/ d = 5 \/
               d = 6 \/ d = 7 \/ d = 8 \/ d = 9) by lia.
  repeat destruct Hc as [->|Hc]; try reflexivity. now subst.
Qed.

Lemma digit_val_char d : 0 <= d < 10 -> digit_val (digit_char d) = d.
Proof.
  intros Hd.
  assert (Hc : d = 0 \/ d = 1 \/ d = 2 \/ d = 3 \/ d = 4 \/ d = 5 \/
               d = 6 \/ d = 7 \/ d = 8 \/ d = 9) by lia.
  repeat destruct Hc as [->|Hc]; try reflexivity. now subst.
Qed.

Lemma all_digits_app s t :
  all_digits (s ++ t) = all_digits s && all_digits t.
Proof.
  induction s as [|c s IH]; cbn; [reflexivity|].
  now rewrite IH, andb_assoc.
Qed.

Lemma decimal_digits_all n : 0 <= n -> all_digits (decimal_digits n) = true.
Proof.
  revert n. apply decimal_ind; intros n Hn.
  - rewrite decimal_digits_small by assumption. cbn.
    now rewrite digit_char_is_digit.
  - intros IH. rewrite decimal_digits_step, all_digits_app, IH by assumption.
    cbn. rewrite digit_char_is_digit; [reflexivity|].
    apply Z.mod_pos_bound. lia.
Qed.

Lemma digits_value_app s : forall acc t,
  digits_value acc (s ++ t) = digits_value (digits_value acc s) t.
Proof. induction s as [|c s IH]; intros; cbn; [reflexivity|apply IH]. Qed.

Lemma digits_value_decimal n : 0 <= n -> digits_value 0 (decimal_digits n) = n.
Proof.
  revert n. apply decimal_ind; intros n Hn.
  - rewrite decimal_digits_small by assumption. cbn [digits_value].
    rewrite digit_val_char by assumption. lia.
  - intros IH. rewrite decimal_digits_step, digits_value_app, IH by assumption.
    cbn [digits_value]. rewrite digit_val_char by (apply Z.mod_pos_bound; lia).
    pose proof (Z.div_mod n 10). lia.
Qed.

Lemma digits_value_zeros j : forall acc,
  digits_value acc (zeros j) = acc * 10 ^ Z.of_nat j.
Proof.
  induction j as [|j IH]; intros acc.
  - cbn. lia.
  - cbn [zeros digits_value]. rewrite IH.
    rewrite Nat2Z.inj_succ, Z.pow_succ_r by lia.
    change (digit_val "0") with 0. lia.
Qed.

Lemma decimal_digits_cons n :
  0 <= n -> exists c s, decimal_digits n = String c s /\ is_digit c = true.
Proof.
  revert n. apply decimal_ind; intros n Hn.
  - rewrite decimal_digits_small by assumption.
    eexists _, _. split; [reflexivity|]. now apply digit_char_is_digit.
  - intros (c & s & E & Hc). rewrite decimal_digits_step, E by assumption.
    cbn. eauto.
Qed.

(** a number of [k] digits lies between [10^(k-1)] and [10^k] *)
Lemma decimal_digits_length n :
  0 < n ->
  10 ^ (length_Z (decimal_digits n) - 1) <= n < 10 ^ length_Z (decimal_digits n).
Proof.
  intros Hn. assert (H0 : 0 <= n) by lia. revert n H0 Hn.
  apply (decimal_ind (fun n => 0 < n -> _)); intros n Hn.
  - intros Hpos. rewrite decimal_digits_small by assumption.
    rewrite length_Z_cons. cbn. lia.
  - intros IH _. rewrite decimal_digits_step by assumption.
    rewrite length_Z_app, length_Z_cons.
    change (length_Z "") with 0.
    assert (Hq : 0 < n / 10) by (apply Z.div_str_pos; lia).
    specialize (IH Hq).
    set (k := length_Z (decimal_digits (n / 10))) in *.
    assert (1 <= k).
    { destruct (decimal_digits_cons (n / 10)) as (c & s & E & _); [lia|].
      subst k. rewrite E, length_Z_cons. pose proof (length_Z_nonneg s). lia. }
    replace (k + (1 + 0) - 1) with (Z.succ (k - 1)) by lia.
    replace (k + (1 + 0)) with (Z.succ k) by lia.
    rewrite !Z.pow_succ_r by lia.
    pose proof (Z.div_mod n 10). pose proof (Z.mod_pos_bound n 10). lia.
Qed.

(* ----------------------------------------------------------------- *)
(** ** Rounding a value that is a float already *)

Lemma digits2_size m : digits2_pos m = Pos.size m.
Proof. induction m as [m IH|m IH|]; cbn; congruence. Qed.

Lemma digits2_log2 m : Zpos (digits2_pos m) = Z.log2 (Zpos m) + 1.
Proof.
  destruct m as [m|m|]; cbn [digits2_pos Z.log2]; rewrite ?digits2_size; lia.
Qed.

Lemma scaled_den_pos q e : 0 < q -> 0 < scaled_den q e.
Proof.
  intros Hq. unfold scaled_den. destruct (Z.leb_spec 0 e); [|assumption].
  apply Z.mul_pos_pos; [assumption|]. apply Z.pow_pos_nonneg; lia.
Qed.

Lemma scaled_quot_succ p q e :
  0 < q ->
  scaled_num p (e + 1) / scaled_den q (e + 1) =
  scaled_num p e / scaled_den q e / 2.
Proof.
  intros Hq. pose proof (scaled_den_pos q e Hq) as HQ.
  rewrite Z.div_div by lia.
  unfold scaled_num, scaled_den in *.
  destruct (Z.leb_spec 0 e) as [He|He].
  - destruct (Z.leb_spec 0 (e + 1)); [|lia].
    rewrite Z.pow_add_r by lia. now rewrite Z.mul_assoc.
  - destruct (Z.leb_spec 0 (e + 1)) as [He1|He1].
    + assert (e = -1) by lia. subst e. cbn.
      rewrite Z.mul_1_r. now rewrite Z.div_mul_cancel_r by lia.
    + replace (- e) with (- (e + 1) + 1) by lia.
      rewrite Z.pow_add_r by lia. cbn. rewrite Z.mul_assoc.
      now rewrite Z.div_mul_cancel_r by lia.
Qed.

Lemma scaled_log2 p q m e :
  0 < q -> 0 < m -> 0 < p ->
  scaled_num p e = m * scaled_den q e ->
  Z.log2 p = e + Z.log2 (m * q).
Proof.
  intros Hq Hm Hp. unfold scaled_num, scaled_den.
  destruct (Z.leb_spec 0 e) as [He|He]; intros E.
  - rewrite E, Z.mul_assoc. apply Z.log2_mul_pow2; [|assumption].
    now apply Z.mul_pos_pos.
  - rewrite <- E. rewrite Z.log2_mul_pow2 by lia. lia.
Qed.

Lemma scaled_num_pos p q m e :
  0 < q -> 0 < m -> scaled_num p e = m * scaled_den q e -> 0 < p.
Proof.
  intros Hq Hm E. pose proof (scaled_den_pos q e Hq) as HQ.
  assert (0 < scaled_num p e) by (rewrite E; now apply Z.mul_pos_pos).
  unfold scaled_num in *. destruct (Z.leb_spec 0 e); [assumption|].
  assert (0 < 2 ^ (- e)) by (apply Z.pow_pos_nonneg; lia).
  nia.
Qed.

Lemma binade_exact p q m e :
  0 < q -> canonical m e ->
  scaled_num p e = m * scaled_den q e ->
  binade p q = e.
Proof.
  intros Hq (Hm & _ & Hc) E.
  pose proof (scaled_num_pos p q m e Hq Hm E) as Hp.
  pose proof (scaled_log2 p q m e Hq Hm Hp E) as Hlp.
  pose proof (Z.log2_mul_below m q Hm Hq) as Hlo.
  pose proof (Z.log2_mul_above m q ltac:(lia) ltac:(lia)) as Hhi.
  pose proof (scaled_den_pos q e Hq) as HQ.
  assert (Hquot : scaled_num p e / scaled_den q e = m).
  { rewrite E. apply Z.div_mul. lia. }
  unfold binade.
  destruct Hc as [[Hl He]|[Hl He]].
  - (* normal *)
    assert (Hd : Z.log2 p - Z.log2 q - 52 = e \/
                 Z.log2 p - Z.log2 q - 52 = e + 1) by lia.
    destruct Hd as [Hd|Hd]; rewrite Hd.
    + rewrite Z.max_l by assumption. rewrite Hquot.
      assert (2 ^ 52 <= m).
      { rewrite <- Hl. apply Z.log2_spec. assumption. }
      destruct (Z.ltb_spec m (2 ^ 52)); [lia|]. now rewrite andb_false_r.
    + rewrite Z.max_l by lia.
      rewrite scaled_quot_succ, Hquot by assumption.
      assert (m < 2 ^ 53).
      { change 53 with (Z.succ 52). rewrite <- Hl. now apply Z.log2_spec. }
      assert (m / 2 < 2 ^ 52) by (apply Z.div_lt_upper_bound; lia).
      destruct (Z.ltb_spec emin (e + 1)); [|lia].
      destruct (Z.ltb_spec (m / 2) (2 ^ 52)); [|lia]. cbn. lia.
  - (* subnormal *)
    rewrite Z.max_r by lia. subst e.
    now rewrite Z.ltb_irrefl.
Qed.

Lemma round_pos_exact s p q m e :
  0 < q -> canonical m e ->
  scaled_num p e = m * scaled_den q e ->
  round_pos s p q = S754_finite s (Z.to_pos m) e.
Proof.
  intros Hq Hc E. pose proof Hc as (Hm & He & Hl).
  pose proof (scaled_den_pos q e Hq) as HQ.
  unfold round_pos. rewrite (binade_exact p q m e Hq Hc E).
  rewrite E, Z.div_mul, Z.mod_mul by lia.
  unfold nearest_even.
  destruct (Z.ltb_spec (scaled_den q e) (2 * 0)); [lia|].
  destruct (Z.eqb_spec (2 * 0) (scaled_den q e)); [lia|]. cbn [orb andb].
  assert (m < 2 ^ 53).
  { apply Z.log2_lt_pow2; [assumption|]. lia. }
  destruct (Z.eqb_spec m (2 ^ 53)); [lia|].
  destruct (Z.leb_spec m 0); [lia|].
  destruct (Z.ltb_spec emax_finite e); [lia|]. reflexivity.
Qed.

Lemma valid_canonical s m e :
  valid_binary (S754_finite s m e) = true -> canonical (Zpos m) e.
Proof.
  cbn [SpecFloat.valid_binary]. unfold bounded, canonical_mantissa, fexp.
  rewrite andb_true_iff, Z.eqb_eq, Z.leb_le, digits2_log2.
  change (SpecFloat.emin prec emax) with emin.
  change (emax - prec) with emax_finite. change prec with 53.
  unfold canonical. lia.
Qed.

Lemma of_decimal_exact s m e :
  valid_binary (S754_finite s m e) = true ->
  of_decimal s (fst (exact_decimal m e)) (snd (exact_decimal m e)) =
  S754_finite s m e.
Proof.
  intros Hv. apply valid_canonical in Hv.
  unfold exact_decimal, of_decimal.
  destruct (Z.leb_spec 0 e) as [He|He]; cbn [fst snd].
  - assert (0 < 2 ^ e) by (apply Z.pow_pos_nonneg; lia).
    destruct (Z.leb_spec (Z.pos m * 2 ^ e) 0); [nia|].
    change (0 <=? 0) with true. cbv iota.
    change (S754_finite s m e) with (S754_finite s (Z.to_pos (Zpos m)) e).
    apply round_pos_exact; [lia|assumption|].
    unfold scaled_num, scaled_den. destruct (Z.leb_spec 0 e); [|lia].
    ring.
  - assert (0 < 5 ^ (- e)) by (apply Z.pow_pos_nonneg; lia).
    destruct (Z.leb_spec (Z.pos m * 5 ^ (- e)) 0); [nia|].
    destruct (Z.leb_spec 0 e); [lia|].
    change (S754_finite s m e) with (S754_finite s (Z.to_pos (Zpos m)) e).
    apply round_pos_exact; [apply Z.pow_pos_nonneg; lia|assumption|].
    unfold scaled_num, scaled_den. destruct (Z.leb_spec 0 e); [lia|].
    change 10 with (2 * 5). rewrite Z.pow_mul_l. lia.
Qed.

(* ----------------------------------------------------------------- *)
(** ** Reading back what [toString] writes *)

Lemma sf_eqb_eq x y : sf_eqb x y = true -> x = y.
Proof.
  destruct x as [a|a| |a m e], y as [b|b| |b m' e']; cbn; try discriminate;
    rewrite ?andb_true_iff, ?Pos.eqb_eq, ?Z.eqb_eq; intros H.
  - now rewrite (eqb_prop _ _ H).
  - now rewrite (eqb_prop _ _ H).
  - reflexivity.
  - destruct H as [[H ->] ->]. now rewrite (eqb_prop _ _ H).
Qed.

Lemma round_pos_sign s p q : round_pos s p q = with_sign s (round_pos false p q).
Proof.
  unfold round_pos.
  destruct (nearest_even _ _ _ =? 2 ^ 53);
    repeat match goal with |- context [if ?b then _ else _] => destruct b end;
    reflexivity.
Qed.

Lemma of_decimal_sign s D E : of_decimal s D E = with_sign s (of_decimal false D E).
Proof.
  unfold of_decimal. destruct (D <=? 0); [reflexivity|].
  destruct (0 <=? E); apply round_pos_sign.
Qed.

Lemma of_decimal_finite_pos s D E s' m e :
  of_decimal s D E = S754_finite s' m e -> 0 < D.
Proof.
  unfold of_decimal. destruct (Z.leb_spec D 0); [discriminate|lia].
Qed.

Lemma shortest_from_reads_back m e D E L fuel : forall k,
  of_decimal false D E = S754_finite false m e ->
  of_decimal false (fst (shortest_from fuel k (S754_finite false m e) D E L))
                   (snd (shortest_from fuel k (S754_finite false m e) D E L))
  = S754_finite false m e.
Proof.
  induction fuel as [|fuel IH]; intros k HD; cbn [shortest_from].
  - exact HD.
  - cbv zeta.
    set (lo := D / 10 ^ (L - k)).
    set (X := E + (L - k)).
    set (hi := if lo + 1 <? 10 ^ k then (lo + 1, X) else (1, X + k)).
    destruct (sf_eqb (of_decimal false lo X) (S754_finite false m e)) eqn:Elo;
    destruct (sf_eqb (of_decimal false (fst hi) (snd hi)) (S754_finite false m e))
      eqn:Ehi; cbn [andb].
    + destruct (_ || _); cbn [fst snd]; now apply sf_eqb_eq.
    + now apply sf_eqb_eq.
    + now apply sf_eqb_eq.
    + now apply IH.
Qed.

Lemma shortest_reads_back s m e :
  valid_binary (S754_finite s m e) = true ->
  of_decimal s (fst (shortest m e)) (snd (shortest m e)) = S754_finite s m e.
Proof.
  intros Hv. rewrite of_decimal_sign. unfold shortest.
  pose proof (of_decimal_exact false m e Hv) as Hx.
  destruct (exact_decimal m e) as [D E]. cbn [fst snd] in Hx.
  now rewrite shortest_from_reads_back.
Qed.

(** *** The text of a decimal literal *)

Lemma span_digits_app ds rest :
  all_digits ds = true -> no_digit_head rest = true ->
  span_digits (ds ++ rest) = (ds, rest).
Proof.
  intros Hds Hrest. induction ds as [|c ds IH]; cbn [append].
  - destruct rest as [|c r]; [reflexivity|]. cbn in *.
    now destruct (is_digit c).
  - cbn in Hds |- *. apply andb_true_iff in Hds as [Hc Hds].
    now rewrite Hc, IH.
Qed.

Lemma digit_head c r :
  is_digit c = true ->
  trim_start (String c r) = String c r /\
  split_sign (String c r) = (false, String c r) /\
  startsWith (String c r) "Infinity" = false.
Proof.
  destruct c as [[] [] [] [] [] [] [] []]; cbn; intros H;
    try discriminate H; repeat split.
Qed.

Lemma exponent_part_suffix ex : exponent_part (exp_suffix ex) = exp_value ex.
Proof.
  destruct ex as [e|]; [|reflexivity].
  unfold exp_suffix, exp_value.
  assert (Ha : 0 <= Z.abs e) by lia.
  pose proof (decimal_digits_all _ Ha) as Hall.
  pose proof (digits_value_decimal _ Ha) as Hval.
  destruct (decimal_digits_cons _ Ha) as (c & r & E & Hc).
  rewrite <- (append_nil_r (decimal_digits (Z.abs e))).
  destruct (Z.ltb_spec e 0); cbn [append exponent_part Ascii.eqb Bool.eqb orb andb
                                   split_sign];
    rewrite span_digits_app by (assumption || reflexivity);
    rewrite Hval; rewrite E; lia.
Qed.

Lemma no_digit_head_exp ex : no_digit_head (exp_suffix ex) = true.
Proof. now destruct ex. Qed.

Lemma literal_value (s : bool) c ip frac ex :
  is_digit c = true -> all_digits ip = true ->
  all_digits (frac_digits frac) = true ->
  parseFloatSF ((if s then "-" else "") ++
                String c ip ++ frac_suffix frac ++ exp_suffix ex) =
  of_decimal s (digits_value 0 (String c ip ++ frac_digits frac))
             (exp_value ex - length_Z (frac_digits frac)).
Proof.
  intros Hc Hip Hfp.
  set (body := String c ip ++ frac_suffix frac ++ exp_suffix ex).
  assert (Hsign : split_sign (trim_start ((if s then "-" else "") ++ body))
                  = (s, body)).
  { destruct s; [reflexivity|].
    subst body. cbn [append].
    destruct (digit_head c (ip ++ frac_suffix frac ++ exp_suffix ex) Hc)
      as (-> & -> & _). reflexivity. }
  unfold parseFloatSF. rewrite Hsign. unfold str_unsigned_decimal.
  assert (Hinf : startsWith body "Infinity" = false).
  { subst body. cbn [append]. now apply digit_head. }
  rewrite Hinf.
  assert (Hspan : span_digits body =
                  (String c ip, frac_suffix frac ++ exp_suffix ex)).
  { subst body. apply span_digits_app.
    - cbn. now rewrite Hc.
    - destruct frac; [reflexivity|]. apply no_digit_head_exp. }
  rewrite Hspan.
  destruct frac as [fp|]; cbn [frac_suffix frac_digits append] in *.
  - rewrite span_digits_app by (assumption || apply no_digit_head_exp).
    now rewrite exponent_part_suffix.
  - rewrite <- (exponent_part_suffix ex).
    destruct ex as [e|]; reflexivity.
Qed.

Lemma take_drop n : forall s, take n s ++ drop n s = s.
Proof.
  induction n as [|n IH]; intros [|c s]; cbn; try reflexivity.
  now rewrite IH.
Qed.

Lemma all_digits_take n : forall s,
  all_digits s = true -> all_digits (take n s) = true.
Proof.
  induction n as [|n IH]; intros [|c s]; cbn; try reflexivity.
  rewrite !andb_true_iff. intros [-> H]. auto.
Qed.

Lemma all_digits_drop n : forall s,
  all_digits s = true -> all_digits (drop n s) = true.
Proof.
  induction n as [|n IH]; intros [|c s]; cbn; try easy.
  rewrite !andb_true_iff. intros [_ H]. auto.
Qed.

Lemma length_Z_drop n : forall s,
  Z.of_nat n <= length_Z s -> length_Z (drop n s) = length_Z s - Z.of_nat n.
Proof.
  induction n as [|n IH]; intros [|c s]; cbn [drop]; rewrite ?length_Z_cons;
    change (length_Z "") with 0; intros H; try lia.
  rewrite IH by lia. lia.
Qed.

Lemma all_digits_zeros j : all_digits (zeros j) = true.
Proof. induction j; [reflexivity|exact IHj]. Qed.

Lemma length_Z_zeros j : length_Z (zeros j) = Z.of_nat j.
Proof.
  induction j as [|j IH]; [reflexivity|].
  cbn [zeros]. rewrite length_Z_cons, IH. lia.
Qed.

Lemma of_decimal_scaled s d X :
  0 < d -> 0 <= X -> of_decimal s (d * 10 ^ X) 0 = of_decimal s d X.
Proof.
  intros Hd HX. unfold of_decimal.
  assert (0 < 10 ^ X) by (apply Z.pow_pos_nonneg; lia).
  destruct (Z.leb_spec (d * 10 ^ X) 0); [nia|].
  destruct (Z.leb_spec d 0); [lia|].
  destruct (Z.leb_spec 0 X); [|lia].
  change (0 <=? 0) with true. cbv iota. now rewrite Z.pow_0_r, Z.mul_1_r.
Qed.

Lemma exponential_shape c r n :
  exists frac,
    all_digits r = true -> all_digits (frac_digits frac) = true /\
    exponential (String c r) n =
      String c "" ++ frac_suffix frac ++ exp_suffix (Some (n - 1)) /\
    String c "" ++ frac_digits frac = String c r.
Proof.
  unfold exponential.
  destruct (Z.eqb_spec (length_Z (String c r)) 1) as [Hk|Hk].
  - exists None. intros _. rewrite length_Z_cons in Hk.
    assert (r = "") as ->.
    { destruct r as [|c' r]; [reflexivity|]. rewrite length_Z_cons in Hk.
      pose proof (length_Z_nonneg r). lia. }
    easy.
  - exists (Some r). easy.
Qed.

Lemma render_shape d X :
  0 < d ->
  exists c ip frac ex,
    is_digit c = true /\ all_digits ip = true /\
    all_digits (frac_digits frac) = true /\
    render d X = String c ip ++ frac_suffix frac ++ exp_suffix ex /\
    (forall s, of_decimal s (digits_value 0 (String c ip ++ frac_digits frac))
                         (exp_value ex - length_Z (frac_digits frac))
               = of_decimal s d X) /\
    (ex = None <-> plain_position (point_position d X) = true).
Proof.
  intros Hd. assert (H0 : 0 <= d) by lia.
  pose proof (decimal_digits_all d H0) as Hall.
  pose proof (digits_value_decimal d H0) as Hval.
  destruct (decimal_digits_cons d H0) as (c & r & E & Hc).
  unfold render, point_position, plain_position. rewrite E in *.
  cbn [all_digits] in Hall. rewrite Hc in Hall. cbn [andb] in Hall.
  set (k := length_Z (String c r)).
  assert (Hk : k = 1 + length_Z r) by apply length_Z_cons.
  pose proof (length_Z_nonneg r) as Hr.
  set (n := k + X).
  assert (Hplain : (-6 <? n) && (n <=? 21) = true <-> -6 < n <= 21)
    by (rewrite andb_true_iff, Z.ltb_lt, Z.leb_le; tauto).
  set (plain := (-6 <? n) && (n <=? 21)) in *. clearbody plain.
  assert (Hexp : ~ (-6 < n <= 21) ->
    exists c0 ip frac ex,
    is_digit c0 = true /\ all_digits ip = true /\
    all_digits (frac_digits frac) = true /\
    exponential (String c r) n =
      String c0 ip ++ frac_suffix frac ++ exp_suffix ex /\
    (forall s, of_decimal s (digits_value 0 (String c0 ip ++ frac_digits frac))
                         (exp_value ex - length_Z (frac_digits frac))
               = of_decimal s d X) /\
    (ex = None <-> plain = true)).
  { intros Hn. destruct (exponential_shape c r n) as (frac & Hf).
    destruct (Hf Hall) as (Hfd & Eexp & Eds).
    exists c, "", frac, (Some (n - 1)).
    repeat split; try assumption; try discriminate.
    - intros s. rewrite Eds, Hval. cbn [exp_value]. f_equal.
      assert (length_Z (String c "" ++ frac_digits frac) = k)
        by now rewrite Eds.
      rewrite length_Z_app in H. change (length_Z (String c "")) with 1 in H.
      lia.
    - tauto. }
  destruct (Z.leb_spec k n) as [Hkn|Hkn];
    destruct (Z.leb_spec n 21) as [Hn21|Hn21]; cbn [andb].
  - (* digits, then zeros *)
    exists c, (r ++ zeros (Z.to_nat (n - k))), None, None.
    split; [assumption|]. split.
    { now rewrite all_digits_app, Hall, all_digits_zeros. }
    split; [reflexivity|]. split.
    { cbn. now rewrite append_nil_r. }
    split.
    { intros s. cbn [frac_digits exp_value length_Z String.length Z.of_nat].
      rewrite append_nil_r.
      change (String c (r ++ zeros (Z.to_nat (n - k))))
        with (String c r ++ zeros (Z.to_nat (n - k))).
      rewrite digits_value_app, Hval, digits_value_zeros.
      rewrite Z2Nat.id by lia. replace (n - k) with X by lia.
      apply of_decimal_scaled; lia. }
    split; [intros _; apply Hplain; lia|reflexivity].
  - rewrite andb_false_r. destruct (Z.leb_spec n 0); [lia|].
    rewrite andb_false_r. apply Hexp. lia.
  - destruct (Z.ltb_spec 0 n) as [Hn0|Hn0]; cbn [andb].
    + (* a point inside the digits *)
      destruct (Z.to_nat n) as [|n'] eqn:En; [lia|].
      exists c, (take n' r), (Some (drop n' r)), None.
      split; [assumption|]. split; [now apply all_digits_take|].
      split; [now apply all_digits_drop|]. split.
      { cbn. now rewrite append_nil_r. }
      split.
      { intros s. cbn [frac_digits exp_value].
        change (String c (take n' r) ++ drop n' r)
          with (String c (take n' r ++ drop n' r)).
        rewrite take_drop, Hval. f_equal.
        rewrite length_Z_drop by lia. lia. }
      split; [intros _; apply Hplain; lia|reflexivity].
    + destruct (Z.ltb_spec (-6) n) as [Hn6|Hn6]; cbn [andb].
      2:{ apply Hexp. lia. }
      destruct (Z.leb_spec n 0); [|lia].
      (* zeros between the point and the digits *)
      exists "0"%char, "", (Some (zeros (Z.to_nat (- n)) ++ String c r)), None.
      split; [reflexivity|]. split; [reflexivity|]. split.
      { cbn [frac_digits]. rewrite all_digits_app, all_digits_zeros.
        cbn. now rewrite Hc. }
      split.
      { cbn. now rewrite append_nil_r. }
      split; [|split; [intros _; apply Hplain; lia|reflexivity]].
      intros s. cbn [frac_digits exp_value].
      change (String "0" "" ++ zeros (Z.to_nat (- n)) ++ String c r)
        with (zeros (S (Z.to_nat (- n))) ++ String c r).
      rewrite digits_value_app, digits_value_zeros, Z.mul_0_l, Hval.
      f_equal. rewrite length_Z_app, length_Z_zeros, Z2Nat.id by lia. lia.
  - rewrite andb_false_r. destruct (Z.leb_spec n 0); [lia|].
    rewrite andb_false_r. apply Hexp. lia.
Qed.

(** the literal [render] writes denotes [d * 10^X] *)
Lemma parseFloatSF_render (s : bool) d X :
  0 < d ->
  parseFloatSF ((if s then "-" else "") ++ render d X) = of_decimal s d X.
Proof.
  intros Hd.
  destruct (render_shape d X Hd) as (c & ip & frac & ex & Hc & Hip & Hf & -> & Hv & _).
  rewrite literal_value by assumption. apply Hv.
Qed.

Lemma parseFloatSF_toStringSF x :
  valid_binary x = true ->
  parseFloatSF (toStringSF x) = unsigned_zero x.
Proof.
  intros Hv. destruct x as [s|s| |s m e]; cbn [toStringSF unsigned_zero].
  - reflexivity.
  - now destruct s.
  - reflexivity.
  - pose proof (shortest_reads_back s m e Hv) as Hback.
    destruct (shortest m e) as [d X]. cbn [fst snd] in Hback.
    rewrite parseFloatSF_render; [exact Hback|].
    now apply of_decimal_finite_pos in Hback.
Qed.

Lemma valid_unsigned_zero x :
  valid_binary x = true -> valid_binary (unsigned_zero x) = true.
Proof. now destruct x. Qed.

(** [parseFloat(x.toString())] is [x], but for the sign of zero *)
Lemma parseFloat_toString x :
  Prim2SF (parseFloat (toString x)) = unsigned_zero (Prim2SF x).
Proof.
  unfold parseFloat, toString.
  rewrite parseFloatSF_toStringSF by apply Prim2SF_valid.
  apply Prim2SF_SF2Prim, valid_unsigned_zero, Prim2SF_valid.
Qed.

(* ----------------------------------------------------------------- *)
(** ** The sign of zero does not show *)

Lemma unsigned_zero_cases a b :
  unsigned_zero a = unsigned_zero b ->
  a = b \/ exists sa sb, a = S754_zero sa /\ b = S754_zero sb.
Proof.
  destruct a, b; cbn; intros H; try discriminate H; eauto.
Qed.

Lemma unsigned_zero_idem a : unsigned_zero (unsigned_zero a) = unsigned_zero a.
Proof. now destruct a. Qed.

Lemma toStringSF_unsigned_zero a : toStringSF (unsigned_zero a) = toStringSF a.
Proof. now destruct a. Qed.

Lemma same_value_zero_refl x : same_value_zero x x.
Proof. reflexivity. Qed.

Lemma same_value_zero_round_trip x : same_value_zero (parseFloat (toString x)) x.
Proof.
  unfold same_value_zero. now rewrite parseFloat_toString, unsigned_zero_idem.
Qed.

Lemma same_value_zero_toString x y :
  same_value_zero x y -> toString x = toString y.
Proof.
  unfold same_value_zero, toString. intros H.
  now rewrite <- (toStringSF_unsigned_zero (Prim2SF x)), H,
    toStringSF_unsigned_zero.
Qed.

(** the four operations, with a zero of either sign on the left *)
Lemma zero_sign_add sa sb c :
  unsigned_zero (SF64add (S754_zero sa) c) = unsigned_zero (SF64add (S754_zero sb) c).
Proof. destruct c as [sc|sc| |sc mc ec]; destruct sa, sb; try destruct sc; reflexivity. Qed.

Lemma zero_sign_sub sa sb c :
  unsigned_zero (SF64sub (S754_zero sa) c) = unsigned_zero (SF64sub (S754_zero sb) c).
Proof. destruct c as [sc|sc| |sc mc ec]; destruct sa, sb; try destruct sc; reflexivity. Qed.

Lemma zero_sign_mul sa sb c :
  unsigned_zero (SF64mul (S754_zero sa) c) = unsigned_zero (SF64mul (S754_zero sb) c).
Proof. destruct c as [sc|sc| |sc mc ec]; destruct sa, sb; try destruct sc; reflexivity. Qed.

Lemma zero_sign_div sa sb c :
  unsigned_zero (SF64div (S754_zero sa) c) = unsigned_zero (SF64div (S754_zero sb) c).
Proof. destruct c as [sc|sc| |sc mc ec]; destruct sa, sb; try destruct sc; reflexivity. Qed.

(** [compute] gives the same Number for a left operand +0 as for -0 *)
Lemma compute_same_value_zero op x y c :
  same_value_zero x y -> same_value_zero (compute op x c) (compute op y c).
Proof.
  intros H. destruct (unsigned_zero_cases _ _ H) as [E|(sa & sb & Ea & Eb)].
  { apply Prim2SF_inj in E. subst y. reflexivity. }
  unfold same_value_zero, compute.
  destruct (String.eqb op "+").
  { rewrite !add_spec, Ea, Eb. apply zero_sign_add. }
  destruct (String.eqb op "-").
  { rewrite !sub_spec, Ea, Eb. apply zero_sign_sub. }
  destruct (String.eqb op "*").
  { rewrite !mul_spec, Ea, Eb. apply zero_sign_mul. }
  destruct (String.eqb op "/"); [|reflexivity].
  destruct (c =? 0)%float; [reflexivity|].
  rewrite !div_spec, Ea, Eb. apply zero_sign_div.
Qed.

(* ----------------------------------------------------------------- *)
(** ** Typing an operand *)

Lemma entry_step_pending c a :
  entry a = true ->
  previousValue (step c a) = previousValue c /\
  operator (step c a) = operator c.
Proof.
  destruct a; cbn [entry step]; intros H; try discriminate H.
  - apply inputDigit_pending.
  - apply inputDecimal_pending.
  - apply toggleSign_pending.
  - easy.
  - easy.
Qed.

Lemma entry_step_input c c' a :
  entry a = true -> currentInput c = currentInput c' ->
  currentInput (step c a) = currentInput (step c' a).
Proof.
  destruct a; cbn [entry step]; intros H E; try discriminate H.
  - unfold inputDigit. rewrite E. now destruct (String.eqb _ _).
  - unfold inputDecimal. rewrite E. destruct (negb _); [reflexivity|assumption].
  - unfold toggleSign. rewrite E. destruct (startsWith _ _); [reflexivity|].
    destruct (negb _); [reflexivity|assumption].
  - reflexivity.
  - unfold calculatePercentage. now rewrite E.
Qed.

Lemma run_cons a keys c : run (a :: keys) c = run keys (step c a).
Proof. reflexivity. Qed.

Lemma entry_run_pending keys : forall c,
  forallb entry keys = true ->
  previousValue (run keys c) = previousValue c /\
  operator (run keys c) = operator c.
Proof.
  induction keys as [|a keys IH]; intros c; cbn [forallb];
    rewrite ?run_cons.
  - easy.
  - rewrite andb_true_iff. intros [Ha Hk].
    destruct (IH (step c a) Hk) as [-> ->]. now apply entry_step_pending.
Qed.

Lemma entry_run_input keys : forall c c',
  forallb entry keys = true -> currentInput c = currentInput c' ->
  currentInput (run keys c) = currentInput (run keys c').
Proof.
  induction keys as [|a keys IH]; intros c c'; cbn [forallb];
    rewrite ?run_cons.
  - easy.
  - rewrite andb_true_iff. intros [Ha Hk] E.
    apply IH; [assumption|]. now apply entry_step_input.
Qed.

Lemma run_app k1 k2 c : run (k1 ++ k2) c = run k2 (run k1 c).
Proof. apply fold_left_app. Qed.

Lemma operator_key_cons op :
  operator_key op = true -> exists ch rest, op = String ch rest.
Proof. destruct op; [discriminate|eauto]. Qed.

(* ----------------------------------------------------------------- *)
(** ** Operators and equals *)

(** [compute] is the arithmetic of binary64, but for a zero divisor *)
Lemma compute_operators a b :
  compute "+" a b = (a + b)%float /\
  compute "-" a b = (a - b)%float /\
  compute "*" a b = (a * b)%float /\
  compute "/" a b = (if (b =? 0)%float then 0 else a / b)%float.
Proof. repeat split. Qed.

Lemma calculateResult_pending c op previous :
  operator c = Some op -> previousValue c = Some previous ->
  currentInput (calculateResult c) =
    toString (compute op previous (parseFloat (currentInput c))) /\
  previousValue (calculateResult c) = None /\
  operator (calculateResult c) = None.
Proof. intros Ho Hp. unfold calculateResult. now rewrite Ho, Hp. Qed.

Lemma setOperator_fields op c :
  currentInput (setOperator op c) = "0" /\
  operator (setOperator op c) = Some op.
Proof. easy. Qed.

Lemma setOperator_idle op c :
  operator c = None ->
  previousValue (setOperator op c) = Some (parseFloat (currentInput c)).
Proof.
  intros Ho. unfold setOperator, pending. now rewrite Ho.
Qed.

Lemma setOperator_pending op c op1 previous :
  operator c = Some op1 -> operator_key op1 = true ->
  previousValue c = Some previous ->
  previousValue (setOperator op c) =
  Some (parseFloat
          (toString (compute op1 previous (parseFloat (currentInput c))))).
Proof.
  intros Ho Hk Hp. destruct (operator_key_cons op1 Hk) as (ch & rest & E).
  unfold setOperator, pending. rewrite Ho, Hp, E.
  cbn [previousValue set_previousValue updateDisplay set_textContent
       set_currentInput set_operator currentInput].
  rewrite <- E.
  now destruct (calculateResult_pending c op1 previous Ho Hp) as (-> & _).
Qed.

Lemma constructor_fields text :
  currentInput (constructor text) = "0" /\
  previousValue (constructor text) = None /\
  operator (constructor text) = None.
Proof. easy. Qed.

(** the calls of a chain of two operations: the second operator key
    resolves the first operation, equals the second *)
Lemma chaining_calls text op1 op2 ka kb kc :
  operator_key op1 = true -> operator_key op2 = true ->
  forallb entry ka = true -> forallb entry kb = true ->
  forallb entry kc = true ->
  currentInput
    (run (ka ++ SetOperator op1 :: kb ++ SetOperator op2 :: kc ++
          [CalculateResult]) (constructor text))
  = toString (compute op2 (compute op1 (operand ka) (operand kb))
                      (operand kc)).
Proof.
  intros Hop1 Hop2 Ha Hb Hc.
  rewrite run_app, run_cons, run_app, run_cons, run_app.
  change (run [CalculateResult] ?c) with (calculateResult c).
  (* [a] is typed *)
  set (c1 := run ka (constructor text)).
  destruct (entry_run_pending ka (constructor text) Ha) as [Hp1 Ho1].
  fold c1 in Hp1, Ho1. cbn in Hp1, Ho1.
  assert (Hi1 : currentInput c1 = currentInput (run ka (constructor "")))
    by now apply entry_run_input.
  (* the first operator *)
  set (c2 := step c1 (SetOperator op1)). cbn [step] in c2.
  assert (Hp2 : previousValue c2 = Some (operand ka)).
  { unfold c2, operand. rewrite <- Hi1. now apply setOperator_idle. }
  destruct (setOperator_fields op1 c1) as [Hi2 Ho2]. fold c2 in Hi2, Ho2.
  (* [b] is typed *)
  set (c3 := run kb c2).
  destruct (entry_run_pending kb c2 Hb) as [Hp3 Ho3].
  fold c3 in Hp3, Ho3. rewrite Hp2 in Hp3. rewrite Ho2 in Ho3.
  assert (Hi3 : currentInput c3 = currentInput (run kb (constructor "")))
    by now apply entry_run_input.
  (* the second operator resolves the first *)
  set (c4 := step c3 (SetOperator op2)). cbn [step] in c4.
  pose proof (setOperator_pending op2 c3 op1 _ Ho3 Hop1 Hp3) as Hp4.
  fold c4 in Hp4. rewrite Hi3 in Hp4. fold (operand kb) in Hp4.
  destruct (setOperator_fields op2 c3) as [Hi4 Ho4]. fold c4 in Hi4, Ho4.
  (* [c] is typed *)
  set (c5 := run kc c4).
  destruct (entry_run_pending kc c4 Hc) as [Hp5 Ho5].
  fold c5 in Hp5, Ho5. rewrite Hp4 in Hp5. rewrite Ho4 in Ho5.
  assert (Hi5 : currentInput c5 = currentInput (run kc (constructor "")))
    by now apply entry_run_input.
  (* equals *)
  destruct (calculateResult_pending c5 op2 _ Ho5 Hp5) as (-> & _).
  rewrite Hi5. fold (operand kc).
  apply same_value_zero_toString, compute_same_value_zero,
    same_value_zero_round_trip.
Qed.

(** the switch of [calculateResult] against the arithmetic of the
    specification, for each of the four operators *)
Lemma compute_symbol o x y : compute (symbol o) x y = evaluate o x y.
Proof. destruct o; reflexivity. Qed.

Lemma operator_key_symbol o : operator_key (symbol o) = true.
Proof. destruct o; reflexivity. Qed.

Lemma evaluate_direct o x y :
  (o = Divide -> (y =? 0)%float = false) -> evaluate o x y = direct o x y.
Proof.
  intros H. destruct o; try reflexivity.
  cbn [evaluate]. now rewrite H.
Qed.

(** C1. Typing [a], an operator [o1], [b], an operator [o2], [c] and
    equals leaves in [currentInput] the text of [(a o1 b) o2 c], computed
    left to right in floating-point arithmetic with a division by 0
    yielding 0; where no right operand of a division is 0, that is the
    text of [(a o1 b) o2 c] in floating-point arithmetic as it stands. *)
Theorem chaining text o1 o2 ka kb kc :
  forallb entry ka = true -> forallb entry kb = true ->
  forallb entry kc = true ->
  let result :=
    currentInput
      (run (ka ++ SetOperator (symbol o1) :: kb ++
            SetOperator (symbol o2) :: kc ++ [CalculateResult])
           (constructor text)) in
  result = toString (evaluate o2 (evaluate o1 (operand ka) (operand kb))
                              (operand kc)) /\
  ((o1 = Divide -> (operand kb =? 0)%float = false) ->
   (o2 = Divide -> (operand kc =? 0)%float = false) ->
   result = toString (direct o2 (direct o1 (operand ka) (operand kb))
                             (operand kc))).
Proof.
  intros Ha Hb Hc result.
  assert (E : result =
              toString (evaluate o2 (evaluate o1 (operand ka) (operand kb))
                                 (operand kc))).
  { unfold result.
    rewrite (chaining_calls text _ _ ka kb kc (operator_key_symbol o1)
               (operator_key_symbol o2) Ha Hb Hc).
    now rewrite !compute_symbol. }
  split; [exact E|].
  intros H1 H2. now rewrite E, (evaluate_direct o2), (evaluate_direct o1).
Qed.

Lemma chaining_witness :
  let result :=
    currentInput
      (run ([InputDigit "7"] ++ SetOperator (symbol Minus) ::
            [InputDigit "3"] ++ SetOperator (symbol Times) ::
            [InputDigit "2"] ++ [CalculateResult]) (constructor "")) in
  result = toString (evaluate Times
                       (evaluate Minus (operand [InputDigit "7"])
                                 (operand [InputDigit "3"]))
                       (operand [InputDigit "2"])) /\
  ((Minus = Divide -> (operand [InputDigit "3"] =? 0)%float = false) ->
   (Times = Divide -> (operand [InputDigit "2"] =? 0)%float = false) ->
   result = toString (direct Times
                        (direct Minus (operand [InputDigit "7"])
                                (operand [InputDigit "3"]))
                        (operand [InputDigit "2"]))).
Proof.
  apply chaining; reflexivity.
Defined.

(** 7 - 3 * 2 = leaves 8, and 5 / 0 + 1 = leaves 1 *)
Example chains :
  currentInput
    (run [InputDigit "7"; SetOperator "-"; InputDigit "3"; SetOperator "*";
          InputDigit "2"; CalculateResult] (constructor "")) = "8" /\
  currentInput
    (run [InputDigit "5"; SetOperator "/"; InputDigit "0"; SetOperator "+";
          InputDigit "1"; CalculateResult] (constructor "")) = "1".
Proof. split; reflexivity. Qed.

Lemma parseFloat_zero : parseFloat "0" = 0%float.
Proof. reflexivity. Qed.

Lemma toString_zero x : Prim2SF x = S754_zero false \/ Prim2SF x = S754_zero true ->
  toString x = "0".
Proof. unfold toString. now intros [-> | ->]. Qed.

Lemma zeros_all_digits_keys s :
  all_digits s = true -> forallb key (digit_keys s) = true.
Proof.
  induction s as [|ch s IH]; [reflexivity|]. cbn [all_digits].
  rewrite andb_true_iff. intros [Hc Hs].
  change (digit_keys (String ch s))
    with (InputDigit (String ch "") :: digit_keys s).
  cbn [forallb key digit_key]. now rewrite Hc, IH.
Qed.

Lemma reachable_run keys : forall c,
  forallb key keys = true -> reachable c -> reachable (run keys c).
Proof.
  induction keys as [|a keys IH]; intros c Hk Hc; [exact Hc|].
  cbn [forallb] in Hk. apply andb_true_iff in Hk. destruct Hk as [Ha Hk].
  rewrite run_cons. apply IH; [exact Hk|]. now apply reach_step.
Qed.

(** adding or subtracting 0 leaves a Number as it is, the sign of a
    zero apart *)
Lemma add_zero x : same_value_zero (x + 0)%float x.
Proof.
  unfold same_value_zero. rewrite add_spec.
  change (Prim2SF 0) with (S754_zero false).
  destruct (Prim2SF x) as [s|s| |s m e]; try reflexivity. now destruct s.
Qed.

Lemma sub_zero x : same_value_zero (x - 0)%float x.
Proof.
  unfold same_value_zero. rewrite sub_spec.
  change (Prim2SF 0) with (S754_zero false).
  destruct (Prim2SF x) as [s|s| |s m e]; try reflexivity. now destruct s.
Qed.

(** a product with 0: a zero for a finite Number, NaN for the others *)
Lemma mul_zero x :
  Prim2SF (x * 0)%float =
  match Prim2SF x with
  | S754_zero s | S754_finite s _ _ => S754_zero s
  | _ => S754_nan
  end.
Proof.
  rewrite mul_spec. change (Prim2SF 0) with (S754_zero false).
  destruct (Prim2SF x) as [s|s| |s m e]; try reflexivity; now destruct s.
Qed.

Lemma same_value_zero_trans x y z :
  same_value_zero x y -> same_value_zero y z -> same_value_zero x z.
Proof. unfold same_value_zero. congruence. Qed.

(** C10, as the code has it.  An operator key pressed while the operator
    [o1] is pending and [currentInput] is still "0" resolves the pending
    operation with 0 as right operand before the new operator is stored:
    [previousValue] becomes [previous o1 0], the sign of a zero apart.
    That is [previous] for "+" and "-", 0 for "/"; for "*" it is 0 when
    [previous] is finite, and NaN when it is not. *)
Theorem operator_twice c o1 op2 previous :
  operator c = Some (symbol o1) ->
  previousValue c = Some previous -> currentInput c = "0" ->
  exists v,
    previousValue (setOperator op2 c) = Some v /\
    same_value_zero v (evaluate o1 previous 0%float) /\
    operator (setOperator op2 c) = Some op2 /\
    currentInput (setOperator op2 c) = "0" /\
    (o1 = Plus \/ o1 = Minus -> same_value_zero v previous) /\
    (o1 = Divide -> v = 0%float) /\
    (o1 = Times -> isFinite previous = true -> v = 0%float) /\
    (o1 = Times -> isFinite previous = false -> isNaN v = true).
Proof.
  intros Ho Hp Hi.
  pose proof (setOperator_pending op2 c (symbol o1) previous Ho
                (operator_key_symbol o1) Hp) as Hv.
  rewrite Hi, parseFloat_zero, compute_symbol in Hv.
  eexists. split; [exact Hv|].
  pose proof (same_value_zero_round_trip (evaluate o1 previous 0%float)) as Hr.
  split; [exact Hr|]. split; [reflexivity|]. split; [reflexivity|].
  split; [|split; [|split]].
  - intros [-> | ->]; cbn [evaluate direct] in *;
      eapply same_value_zero_trans; eauto using add_zero, sub_zero.
  - intros ->. reflexivity.
  - intros -> Hfin. rewrite <- parseFloat_zero at 2. f_equal.
    apply toString_zero. cbn [evaluate direct]. rewrite mul_zero.
    unfold isFinite in Hfin.
    destruct (Prim2SF previous) as [s|s| |s m e]; try discriminate Hfin;
      destruct s; auto.
  - intros -> Hinf. unfold isNaN. rewrite parseFloat_toString.
    cbn [evaluate direct]. rewrite mul_zero. unfold isFinite in Hinf.
    destruct (Prim2SF previous) as [s|s| |s m e]; try discriminate Hinf;
      reflexivity.
Qed.

Lemma operator_twice_witness :
  exists v,
    previousValue (setOperator "+" (run [InputDigit "8"; SetOperator "*"]
                                        (constructor ""))) = Some v /\
    same_value_zero v (evaluate Times (parseFloat "8") 0%float) /\
    operator (setOperator "+" (run [InputDigit "8"; SetOperator "*"]
                                   (constructor ""))) = Some "+" /\
    currentInput (setOperator "+" (run [InputDigit "8"; SetOperator "*"]
                                       (constructor ""))) = "0" /\
    (Times = Plus \/ Times = Minus -> same_value_zero v (parseFloat "8")) /\
    (Times = Divide -> v = 0%float) /\
    (Times = Times -> isFinite (parseFloat "8") = true -> v = 0%float) /\
    (Times = Times -> isFinite (parseFloat "8") = false -> isNaN v = true).
Proof.
  apply (operator_twice _ Times "+" (parseFloat "8")); reflexivity.
Defined.

(** after [overflow_keys], Infinity is pending on "*"; the next
    operator key stores NaN *)
Lemma overflow_state :
  (fun c =>
     (operator c, previousValue c, currentInput c,
      match previousValue (setOperator "+" c) with
      | Some v => isNaN v
      | None => false
      end)) (run overflow_keys (constructor ""))
  = (Some "*", Some infinity, "0", true).
Proof. vm_cast_no_check (eq_refl (Some "*", Some infinity, "0", true)). Qed.

(** with Infinity pending on "*", the next operator key stores NaN, not 0 *)
Lemma pending_times_infinity :
  ~ (forall c previous op2,
       reachable c -> operator c = Some "*" ->
       previousValue c = Some previous -> currentInput c = "0" ->
       previousValue (setOperator op2 c) = Some 0%float).
Proof.
  intros H. pose proof overflow_state as E.
  assert (Hr : reachable (run overflow_keys (constructor "")))
    by (apply reachable_run; [vm_compute; reflexivity|apply reach_init]).
  revert Hr E. generalize (run overflow_keys (constructor "")). intros c Hr E.
  cbv beta in E.
  specialize (H c infinity "+" Hr
                (f_equal (fun t => fst (fst (fst t))) E)
                (f_equal (fun t => snd (fst (fst t))) E)
                (f_equal (fun t => snd (fst t)) E)).
  apply (f_equal snd) in E. cbn [snd] in E. rewrite H in E.
  discriminate E.
Qed.

(* ----------------------------------------------------------------- *)
(** ** The display *)

Lemma all_digits_no_point s : all_digits s = true -> includes s "." = false.
Proof.
  induction s as [|c s IH]; [reflexivity|].
  cbn [all_digits]. rewrite andb_true_iff. intros [Hc Hs].
  rewrite includes_char_cons, IH by assumption.
  destruct (Ascii.eqb_spec "." c) as [<-|]; [discriminate Hc|reflexivity].
Qed.

Lemma parseIntSF_digits (s : bool) c ip :
  is_digit c = true -> all_digits ip = true ->
  parseIntSF ((if s then "-" else "") ++ String c ip) =
  of_decimal s (digits_value 0 (String c ip)) 0.
Proof.
  intros Hc Hip.
  assert (Hsign : split_sign (trim_start ((if s then "-" else "") ++ String c ip))
                  = (s, String c ip)).
  { destruct s; [reflexivity|]. cbn [append].
    now destruct (digit_head c ip Hc) as (-> & -> & _). }
  unfold parseIntSF. rewrite Hsign.
  rewrite <- (append_nil_r (String c ip)) at 1.
  rewrite span_digits_app; [reflexivity| |reflexivity].
  cbn. now rewrite Hc.
Qed.

Lemma display_of_pointed s : includes s "." = true -> display_of s = s.
Proof. intros H. unfold display_of. now rewrite H. Qed.

Lemma display_of_integer s :
  includes s "." = false -> display_of s = toString (parseInt s).
Proof. intros H. unfold display_of. now rewrite H. Qed.

(** formatting the text of a Number again gives the same text, unless it
    has an exponent or is Infinity *)
Lemma display_of_toStringSF y :
  valid_binary y = true ->
  exponent_or_infinity (toStringSF y) = false ->
  display_of (toStringSF y) = toStringSF y.
Proof.
  intros Hv. destruct y as [s|s| |s m e]; cbn [toStringSF].
  - reflexivity.
  - now destruct s.
  - reflexivity.
  - pose proof (shortest_reads_back s m e Hv) as Hback.
    destruct (shortest m e) as [d X] eqn:Es. cbn [fst snd] in Hback.
    pose proof (of_decimal_finite_pos _ _ _ _ _ _ Hback) as Hd.
    destruct (render_shape d X Hd)
      as (c & ip & frac & ex & Hc & Hip & Hf & Er & Hval & _).
    unfold exponent_or_infinity. rewrite orb_false_iff. intros [He _].
    rewrite Er, !includes_char_app in He. rewrite !orb_false_iff in He.
    destruct He as (_ & _ & _ & He).
    destruct ex as [ex|]; [discriminate He|].
    destruct frac as [fp|].
    + apply display_of_pointed. rewrite Er, !includes_char_app.
      cbn [frac_suffix append]. rewrite includes_char_cons.
      cbn. now rewrite !orb_true_r.
    + cbn [frac_suffix exp_suffix] in Er. rewrite !append_nil_r in Er.
      rewrite display_of_integer.
      2:{ rewrite Er, includes_char_app, orb_false_iff.
          split; [now destruct s|].
          apply all_digits_no_point. cbn. now rewrite Hc. }
      unfold toString, parseInt. rewrite Er at 1.
      rewrite parseIntSF_digits by assumption.
      specialize (Hval s). cbn [frac_digits exp_value] in Hval.
      rewrite append_nil_r in Hval. change (length_Z "") with 0 in Hval.
      change (0 - 0) with 0 in Hval. rewrite Hval, Hback.
      rewrite Prim2SF_SF2Prim by assumption.
      cbn [toStringSF]. now rewrite Es.
Qed.

Lemma display_of_idempotent s :
  exponent_or_infinity (display_of s) = false ->
  display_of (display_of s) = display_of s.
Proof.
  unfold display_of at 1 3 4.
  destruct (includes s ".") eqn:E; cbn [negb].
  - intros _. now apply display_of_pointed.
  - apply display_of_toStringSF, Prim2SF_valid.
Qed.

Lemma updateDisplay_display c :
  textContent (updateDisplay c) = display_of (currentInput (updateDisplay c)).
Proof. reflexivity. Qed.

Lemma step_display c a :
  textContent c = display_of (currentInput c) ->
  textContent (step c a) = display_of (currentInput (step c a)).
Proof.
  intros H. destruct a; cbn [step]; try apply updateDisplay_display.
  - unfold inputDecimal. destruct (negb _); [apply updateDisplay_display|exact H].
  - unfold calculateResult.
    destruct (operator c); [|exact H].
    destruct (previousValue c); [apply updateDisplay_display|exact H].
Qed.

Lemma reachable_display c :
  reachable c -> textContent c = display_of (currentInput c).
Proof.
  induction 1 as [text|c a _ IH _]; [reflexivity|now apply step_display].
Qed.

(** X11. In every reachable state the display is [currentInput]
    formatted: without "." the text of the integer parsed from it, with
    "." [currentInput] itself.  Formatting what was formatted changes
    nothing when that text has a "." or has neither an exponent nor
    Infinity in it. *)
Theorem display_formatting :
  (forall c, reachable c -> textContent c = display_of (currentInput c)) /\
  (forall s, includes s "." = false -> display_of s = toString (parseInt s)) /\
  (forall s, includes s "." = true -> display_of s = s) /\
  (forall s, includes (display_of s) "." = true \/
             exponent_or_infinity (display_of s) = false ->
             display_of (display_of s) = display_of s).
Proof.
  split; [exact reachable_display|].
  split; [exact display_of_integer|].
  split; [exact display_of_pointed|].
  intros s [H|H]; [now apply display_of_pointed|now apply display_of_idempotent].
Qed.

Lemma display_formatting_witness :
  display_of "007" = "7" /\ display_of "3." = "3." /\
  display_of (display_of "007") = display_of "007".
Proof.
  destruct display_formatting as (_ & Hint & Hpoint & Hidem).
  split; [exact (Hint "007" eq_refl)|].
  split; [exact (Hpoint "3." eq_refl)|exact (Hidem "007" (or_intror eq_refl))].
Defined.

(** C5. Twenty-two digits typed are displayed as "1e+21", and "1e+21"
    formatted again is "1": the integer parsed from a text with an
    exponent is its leading digit. *)
Theorem display_of_exponent :
  textContent (run (digit_keys "1000000000000000000000") (constructor ""))
    = "1e+21" /\
  display_of "1000000000000000000000" = "1e+21" /\
  display_of "1e+21" = "1".
Proof. vm_compute. repeat split. Qed.

(** formatting "1e+21", the display of a 22-digit input, gives "1" *)
Lemma display_not_idempotent :
  ~ (forall s, display_of (display_of s) = display_of s).
Proof.
  intros H. specialize (H "1000000000000000000000"). vm_compute in H.
  discriminate H.
Qed.

(* ----------------------------------------------------------------- *)
(** ** Where the point falls *)

Lemma pow10_pos a : 0 <= a -> 0 < 10 ^ a.
Proof. intros. apply Z.pow_pos_nonneg; lia. Qed.

Lemma length_digits_unique a k :
  10 ^ (k - 1) <= a < 10 ^ k -> 1 <= k ->
  length_Z (decimal_digits a) = k.
Proof.
  intros Ha Hk. pose proof (pow10_pos (k - 1) ltac:(lia)).
  pose proof (decimal_digits_length a ltac:(lia)) as Hl.
  set (l := length_Z (decimal_digits a)) in *.
  assert (1 <= l).
  { destruct (decimal_digits_cons a) as (c & r & E & _); [lia|].
    subst l. rewrite E, length_Z_cons. pose proof (length_Z_nonneg r). lia. }
  assert (k - 1 < l).
  { apply (Z.pow_lt_mono_r_iff 10); lia. }
  assert (l - 1 < k).
  { apply (Z.pow_lt_mono_r_iff 10); lia. }
  lia.
Qed.

Section Position.

Variables (x : spec_float) (D E L : Z).
Hypothesis HD : 0 < D.
Hypothesis HL : L = length_Z (decimal_digits D).

(** what [shortest_from] returns puts the point where [D * 10^E] has
    it, or one place further when it returns the power of ten above *)
Lemma shortest_from_position fuel : forall k,
  1 <= k <= L -> Z.of_nat fuel = L - k ->
  let r := shortest_from fuel k x D E L in
  point_position (fst r) (snd r) = L + E \/
  (point_position (fst r) (snd r) = L + E + 1 /\
   of_decimal false 1 (L + E) = x).
Proof.
  pose proof (decimal_digits_length D HD) as HDl. rewrite <- HL in HDl.
  induction fuel as [|fuel IH]; intros k Hk Hf; cbv zeta.
  - left. cbn [shortest_from fst snd]. unfold point_position. lia.
  - cbn [shortest_from]. cbv zeta.
    set (p10 := 10 ^ (L - k)). set (lo := D / p10). set (X := E + (L - k)).
    assert (Hp : 0 < p10) by (apply pow10_pos; lia).
    assert (HLk : 10 ^ L = p10 * 10 ^ k).
    { unfold p10. rewrite <- Z.pow_add_r by lia. f_equal. lia. }
    assert (HLk' : 10 ^ (L - 1) = 10 ^ (k - 1) * p10).
    { unfold p10. rewrite <- Z.pow_add_r by lia. f_equal. lia. }
    assert (Hlo : 10 ^ (k - 1) <= lo < 10 ^ k).
    { split.
      - apply Z.div_le_lower_bound; [assumption|]. lia.
      - apply Z.div_lt_upper_bound; [assumption|]. lia. }
    assert (Plo : point_position lo X = L + E).
    { unfold point_position. rewrite (length_digits_unique lo k) by lia.
      unfold X. lia. }
    set (hi := if lo + 1 <? 10 ^ k then (lo + 1, X) else (1, X + k)).
    assert (Phi : sf_eqb (of_decimal false (fst hi) (snd hi)) x = true ->
                  point_position (fst hi) (snd hi) = L + E \/
                  (point_position (fst hi) (snd hi) = L + E + 1 /\
                   of_decimal false 1 (L + E) = x)).
    { intros Hok. unfold hi in *.
      destruct (Z.ltb_spec (lo + 1) (10 ^ k)); cbn [fst snd] in *.
      - left. unfold point_position.
        rewrite (length_digits_unique (lo + 1) k) by lia. unfold X. lia.
      - right. replace (X + k) with (L + E) in * by (unfold X; lia).
        split; [|now apply sf_eqb_eq].
        unfold point_position. rewrite decimal_digits_small by lia.
        rewrite length_Z_cons. change (length_Z "") with 0. lia. }
    destruct (sf_eqb (of_decimal false lo X) x);
      destruct (sf_eqb (of_decimal false (fst hi) (snd hi)) x); cbn [andb].
    + destruct (_ || _); [now left|now apply Phi].
    + now left.
    + now apply Phi.
    + apply IH; lia.
Qed.

End Position.

Lemma digits_below_pow D L a :
  10 ^ (L - 1) <= D < 10 ^ L -> 1 <= L -> 0 <= a ->
  (D < 10 ^ a <-> L <= a).
Proof.
  intros HD HL Ha. split; intros H.
  - assert (L - 1 < a); [|lia].
    apply (Z.pow_lt_mono_r_iff 10); lia.
  - apply Z.lt_le_trans with (10 ^ L); [lia|].
    apply Z.pow_le_mono_r; lia.
Qed.

Lemma canonical_bounds m e :
  canonical m e -> 0 < m < 2 ^ 53 /\ emin <= e /\ (emin < e -> 2 ^ 52 <= m).
Proof.
  intros (Hm & _ & Hl). split; [|split].
  - split; [assumption|]. apply Z.log2_lt_pow2; lia.
  - unfold emin in *. lia.
  - intros He. destruct Hl as [[Hl _]|[_ ->]]; [|lia].
    rewrite <- Hl. now apply Z.log2_spec.
Qed.

Section Magnitude.

Variables (p : positive) (e : Z).
Hypothesis Hc : canonical (Zpos p) e.

Let m := Zpos p.
Let D := fst (exact_decimal p e).
Let E := snd (exact_decimal p e).
Let L := length_Z (decimal_digits D).

Lemma exact_decimal_pos : 0 < D /\ 1 <= L /\ 10 ^ (L - 1) <= D < 10 ^ L.
Proof.
  assert (HD : 0 < D).
  { unfold D, exact_decimal. destruct (Z.leb_spec 0 e); cbn [fst].
    - apply Z.mul_pos_pos; [lia|apply Z.pow_pos_nonneg; lia].
    - apply Z.mul_pos_pos; [lia|apply Z.pow_pos_nonneg; lia]. }
  split; [assumption|]. split; [|now apply decimal_digits_length].
  destruct (decimal_digits_cons D) as (c & r & Er & _); [lia|].
  unfold L. rewrite Er, length_Z_cons. pose proof (length_Z_nonneg r). lia.
Qed.

(** the point falls within 21 places exactly below 1e21 *)
Lemma position_upper :
  L + E <= 21 <-> e < 17 \/ (e = 17 /\ m < mantissa_1e21).
Proof.
  destruct exact_decimal_pos as (HD & HL & HDL).
  destruct (canonical_bounds _ _ Hc) as (Hm & Hemin & Hnormal). fold m in Hm, Hnormal.
  unfold mantissa_1e21.
  assert (HE : E = if 0 <=? e then 0 else e)
    by (unfold E, exact_decimal; now destruct (0 <=? e)).
  assert (HDe : D = if 0 <=? e then m * 2 ^ e else m * 5 ^ (- e))
    by (unfold D, exact_decimal; now destruct (0 <=? e)).
  destruct (Z.leb_spec 0 e) as [He|He]; rewrite HE.
  - rewrite Z.add_0_r, <- (digits_below_pow D L 21) by lia.
    rewrite HDe. change (10 ^ 21) with (mantissa_1e21 * 2 ^ 17).
    unfold mantissa_1e21.
    destruct (Z_lt_le_dec e 17) as [H17|H17].
    + assert (2 ^ e <= 2 ^ 16) by (apply Z.pow_le_mono_r; lia).
      assert (0 < 2 ^ e) by (apply Z.pow_pos_nonneg; lia).
      change (2 ^ 16) with 65536 in *. change (2 ^ 17) with 131072.
      change (2 ^ 53) with 9007199254740992 in *. split; [lia|]. intros _. nia.
    + destruct (Z.eq_dec e 17) as [->|Hne].
      * change (2 ^ 17) with 131072. lia.
      * assert (2 ^ 18 <= 2 ^ e) by (apply Z.pow_le_mono_r; lia).
        specialize (Hnormal ltac:(unfold emin; lia)).
        change (2 ^ 18) with 262144 in *. change (2 ^ 17) with 131072.
        change (2 ^ 52) with 4503599627370496 in *. split; [nia|lia].
  - split; [lia|]. intros _.
    assert (L <= 21 - e); [|lia].
    apply (digits_below_pow D L (21 - e)); [assumption|lia|lia|].
    rewrite HDe. replace (21 - e) with (21 + - e) by lia.
    rewrite Z.pow_add_r by lia.
    assert (0 < 5 ^ (- e)) by (apply Z.pow_pos_nonneg; lia).
    assert (5 ^ (- e) <= 10 ^ (- e)) by (apply Z.pow_le_mono_l; lia).
    change (2 ^ 53) with 9007199254740992 in *.
    change (10 ^ 21) with 1000000000000000000000. nia.
Qed.

(** the point falls less than six places to the left from the float
    above 1e-6 on *)
Lemma position_lower :
  -5 <= L + E <-> -72 < e \/ (e = -72 /\ mantissa_1e_6 < m).
Proof.
  destruct exact_decimal_pos as (HD & HL & HDL).
  destruct (canonical_bounds _ _ Hc) as (Hm & Hemin & Hnormal). fold m in Hm, Hnormal.
  unfold mantissa_1e_6.
  assert (HE : E = if 0 <=? e then 0 else e)
    by (unfold E, exact_decimal; now destruct (0 <=? e)).
  assert (HDe : D = if 0 <=? e then m * 2 ^ e else m * 5 ^ (- e))
    by (unfold D, exact_decimal; now destruct (0 <=? e)).
  destruct (Z.leb_spec 0 e) as [He|He]; rewrite HE; [lia|].
  destruct (Z_le_gt_dec (-6) e) as [H6|H6]; [lia|].
  (* [e < -6]: the question is whether [m * 10^6 >= 2^(-e)] *)
  set (a := - e) in *. assert (Ha : 6 < a) by lia.
  assert (HF : 0 < 5 ^ a) by (apply Z.pow_pos_nonneg; lia).
  assert (HT : 0 < 2 ^ a) by (apply Z.pow_pos_nonneg; lia).
  assert (H10 : 10 ^ a = 10 ^ (a - 6) * 10 ^ 6).
  { rewrite <- Z.pow_add_r by lia. f_equal. lia. }
  assert (H25 : 10 ^ a = 2 ^ a * 5 ^ a).
  { change 10 with (2 * 5). now rewrite Z.pow_mul_l. }
  assert (Hpos : 0 < 10 ^ (a - 6)) by (apply Z.pow_pos_nonneg; lia).
  assert (HK : -5 <= L + e <-> 2 ^ a <= m * 10 ^ 6).
  { assert (Hiff : -5 <= L + e <-> ~ (D < 10 ^ (a - 6))).
    { rewrite (digits_below_pow D L (a - 6)) by lia. lia. }
    rewrite Hiff, HDe. change (10 ^ 6) with 1000000 in *. nia. }
  rewrite HK. change (10 ^ 6) with 1000000.
  destruct (Z_lt_le_dec (-72) e) as [H72|H72].
  - specialize (Hnormal ltac:(unfold emin; lia)).
    assert (2 ^ a <= 2 ^ 71) by (apply Z.pow_le_mono_r; lia).
    change (2 ^ 71) with 2361183241434822606848 in *.
    change (2 ^ 52) with 4503599627370496 in *. lia.
  - destruct (Z.eq_dec e (-72)) as [E72|Hne].
    + replace a with 72 by lia. change (2 ^ 72) with 4722366482869645213696. lia.
    + assert (2 ^ 73 <= 2 ^ a) by (apply Z.pow_le_mono_r; lia).
      change (2 ^ 73) with 9444732965739290427392 in *.
      change (2 ^ 53) with 9007199254740992 in *. lia.
Qed.

End Magnitude.

Lemma SFltb_positive m e m' e' :
  SFltb (S754_finite false m e) (S754_finite false m' e') = true <->
  e < e' \/ (e = e' /\ Zpos m < Zpos m').
Proof.
  unfold SFltb, SFcompare. change (Pos.compare_cont Eq m m') with (m ?= m')%positive.
  destruct (Z.compare_spec e e'); [|intuition lia|intuition (lia || discriminate)].
  destruct (Pos.compare_spec m m'); intuition (lia || discriminate).
Qed.

Lemma SFleb_positive m e m' e' :
  SFleb (S754_finite false m e) (S754_finite false m' e') = true <->
  e < e' \/ (e = e' /\ Zpos m <= Zpos m').
Proof.
  unfold SFleb, SFcompare. change (Pos.compare_cont Eq m m') with (m ?= m')%positive.
  destruct (Z.compare_spec e e'); [|intuition lia|intuition (lia || discriminate)].
  destruct (Pos.compare_spec m m'); intuition (lia || discriminate).
Qed.

Lemma shortest_position p e :
  canonical (Zpos p) e ->
  let D := fst (exact_decimal p e) in
  let E := snd (exact_decimal p e) in
  let L := length_Z (decimal_digits D) in
  point_position (fst (shortest p e)) (snd (shortest p e)) = L + E \/
  (point_position (fst (shortest p e)) (snd (shortest p e)) = L + E + 1 /\
   of_decimal false 1 (L + E) = S754_finite false p e).
Proof.
  intros Hc. destruct (exact_decimal_pos p e) as (HD & HL & _).
  cbv zeta. unfold shortest.
  destruct (exact_decimal p e) as [D E]. cbn [fst snd] in *.
  apply shortest_from_position; [assumption|reflexivity|lia|].
  rewrite Z2Nat.id; lia.
Qed.

Lemma carry_at p e nv :
  of_decimal false 1 nv = S754_finite false p e ->
  (nv = 21 -> e = 17 /\ Zpos p = mantissa_1e21) /\
  (nv = -6 -> e = -72 /\ Zpos p = mantissa_1e_6).
Proof.
  intros H. split; intros ->; vm_compute in H; injection H as <- <-;
    now split.
Qed.

Lemma plain_position_magnitude p e :
  canonical (Zpos p) e ->
  plain_position (point_position (fst (shortest p e)) (snd (shortest p e)))
  = SFleb (S754_finite false 4722366482869645 (-72)) (S754_finite false p e)
    && SFltb (S754_finite false p e) (S754_finite false 7629394531250000 17).
Proof.
  intros Hc.
  destruct (Pos.eq_dec p 4722366482869645) as [Hp|Hp];
    [destruct (Z.eq_dec e (-72)) as [He|He]|].
  { (* 1e-6 itself *) subst. vm_compute. reflexivity. }
  all: apply eq_true_iff_eq; unfold plain_position;
    rewrite !andb_true_iff, Z.ltb_lt, Z.leb_le, SFleb_positive, SFltb_positive;
    pose proof (position_upper p e Hc) as Hup;
    pose proof (position_lower p e Hc) as Hlo;
    assert (Hp' : e = -72 -> Zpos p <> mantissa_1e_6)
      by (unfold mantissa_1e_6; intros ? [= ?]; contradiction);
    destruct (shortest_position p e Hc) as [Hn|[Hn Hcarry]];
    cbv zeta in Hn; rewrite Hn;
    try (destruct (carry_at p e _ Hcarry) as [H21 H6]);
    unfold mantissa_1e21, mantissa_1e_6 in *; lia.
Qed.

(** [toString] writes [x] without exponent exactly when [x] is zero or
    [1e-6 <= |x| < 1e21] *)
Lemma plain_notation_magnitude x : plain_notation x = plain_magnitude x.
Proof.
  unfold plain_notation, plain_magnitude.
  rewrite eqb_spec, leb_spec, ltb_spec, abs_spec.
  change (Prim2SF 0) with (S754_zero false).
  change (Prim2SF (parseFloat "0.000001"))
    with (S754_finite false 4722366482869645 (-72)).
  change (Prim2SF (parseFloat "1e21"))
    with (S754_finite false 7629394531250000 17).
  pose proof (Prim2SF_valid x) as Hv.
  destruct (Prim2SF x) as [s|s| |s m e]; cbn [SFabs].
  - reflexivity.
  - now destruct s.
  - reflexivity.
  - apply valid_canonical in Hv.
    pose proof (plain_position_magnitude m e Hv) as H.
    destruct (shortest m e) as [d X]. cbn [fst snd] in H. rewrite H.
    now destruct s.
Qed.

(* ----------------------------------------------------------------- *)
(** ** The text in [currentInput] *)

Lemma digit_not_minus c : is_digit c = true -> Ascii.eqb c "-" = false.
Proof.
  intros H. destruct (Ascii.eqb_spec c "-") as [->|]; [discriminate H|reflexivity].
Qed.

Lemma well_signed_literal (s : bool) c r :
  is_digit c = true -> well_signed ((if s then "-" else "") ++ String c r) = true.
Proof.
  intros Hc. destruct s; cbn; now rewrite digit_not_minus.
Qed.

Lemma well_signed_app s t : well_signed s = true -> well_signed (s ++ t) = true.
Proof.
  destruct s as [|c [|c' s]]; cbn; try easy.
  now destruct (Ascii.eqb c "-").
Qed.

Lemma well_signed_not_empty s : well_signed s = true -> s <> "".
Proof. now destruct s. Qed.

Lemma toString_well_signed x : well_signed (toString x) = true.
Proof.
  unfold toString. pose proof (Prim2SF_valid x) as Hv.
  destruct (Prim2SF x) as [s|s| |s m e]; cbn [toStringSF].
  - reflexivity.
  - now destruct s.
  - reflexivity.
  - pose proof (shortest_reads_back s m e Hv) as Hback.
    destruct (shortest m e) as [d X]. cbn [fst snd] in Hback.
    pose proof (of_decimal_finite_pos _ _ _ _ _ _ Hback) as Hd.
    destruct (render_shape d X Hd) as (c & ip & frac & ex & Hc & _ & _ & -> & _).
    now apply well_signed_literal.
Qed.

Lemma digit_key_char d :
  digit_key d = true -> exists ch, d = String ch "" /\ is_digit ch = true.
Proof. destruct d as [|ch [|]]; try discriminate. eauto. Qed.

Lemma step_well_signed c a :
  key a = true -> well_signed (currentInput c) = true ->
  well_signed (currentInput (step c a)) = true.
Proof.
  intros Hk H. destruct a; cbn [step key] in *.
  - destruct (digit_key_char _ Hk) as (ch & -> & Hch).
    unfold inputDigit. destruct (String.eqb _ _); cbn.
    + now rewrite digit_not_minus.
    + now apply well_signed_app.
  - unfold inputDecimal. destruct (negb _); [|exact H].
    now apply well_signed_app.
  - unfold toggleSign. destruct (currentInput c) as [|ch r] eqn:E;
      [discriminate H|].
    rewrite startsWith_minus. cbn [well_signed] in H.
    destruct (Ascii.eqb ch "-") eqn:Ech.
    + cbn. destruct r as [|ch' r']; [discriminate H|]. cbn.
      now destruct (Ascii.eqb ch' "-").
    + destruct (negb _); cbn; rewrite ?E; cbn; now rewrite Ech.
  - reflexivity.
  - reflexivity.
  - reflexivity.
  - unfold calculateResult. destruct (operator c); [|exact H].
    destruct (previousValue c); [|exact H]. apply toString_well_signed.
  - apply toString_well_signed.
Qed.

Lemma reachable_well_signed c :
  reachable c -> well_signed (currentInput c) = true.
Proof.
  induction 1 as [text|c a _ IH Hk]; [reflexivity|now apply step_well_signed].
Qed.

Lemma span_digits_spec u :
  u = fst (span_digits u) ++ snd (span_digits u) /\
  all_digits (fst (span_digits u)) = true /\
  no_digit_head (snd (span_digits u)) = true.
Proof.
  induction u as [|c u IH]; [easy|]. cbn [span_digits].
  destruct (is_digit c) eqn:Hc.
  - destruct (span_digits u) as [ds rest]. cbn [fst snd] in *.
    destruct IH as (E & Hds & Hrest). cbn. rewrite <- E, Hc. easy.
  - cbn. now rewrite Hc.
Qed.

Lemma unsigned_operand_shape u :
  unsigned_operand u = true ->
  exists c ip frac,
    is_digit c = true /\ all_digits ip = true /\
    all_digits (frac_digits frac) = true /\
    u = String c ip ++ frac_suffix frac.
Proof.
  unfold unsigned_operand. destruct (span_digits_spec u) as (E & Hds & _).
  destruct (span_digits u) as [ds rest]. cbn [fst snd] in *.
  destruct ds as [|c ip]; [discriminate|].
  cbn [all_digits] in Hds. apply andb_true_iff in Hds as [Hc Hip].
  destruct rest as [|c' fp].
  - intros _. exists c, ip, None. now rewrite E.
  - rewrite andb_true_iff. intros [Hp Hfp]. apply Ascii.eqb_eq in Hp. subst c'.
    exists c, ip, (Some fp). now rewrite E.
Qed.

Lemma unsigned_operand_literal c ip frac ex :
  is_digit c = true -> all_digits ip = true ->
  all_digits (frac_digits frac) = true ->
  unsigned_operand (String c ip ++ frac_suffix frac ++ exp_suffix ex) =
  match ex with None => true | Some _ => false end.
Proof.
  intros Hc Hip Hf. unfold unsigned_operand.
  rewrite span_digits_app.
  2:{ cbn. now rewrite Hc. }
  2:{ destruct frac; [reflexivity|apply no_digit_head_exp]. }
  destruct frac as [fp|]; cbn [frac_suffix frac_digits append] in *.
  - cbn [Ascii.eqb Bool.eqb andb]. rewrite all_digits_app, Hf.
    now destruct ex.
  - now destruct ex.
Qed.

Lemma grammar_literal (s : bool) c ip frac ex :
  is_digit c = true -> all_digits ip = true ->
  all_digits (frac_digits frac) = true ->
  operand_grammar ((if s then "-" else "") ++
                   String c ip ++ frac_suffix frac ++ exp_suffix ex) =
  match ex with None => true | Some _ => false end.
Proof.
  intros Hc Hip Hf. destruct s.
  - now apply unsigned_operand_literal.
  - cbn [append operand_grammar]. rewrite digit_not_minus by assumption.
    now apply (unsigned_operand_literal c ip frac ex).
Qed.

Lemma grammar_shape s :
  operand_grammar s = true ->
  exists (sg : bool) c ip frac,
    is_digit c = true /\ all_digits ip = true /\
    all_digits (frac_digits frac) = true /\
    s = (if sg then "-" else "") ++ String c ip ++ frac_suffix frac.
Proof.
  destruct s as [|ch r]; [discriminate|]. cbn [operand_grammar].
  destruct (Ascii.eqb_spec ch "-") as [->|Hch]; intros H;
    destruct (unsigned_operand_shape _ H) as (c & ip & frac & Hc & Hip & Hf & E).
  - exists true, c, ip, frac. now rewrite E.
  - exists false, c, ip, frac. now rewrite E.
Qed.

Lemma grammar_plain (sg : bool) c ip frac :
  is_digit c = true -> all_digits ip = true ->
  all_digits (frac_digits frac) = true ->
  operand_grammar ((if sg then "-" else "") ++ String c ip ++ frac_suffix frac)
  = true.
Proof.
  intros Hc Hip Hf.
  rewrite <- (append_nil_r (frac_suffix frac)).
  now apply (grammar_literal sg c ip frac None).
Qed.

(** the text of a Number is in the grammar exactly when it is written
    in plain notation *)
Lemma grammar_toString x : operand_grammar (toString x) = plain_notation x.
Proof.
  unfold toString, plain_notation. pose proof (Prim2SF_valid x) as Hv.
  destruct (Prim2SF x) as [s|s| |s m e]; cbn [toStringSF].
  - reflexivity.
  - now destruct s.
  - reflexivity.
  - pose proof (shortest_reads_back s m e Hv) as Hback.
    destruct (shortest m e) as [d X]. cbn [fst snd] in Hback.
    pose proof (of_decimal_finite_pos _ _ _ _ _ _ Hback) as Hd.
    destruct (render_shape d X Hd)
      as (c & ip & frac & ex & Hc & Hip & Hf & -> & _ & Hex).
    rewrite grammar_literal by assumption.
    destruct ex as [ex|].
    + destruct (plain_position _); [|reflexivity].
      now destruct Hex as [_ Hex]; specialize (Hex eq_refl).
    + symmetry. now apply Hex.
Qed.

Lemma grammar_digit s ch :
  operand_grammar s = true -> is_digit ch = true ->
  operand_grammar (s ++ String ch "") = true.
Proof.
  intros H Hch.
  destruct (grammar_shape s H) as (sg & c & ip & frac & Hc & Hip & Hf & ->).
  rewrite !append_assoc. destruct frac as [fp|]; cbn [frac_suffix].
  - rewrite append_assoc.
    apply (grammar_plain sg c ip (Some (fp ++ String ch ""))); try assumption.
    cbn [frac_digits] in *. rewrite all_digits_app, Hf. cbn. now rewrite Hch.
  - change (String c ip ++ "" ++ String ch "")
      with (String c ip ++ String ch "").
    change (String c ip ++ String ch "") with (String c (ip ++ String ch "")).
    rewrite <- (append_nil_r (String c (ip ++ String ch ""))).
    apply (grammar_plain sg c (ip ++ String ch "") None); try easy.
    rewrite all_digits_app, Hip. cbn. now rewrite Hch.
Qed.

Lemma grammar_point s :
  operand_grammar s = true -> includes s "." = false ->
  operand_grammar (s ++ ".") = true.
Proof.
  intros H Hp.
  destruct (grammar_shape s H) as (sg & c & ip & frac & Hc & Hip & Hf & ->).
  destruct frac as [fp|].
  - rewrite !includes_char_app in Hp. cbn [frac_suffix append] in Hp.
    rewrite includes_char_cons in Hp. cbn in Hp.
    now rewrite !orb_true_r in Hp.
  - cbn [frac_suffix]. rewrite append_nil_r, append_assoc.
    now apply (grammar_plain sg c ip (Some "")).
Qed.

Lemma grammar_toggle s :
  operand_grammar s = true ->
  operand_grammar (if startsWith s "-" then substring1 s else "-" ++ s) = true.
Proof.
  intros H.
  destruct (grammar_shape s H) as (sg & c & ip & frac & Hc & Hip & Hf & ->).
  destruct sg; cbn [append].
  - rewrite startsWith_minus. cbn [Ascii.eqb Bool.eqb substring1].
    now apply (grammar_plain false c ip frac).
  - rewrite startsWith_minus, digit_not_minus by assumption.
    now apply (grammar_plain true c ip frac).
Qed.

Lemma step_grammar c a :
  key a = true -> stores_plain c a = true ->
  operand_grammar (currentInput c) = true ->
  operand_grammar (currentInput (step c a)) = true.
Proof.
  intros Hk Hst H. unfold stores_plain in Hst.
  destruct a; cbn [step key] in *.
  - destruct (digit_key_char _ Hk) as (ch & -> & Hch).
    unfold inputDigit. destruct (String.eqb _ _); cbn.
    + rewrite digit_not_minus by assumption.
      apply (unsigned_operand_literal ch "" None None); easy.
    + now apply grammar_digit.
  - unfold inputDecimal. destruct (includes _ _) eqn:E; [exact H|].
    now apply grammar_point.
  - unfold toggleSign. pose proof (grammar_toggle _ H) as Ht.
    destruct (startsWith _ _); [exact Ht|]. now destruct (negb _).
  - reflexivity.
  - reflexivity.
  - reflexivity.
  - unfold calculateResult. cbn [stores] in Hst.
    destruct (operator c); [|exact H].
    destruct (previousValue c); [|exact H]. cbn.
    now rewrite grammar_toString, plain_notation_magnitude.
  - cbn. now rewrite grammar_toString, plain_notation_magnitude.
Qed.

Lemma reachable_plain_grammar c :
  reachable_plain c -> operand_grammar (currentInput c) = true.
Proof.
  induction 1 as [text|c a _ IH Hk Hst]; [reflexivity|now apply step_grammar].
Qed.

(** X10. [currentInput] is never empty.  It is in the operand grammar
    as long as every Number that [calculateResult] or
    [calculatePercentage] stores is zero or has a magnitude from 1e-6 up
    to, and not reaching, 1e21; the text of any other Number is outside
    the grammar. *)
Theorem currentInput_text :
  (forall c, reachable c -> currentInput c <> "") /\
  (forall c, reachable_plain c -> operand_grammar (currentInput c) = true) /\
  (forall x, operand_grammar (toString x) = plain_magnitude x).
Proof.
  split; [|split].
  - intros c Hc. now apply well_signed_not_empty, reachable_well_signed.
  - exact reachable_plain_grammar.
  - intros x. now rewrite grammar_toString, plain_notation_magnitude.
Qed.

Lemma currentInput_text_witness :
  currentInput (run [InputDigit "5"; InputDigit "0"; CalculatePercentage]
                    (constructor "")) <> "" /\
  operand_grammar
    (currentInput (run [InputDigit "5"; InputDigit "0"; CalculatePercentage]
                       (constructor ""))) = true.
Proof.
  destruct currentInput_text as (Hne & Hg & _). cbn [run fold_left]. split.
  - apply Hne. reach.
  - apply Hg.
    repeat (apply plain_step; [|reflexivity|vm_compute; reflexivity]).
    apply plain_init.
Defined.

(** C3. One, then percent four times: [currentInput] is "1e-8", outside
    the grammar of an operand, and displayed as "1"; a digit typed next
    goes behind the exponent. *)
Theorem percent_stores_exponent :
  let c := run [InputDigit "1"; CalculatePercentage; CalculatePercentage;
                CalculatePercentage; CalculatePercentage] (constructor "") in
  currentInput c = "1e-8" /\
  operand_grammar (currentInput c) = false /\
  textContent c = "1" /\
  currentInput (inputDigit "5" c) = "1e-85".
Proof. vm_compute. repeat split. Qed.

(** four times percent on "1" leaves "1e-8" *)
Lemma currentInput_outside_grammar :
  ~ (forall c, reachable c -> operand_grammar (currentInput c) = true).
Proof.
  intros H.
  specialize (H (run [InputDigit "1"; CalculatePercentage; CalculatePercentage;
                      CalculatePercentage; CalculatePercentage]
                     (constructor ""))).
  assert (Hr : reachable
    (run [InputDigit "1"; CalculatePercentage; CalculatePercentage;
          CalculatePercentage; CalculatePercentage] (constructor ""))).
  { reach. }
  specialize (H Hr). vm_compute in H. discriminate H.
Qed.

(* ----------------------------------------------------------------- *)
(** ** The decimal point *)

Lemma all_digits_count_point s :
  all_digits s = true -> count_char "." s = 0%nat.
Proof.
  intros H. apply all_digits_no_point in H.
  rewrite includes_char_count in H.
  now destruct (count_char "." s).
Qed.

Lemma count_point_exp ex : count_char "." (exp_suffix ex) = 0%nat.
Proof.
  destruct ex as [e|]; [|reflexivity]. unfold exp_suffix.
  rewrite !count_char_app.
  rewrite (all_digits_count_point (decimal_digits (Z.abs e)))
    by (apply decimal_digits_all; lia).
  now destruct (e <? 0).
Qed.

Lemma count_point_toString x : (count_char "." (toString x) <= 1)%nat.
Proof.
  unfold toString. pose proof (Prim2SF_valid x) as Hv.
  destruct (Prim2SF x) as [s|s| |s m e]; cbn [toStringSF].
  - cbn. lia.
  - destruct s; cbn; lia.
  - cbn. lia.
  - pose proof (shortest_reads_back s m e Hv) as Hback.
    destruct (shortest m e) as [d X]. cbn [fst snd] in Hback.
    pose proof (of_decimal_finite_pos _ _ _ _ _ _ Hback) as Hd.
    destruct (render_shape d X Hd)
      as (c & ip & frac & ex & Hc & Hip & Hf & -> & _).
    rewrite !count_char_app, count_point_exp.
    rewrite (all_digits_count_point (String c ip))
      by (cbn; now rewrite Hc).
    destruct frac as [fp|]; cbn [frac_suffix frac_digits] in *.
    + cbn [append count_char]. rewrite (all_digits_count_point fp Hf).
      destruct s; cbn; lia.
    + destruct s; cbn; lia.
Qed.

Lemma step_one_point c a :
  key a = true ->
  (count_char "." (currentInput c) <= 1)%nat ->
  (count_char "." (currentInput (step c a)) <= 1)%nat.
Proof.
  intros Hk H. destruct a; cbn [step key] in *.
  - destruct (digit_key_char _ Hk) as (ch & -> & Hch).
    assert (count_char "." (String ch "") = 0%nat)
      by (apply all_digits_count_point; cbn; now rewrite Hch).
    unfold inputDigit. destruct (String.eqb _ _); cbn [currentInput
      updateDisplay set_textContent set_currentInput].
    + lia.
    + rewrite count_char_app. lia.
  - unfold inputDecimal. destruct (includes _ _) eqn:E; [exact H|].
    cbn. rewrite count_char_app. rewrite includes_char_count in E.
    destruct (count_char "." (currentInput c)); [cbn; lia|discriminate].
  - unfold toggleSign. destruct (currentInput c) as [|ch r] eqn:E.
    + cbn. lia.
    + rewrite startsWith_minus. destruct (Ascii.eqb_spec ch "-") as [->|].
      * cbn in *. exact H.
      * destruct (negb _); cbn; rewrite ?E; cbn in *; exact H.
  - cbn. lia.
  - cbn. lia.
  - cbn. lia.
  - unfold calculateResult. destruct (operator c); [|exact H].
    destruct (previousValue c); [|exact H]. apply count_point_toString.
  - apply count_point_toString.
Qed.

Lemma reachable_one_point c :
  reachable c -> (count_char "." (currentInput c) <= 1)%nat.
Proof.
  induction 1 as [text|c a _ IH Hk]; [cbn; lia|now apply step_one_point].
Qed.

Lemma inputDecimal_twice c : inputDecimal (inputDecimal c) = inputDecimal c.
Proof.
  unfold inputDecimal at 1.
  destruct (includes (currentInput (inputDecimal c)) ".") eqn:E;
    [reflexivity|].
  exfalso. revert E. unfold inputDecimal.
  destruct (includes (currentInput c) ".") eqn:E'; cbn.
  - congruence.
  - rewrite includes_char_app. cbn. rewrite orb_true_r. discriminate.
Qed.

Lemma inputDecimal_includes c :
  includes (currentInput (inputDecimal c)) "." = true.
Proof.
  unfold inputDecimal.
  destruct (includes (currentInput c) ".") eqn:E; cbn; [exact E|].
  rewrite includes_char_app. cbn. now rewrite orb_true_r.
Qed.

(** C7. [inputDecimal] appends one "." to a [currentInput] that has
    none, and changes nothing when it has one; so a second call right
    after a first changes nothing, and after two calls in a row
    [currentInput] has exactly one ".". *)
Theorem inputDecimal_once c :
  (includes (currentInput c) "." = false ->
   currentInput (inputDecimal c) = currentInput c ++ ".") /\
  (includes (currentInput c) "." = true -> inputDecimal c = c) /\
  inputDecimal (inputDecimal c) = inputDecimal c /\
  (reachable c ->
   count_char "." (currentInput (inputDecimal (inputDecimal c))) = 1%nat).
Proof.
  split; [|split; [|split]].
  - intros H. unfold inputDecimal. now rewrite H.
  - intros H. unfold inputDecimal. now rewrite H.
  - apply inputDecimal_twice.
  - intros Hr. rewrite inputDecimal_twice.
    pose proof (reachable_one_point _ (reach_step c InputDecimal Hr eq_refl))
      as Hle.
    pose proof (inputDecimal_includes c) as Hin.
    rewrite includes_char_count in Hin. cbn [step] in Hle.
    destruct (count_char "." (currentInput (inputDecimal c))) as [|[|n]];
      [discriminate Hin|reflexivity|lia].
Qed.

Lemma inputDecimal_once_witness :
  currentInput (inputDecimal (constructor "")) = "0." /\
  count_char "."
    (currentInput (inputDecimal (inputDecimal (constructor "")))) = 1%nat.
Proof.
  destruct (inputDecimal_once (constructor "")) as (Happ & _ & _ & Hone).
  split; [exact (Happ eq_refl)|]. apply Hone. reach.
Defined.

(* ----------------------------------------------------------------- *)
(** ** The text of an integer *)

Lemma sf_eqb_refl x : sf_eqb x x = true.
Proof.
  destruct x as [s|s| |s m e]; cbn; rewrite ?eqb_reflx, ?Pos.eqb_refl,
    ?Z.eqb_refl; reflexivity.
Qed.

Lemma canonical_valid s m e :
  canonical m e -> valid_binary (S754_finite s (Z.to_pos m) e) = true.
Proof.
  intros (Hm & He & Hl). cbn [SpecFloat.valid_binary].
  unfold bounded, canonical_mantissa, fexp.
  rewrite andb_true_iff, Z.eqb_eq, Z.leb_le, digits2_log2.
  rewrite Z2Pos.id by assumption.
  change (SpecFloat.emin prec emax) with emin.
  change (emax - prec) with emax_finite. change prec with 53.
  unfold emin, emax_finite in *. lia.
Qed.

Lemma log2_below_53 M : 0 < M < 2 ^ 53 -> 0 <= Z.log2 M <= 52.
Proof.
  intros [H0 H]. split; [apply Z.log2_nonneg|].
  apply Z.log2_lt_pow2 in H; lia.
Qed.

Lemma int_float_canonical M :
  0 < M < 2 ^ 53 -> canonical (M * 2 ^ (52 - Z.log2 M)) (Z.log2 M - 52).
Proof.
  intros HM. pose proof (log2_below_53 M HM) as Hl.
  assert (0 < 2 ^ (52 - Z.log2 M)) by (apply Z.pow_pos_nonneg; lia).
  unfold canonical, emin, emax_finite. split; [nia|]. split; [lia|]. left.
  rewrite Z.log2_mul_pow2 by lia. lia.
Qed.

Lemma of_decimal_integer S X :
  0 < S -> 0 <= X -> S * 10 ^ X < 2 ^ 53 ->
  of_decimal false S X = int_float (S * 10 ^ X).
Proof.
  intros HS HX HM. unfold of_decimal.
  destruct (Z.leb_spec S 0); [lia|]. destruct (Z.leb_spec 0 X); [|lia].
  assert (0 < 10 ^ X) by (apply Z.pow_pos_nonneg; lia).
  set (M := S * 10 ^ X) in *. assert (HM0 : 0 < M < 2 ^ 53) by nia.
  pose proof (log2_below_53 M HM0) as Hl.
  apply round_pos_exact; [lia|now apply int_float_canonical|].
  unfold scaled_num, scaled_den.
  destruct (Z.leb_spec 0 (Z.log2 M - 52)).
  - replace (Z.log2 M) with 52 by lia. cbn. lia.
  - replace (- (Z.log2 M - 52)) with (52 - Z.log2 M) by lia. lia.
Qed.

Lemma int_float_inj M M' :
  0 < M < 2 ^ 53 -> 0 < M' < 2 ^ 53 -> int_float M = int_float M' -> M = M'.
Proof.
  intros HM HM' E. unfold int_float in E.
  assert (Ee : Z.log2 M - 52 = Z.log2 M' - 52) by congruence.
  assert (El : Z.log2 M = Z.log2 M') by lia. rewrite <- El in E.
  assert (Em : Z.to_pos (M * 2 ^ (52 - Z.log2 M)) =
               Z.to_pos (M' * 2 ^ (52 - Z.log2 M))) by congruence.
  pose proof (log2_below_53 M HM) as Hl.
  assert (Hp : 0 < 2 ^ (52 - Z.log2 M)) by (apply Z.pow_pos_nonneg; lia).
  apply Z2Pos.inj in Em.
  - apply Z.mul_reg_r in Em; lia.
  - apply Z.mul_pos_pos; lia.
  - apply Z.mul_pos_pos; lia.
Qed.

Lemma zeros_snoc j : zeros j ++ "0" = zeros (S j).
Proof. induction j as [|j IH]; [reflexivity|]. cbn. now rewrite IH. Qed.

Lemma decimal_digits_scaled a j :
  0 < a ->
  decimal_digits (a * 10 ^ Z.of_nat j) = decimal_digits a ++ zeros j.
Proof.
  intros Ha. induction j as [|j IH].
  - cbn [Z.of_nat zeros]. now rewrite Z.pow_0_r, Z.mul_1_r, append_nil_r.
  - rewrite Nat2Z.inj_succ, Z.pow_succ_r by lia.
    assert (0 < 10 ^ Z.of_nat j) by (apply Z.pow_pos_nonneg; lia).
    replace (a * (10 * 10 ^ Z.of_nat j)) with (a * 10 ^ Z.of_nat j * 10) by ring.
    rewrite decimal_digits_step by nia.
    rewrite Z.div_mul, Z.mod_mul, IH by lia.
    change (String (digit_char 0) "") with "0".
    now rewrite append_assoc, zeros_snoc.
Qed.

Lemma length_decimal_scaled a j :
  0 < a -> 0 <= j ->
  length_Z (decimal_digits (a * 10 ^ j)) = length_Z (decimal_digits a) + j.
Proof.
  intros Ha Hj. rewrite <- (Z2Nat.id j) at 1 by assumption.
  rewrite decimal_digits_scaled, length_Z_app, length_Z_zeros by assumption.
  now rewrite Z2Nat.id.
Qed.

Lemma integer_bounds N n :
  0 < N -> n = length_Z (decimal_digits N) -> n <= 15 ->
  1 <= n /\ 10 ^ (n - 1) <= N < 10 ^ n /\ 10 ^ n < 2 ^ 53.
Proof.
  intros HN Hn Hn15.
  pose proof (decimal_digits_length N HN) as Hlen. rewrite <- Hn in Hlen.
  assert (1 <= n).
  { destruct (decimal_digits_cons N) as (c & r & E & _); [lia|].
    rewrite Hn, E, length_Z_cons. pose proof (length_Z_nonneg r). lia. }
  split; [assumption|]. split; [assumption|].
  apply Z.le_lt_trans with (10 ^ 15); [|reflexivity].
  apply Z.pow_le_mono_r; lia.
Qed.

Section IntegerSearch.

(** [N] has [n] digits, at most 15; its float has the exact decimal
    [N * 10^j] with exponent [-j] *)
Variables N n j : Z.
Hypothesis HN : 0 < N.
Hypothesis Hn : n = length_Z (decimal_digits N).
Hypothesis Hn15 : n <= 15.
Hypothesis Hj : 0 <= j.

Let D := N * 10 ^ j.
Let L := n + j.

Lemma integer_search fuel : forall k,
  1 <= k <= n -> Z.of_nat fuel = L - k ->
  0 < fst (shortest_from fuel k (int_float N) D (- j) L) /\
  0 <= snd (shortest_from fuel k (int_float N) D (- j) L) /\
  fst (shortest_from fuel k (int_float N) D (- j) L) *
    10 ^ snd (shortest_from fuel k (int_float N) D (- j) L) = N.
Proof.
  destruct (integer_bounds N n HN Hn Hn15) as (Hn1 & HNn & Hn53).
  induction fuel as [|fuel IH]; intros k Hk Hf.
  - cbn [shortest_from fst snd]. unfold D, L in *.
    assert (j = 0) by lia. subst j. cbn. lia.
  - cbn [shortest_from]. cbv zeta.
    set (X := - j + (L - k)). assert (HX : X = n - k) by (unfold X, L; lia).
    assert (Hp : 0 < 10 ^ X) by (apply Z.pow_pos_nonneg; lia).
    assert (Hlo : D / 10 ^ (L - k) = N / 10 ^ X).
    { unfold D. replace (L - k) with (X + j) by lia.
      rewrite Z.pow_add_r by lia.
      apply Z.div_mul_cancel_r; [lia|].
      assert (0 < 10 ^ j) by (apply Z.pow_pos_nonneg; lia). lia. }
    rewrite Hlo. set (lo := N / 10 ^ X).
    assert (Hlo1 : 1 <= lo).
    { apply Z.div_le_lower_bound; [lia|].
      apply Z.le_trans with (10 ^ (n - 1)); [|lia].
      rewrite Z.mul_1_r. apply Z.pow_le_mono_r; lia. }
    assert (Hdm : lo * 10 ^ X <= N < (lo + 1) * 10 ^ X).
    { pose proof (Z.div_mod N (10 ^ X) ltac:(lia)).
      pose proof (Z.mod_pos_bound N (10 ^ X) Hp). unfold lo. nia. }
    assert (Elo : of_decimal false lo X = int_float (lo * 10 ^ X))
      by (apply of_decimal_integer; lia).
    rewrite Elo.
    set (hi := if lo + 1 <? 10 ^ k then (lo + 1, X) else (1, X + k)).
    assert (Hhi : sf_eqb (of_decimal false (fst hi) (snd hi)) (int_float N)
                  = false).
    { destruct (sf_eqb _ _) eqn:Ehi; [|reflexivity]. exfalso.
      apply sf_eqb_eq in Ehi. unfold hi in Ehi.
      assert (Hnk : 10 ^ n = 10 ^ k * 10 ^ X).
      { rewrite <- Z.pow_add_r by lia. f_equal. lia. }
      destruct (Z.ltb_spec (lo + 1) (10 ^ k)) as [Hc|Hc]; cbn [fst snd] in Ehi.
      - rewrite of_decimal_integer in Ehi by nia.
        apply int_float_inj in Ehi; nia.
      - assert (E10 : 1 * 10 ^ (X + k) = 10 ^ n) by (rewrite Z.mul_1_l; f_equal; lia).
        rewrite of_decimal_integer in Ehi by lia.
        rewrite E10 in Ehi. apply int_float_inj in Ehi; lia. }
    rewrite Hhi, andb_false_r.
    destruct (sf_eqb (int_float (lo * 10 ^ X)) (int_float N)) eqn:Eok.
    + cbn [fst snd]. apply sf_eqb_eq, int_float_inj in Eok; lia.
    + apply IH; [|lia].
      destruct (Z.eq_dec k n) as [->|]; [|lia]. exfalso.
      unfold lo in Eok.
      rewrite HX, Z.sub_diag, Z.pow_0_r, Z.div_1_r, Z.mul_1_r in Eok.
      now rewrite sf_eqb_refl in Eok.
Qed.

End IntegerSearch.

Lemma shortest_integer N :
  0 < N -> length_Z (decimal_digits N) <= 15 ->
  let r := shortest (Z.to_pos (N * 2 ^ (52 - Z.log2 N))) (Z.log2 N - 52) in
  0 < fst r /\ 0 <= snd r /\ fst r * 10 ^ snd r = N.
Proof.
  intros HN Hlen.
  destruct (integer_bounds N _ HN eq_refl Hlen) as (Hn1 & HNn & Hn53).
  assert (HN53 : 0 < N < 2 ^ 53) by lia.
  pose proof (log2_below_53 N HN53) as Hl.
  set (j := 52 - Z.log2 N). assert (Hj : 0 <= j) by lia.
  assert (Hp : 0 < 2 ^ j) by (apply Z.pow_pos_nonneg; lia).
  assert (Hexact : exact_decimal (Z.to_pos (N * 2 ^ j)) (Z.log2 N - 52)
                   = (N * 10 ^ j, - j)).
  { unfold exact_decimal. rewrite Z2Pos.id by nia.
    destruct (Z.leb_spec 0 (Z.log2 N - 52)).
    - assert (j = 0) by lia. replace (Z.log2 N - 52) with 0 by lia.
      rewrite H0. cbn. f_equal. lia.
    - replace (- (Z.log2 N - 52)) with j by lia.
      replace (Z.log2 N - 52) with (- j) by lia.
      f_equal. change 10 with (2 * 5). rewrite Z.pow_mul_l. ring. }
  cbv zeta. unfold shortest. rewrite Hexact.
  rewrite length_decimal_scaled by assumption.
  change (S754_finite false (Z.to_pos (N * 2 ^ j)) (Z.log2 N - 52))
    with (int_float N).
  apply (integer_search N _ j HN eq_refl Hlen Hj); [lia|].
  rewrite Z2Nat.id; lia.
Qed.

(** the text of an integer of at most 15 digits is its digits *)
Lemma toStringSF_integer N :
  0 < N -> length_Z (decimal_digits N) <= 15 ->
  toStringSF (int_float N) = decimal_digits N.
Proof.
  intros HN Hlen. unfold int_float. cbn [toStringSF].
  pose proof (shortest_integer N HN Hlen) as Hs. cbv zeta in Hs.
  destruct (shortest _ _) as [d X]. cbn [fst snd] in Hs.
  destruct Hs as (Hd & HX & E). cbn [append].
  unfold render.
  pose proof (length_decimal_scaled d X Hd HX) as Hl. rewrite E in Hl.
  set (k := length_Z (decimal_digits d)) in *.
  destruct (Z.leb_spec k (k + X)); [|lia].
  destruct (Z.leb_spec (k + X) 21); [|lia]. cbn [andb].
  replace (k + X - k) with X by lia.
  rewrite <- decimal_digits_scaled, Z2Nat.id by assumption. now rewrite E.
Qed.

Lemma digit_val_range c : is_digit c = true -> 0 <= digit_val c < 10.
Proof.
  unfold is_digit, digit_val. rewrite andb_true_iff, !Nat.leb_le. lia.
Qed.

Lemma digit_char_val c : is_digit c = true -> digit_char (digit_val c) = c.
Proof.
  intros H. pose proof (digit_val_range c H) as Hr.
  unfold digit_char, digit_val in *.
  replace (Z.to_nat (Z.of_nat (nat_of_ascii c) - 48 + 48))
    with (nat_of_ascii c) by lia.
  apply ascii_nat_embedding.
Qed.

Lemma decimal_digits_of_value ds : forall acc,
  0 < acc -> all_digits ds = true ->
  decimal_digits (digits_value acc ds) = decimal_digits acc ++ ds.
Proof.
  induction ds as [|c ds IH]; intros acc Hacc Hds; cbn [digits_value].
  - now rewrite append_nil_r.
  - cbn [all_digits] in Hds. apply andb_true_iff in Hds as [Hc Hds].
    pose proof (digit_val_range c Hc) as Hr.
    rewrite IH by (assumption || lia).
    rewrite decimal_digits_step by lia.
    replace ((10 * acc + digit_val c) / 10) with acc
      by (apply Z.div_unique with (digit_val c); lia).
    replace ((10 * acc + digit_val c) mod 10) with (digit_val c)
      by (apply Z.mod_unique with acc; lia).
    rewrite digit_char_val by assumption. now rewrite append_assoc.
Qed.

Lemma digits_value_pos ds : forall acc,
  0 < acc -> all_digits ds = true -> 0 < digits_value acc ds.
Proof.
  induction ds as [|c ds IH]; intros acc Hacc Hds; cbn [digits_value].
  - assumption.
  - cbn [all_digits] in Hds. apply andb_true_iff in Hds as [Hc Hds].
    pose proof (digit_val_range c Hc). apply IH; [lia|assumption].
Qed.

(** digits that begin with no zero are the decimal digits of their value *)
Lemma decimal_digits_value d ds :
  is_digit d = true -> d <> "0"%char -> all_digits ds = true ->
  0 < digits_value 0 (String d ds) /\
  decimal_digits (digits_value 0 (String d ds)) = String d ds.
Proof.
  intros Hd Hd0 Hds. pose proof (digit_val_range d Hd) as Hr.
  assert (Hpos : 0 < digit_val d).
  { destruct (Z.eq_dec (digit_val d) 0) as [E|]; [|lia].
    exfalso. apply Hd0. rewrite <- (digit_char_val d Hd), E. reflexivity. }
  cbn [digits_value]. rewrite Z.mul_0_r, Z.add_0_l.
  split; [now apply digits_value_pos|].
  rewrite decimal_digits_of_value by assumption.
  rewrite decimal_digits_small by lia. now rewrite digit_char_val.
Qed.

(** up to 15 digits are displayed as they were typed *)
Lemma toString_parseInt_digits d ds :
  is_digit d = true -> d <> "0"%char -> all_digits ds = true ->
  length_Z (String d ds) <= 15 ->
  toString (parseInt (String d ds)) = String d ds.
Proof.
  intros Hd Hd0 Hds Hlen.
  destruct (decimal_digits_value d ds Hd Hd0 Hds) as [HN EN].
  set (N := digits_value 0 (String d ds)) in *.
  assert (Hlen' : length_Z (decimal_digits N) <= 15) by now rewrite EN.
  destruct (integer_bounds N _ HN eq_refl Hlen') as (_ & HNn & Hn53).
  unfold toString, parseInt.
  pose proof (parseIntSF_digits false d ds Hd Hds) as Hparse.
  change (parseIntSF (String d ds) = of_decimal false N 0) in Hparse.
  rewrite Hparse.
  rewrite of_decimal_integer by (rewrite ?Z.pow_0_r; lia).
  rewrite Z.pow_0_r, Z.mul_1_r.
  rewrite Prim2SF_SF2Prim.
  - rewrite toStringSF_integer by assumption. exact EN.
  - apply canonical_valid, int_float_canonical. lia.
Qed.

Lemma run_display keys : forall c,
  textContent c = display_of (currentInput c) ->
  textContent (run keys c) = display_of (currentInput (run keys c)).
Proof.
  induction keys as [|a keys IH]; intros c H; [exact H|].
  rewrite run_cons. now apply IH, step_display.
Qed.

Lemma append_not_zero s ch : s <> "" -> s ++ String ch "" <> "0".
Proof. destruct s as [|c [|c' s]]; cbn; congruence. Qed.

Lemma append_not_empty s t : s <> "" -> s ++ t <> "".
Proof. destruct s; cbn; congruence. Qed.

Lemma digit_keys_append ds : forall c,
  currentInput c <> "0" -> currentInput c <> "" ->
  currentInput (run (digit_keys ds) c) = currentInput c ++ ds.
Proof.
  induction ds as [|ch ds IH]; intros c H0 He.
  - cbn. now rewrite append_nil_r.
  - change (digit_keys (String ch ds))
      with (InputDigit (String ch "") :: digit_keys ds).
    rewrite run_cons. cbn [step].
    assert (E : currentInput (inputDigit (String ch "") c)
                = currentInput c ++ String ch "").
    { unfold inputDigit. destruct (String.eqb_spec (currentInput c) "0");
        [contradiction|reflexivity]. }
    rewrite IH; rewrite E.
    + now rewrite append_assoc.
    + now apply append_not_zero.
    + now apply append_not_empty.
Qed.

(** C6. Seventeen digits typed are in [currentInput] as typed, and
    displayed with the last digit changed: the integer parsed from them
    is rounded to a float. *)
Theorem seventeen_digits_displayed :
  let c := run (digit_keys "12345678901234567") (constructor "") in
  currentInput c = "12345678901234567" /\
  textContent c = "12345678901234568".
Proof. vm_compute. split; reflexivity. Qed.

(** seventeen digits are displayed rounded to the nearest float *)
Lemma long_digits_displayed_rounded :
  ~ (forall d ds, is_digit d = true -> all_digits ds = true ->
       d <> "0"%char ->
       textContent (run (digit_keys (String d ds)) (constructor ""))
       = String d ds).
Proof.
  intros H.
  specialize (H "1"%char "2345678901234567" eq_refl eq_refl ltac:(discriminate)).
  vm_compute in H. discriminate H.
Qed.

(* ----------------------------------------------------------------- *)
(** ** Clearing and one operation *)

Lemma allClear_constructor c text : allClear c = constructor text.
Proof. reflexivity. Qed.

(** X1. All clear leaves the state of a new calculator, whatever came
    before: the keys pressed after it act as on a new one. *)
Theorem allClear_forgets c text before after :
  run (before ++ AllClear :: after) c = run after (constructor text).
Proof.
  rewrite run_app, run_cons. cbn [step].
  now rewrite (allClear_constructor _ text).
Qed.

(** the four operations, with a zero of either sign on the right *)
Lemma zero_sign_add_r sa sb c :
  unsigned_zero (SF64add c (S754_zero sa)) = unsigned_zero (SF64add c (S754_zero sb)).
Proof. destruct c as [sc|sc| |sc mc ec]; destruct sa, sb; try destruct sc; reflexivity. Qed.

Lemma zero_sign_sub_r sa sb c :
  unsigned_zero (SF64sub c (S754_zero sa)) = unsigned_zero (SF64sub c (S754_zero sb)).
Proof. destruct c as [sc|sc| |sc mc ec]; destruct sa, sb; try destruct sc; reflexivity. Qed.

Lemma zero_sign_mul_r sa sb c :
  unsigned_zero (SF64mul c (S754_zero sa)) = unsigned_zero (SF64mul c (S754_zero sb)).
Proof. destruct c as [sc|sc| |sc mc ec]; destruct sa, sb; try destruct sc; reflexivity. Qed.

Lemma eqb_zero_sign x s : Prim2SF x = S754_zero s -> (x =? 0)%float = true.
Proof.
  intros E. rewrite eqb_spec, E. now destruct s.
Qed.

Lemma compute_same_value_zero_r op p x y :
  same_value_zero x y -> same_value_zero (compute op p x) (compute op p y).
Proof.
  intros H. destruct (unsigned_zero_cases _ _ H) as [E|(sa & sb & Ea & Eb)].
  { apply Prim2SF_inj in E. subst y. reflexivity. }
  unfold same_value_zero, compute.
  destruct (String.eqb op "+").
  { rewrite !add_spec, Ea, Eb. apply zero_sign_add_r. }
  destruct (String.eqb op "-").
  { rewrite !sub_spec, Ea, Eb. apply zero_sign_sub_r. }
  destruct (String.eqb op "*").
  { rewrite !mul_spec, Ea, Eb. apply zero_sign_mul_r. }
  destruct (String.eqb op "/").
  { now rewrite (eqb_zero_sign _ _ Ea), (eqb_zero_sign _ _ Eb). }
  exact H.
Qed.

(** an operand typed after an operator key pressed with nothing pending *)
Lemma operator_then_operand op kb c :
  operator c = None -> forallb entry kb = true ->
  operator (run kb (setOperator op c)) = Some op /\
  previousValue (run kb (setOperator op c))
    = Some (parseFloat (currentInput c)) /\
  parseFloat (currentInput (run kb (setOperator op c))) = operand kb.
Proof.
  intros Hidle Hkb.
  destruct (entry_run_pending kb (setOperator op c) Hkb) as [-> ->].
  destruct (setOperator_fields op c) as [Hi ->].
  rewrite (setOperator_idle op c Hidle).
  split; [reflexivity|]. split; [reflexivity|].
  unfold operand. apply f_equal. now apply entry_run_input.
Qed.

(** an operand typed from the start *)
Lemma operand_typed text ka :
  forallb entry ka = true ->
  operator (run ka (constructor text)) = None /\
  previousValue (run ka (constructor text)) = None /\
  parseFloat (currentInput (run ka (constructor text))) = operand ka.
Proof.
  intros Hka.
  destruct (entry_run_pending ka (constructor text) Hka) as [-> ->].
  split; [reflexivity|]. split; [reflexivity|].
  unfold operand. apply f_equal. now apply entry_run_input.
Qed.

(** what one operation leaves in [currentInput] *)
Lemma operation_input text op ka kb :
  forallb entry ka = true -> forallb entry kb = true ->
  currentInput (run (ka ++ SetOperator op :: kb ++ [CalculateResult])
                    (constructor text))
  = toString (compute op (operand ka) (operand kb)).
Proof.
  intros Ha Hb.
  rewrite run_app, run_cons, run_app.
  change (run [CalculateResult] ?c) with (calculateResult c).
  destruct (operand_typed text ka Ha) as (Ho1 & _ & Hv1).
  cbn [step].
  destruct (operator_then_operand op kb _ Ho1 Hb) as (Ho & Hp & Hv).
  rewrite Hv1 in Hp.
  destruct (calculateResult_pending _ op _ Ho Hp) as (-> & _).
  now rewrite Hv.
Qed.

(** X2. Typing [a], an operator, [b] and equals leaves the text of
    [a o b] in [currentInput], shows it formatted, and leaves nothing
    pending. *)
Theorem single_operation text o ka kb :
  forallb entry ka = true -> forallb entry kb = true ->
  let c := run (ka ++ SetOperator (symbol o) :: kb ++ [CalculateResult])
               (constructor text) in
  currentInput c = toString (evaluate o (operand ka) (operand kb)) /\
  textContent c = display_of (currentInput c) /\
  previousValue c = None /\ operator c = None.
Proof.
  intros Ha Hb c.
  assert (Hin : currentInput c
                = toString (evaluate o (operand ka) (operand kb))).
  { unfold c. now rewrite operation_input, compute_symbol. }
  split; [exact Hin|]. unfold c.
  rewrite run_app, run_cons, run_app.
  change (run [CalculateResult] ?c) with (calculateResult c).
  destruct (operand_typed text ka Ha) as (Ho1 & _ & Hv1).
  cbn [step].
  destruct (operator_then_operand (symbol o) kb _ Ho1 Hb) as (Ho & Hp & Hv).
  destruct (calculateResult_pending _ _ _ Ho Hp) as (_ & Hp' & Ho').
  split; [|now split].
  unfold calculateResult. rewrite Ho, Hp. apply updateDisplay_display.
Qed.

Lemma single_operation_witness :
  let c := run ([InputDigit "1"; InputDigit "2"] ++
                SetOperator (symbol Plus) ::
                [InputDigit "3"] ++ [CalculateResult]) (constructor "") in
  currentInput c
    = toString (evaluate Plus (operand [InputDigit "1"; InputDigit "2"])
                         (operand [InputDigit "3"])) /\
  textContent c = display_of (currentInput c) /\
  previousValue c = None /\ operator c = None.
Proof.
  apply single_operation; reflexivity.
Defined.



(** what was typed before a clear entry does not count *)
Lemma operand_clearEntry kb kc :
  forallb entry kc = true -> operand (kb ++ ClearEntry :: kc) = operand kc.
Proof.
  intros Hc. unfold operand. rewrite run_app, run_cons. apply f_equal.
  now apply entry_run_input.
Qed.

(** X4. Clear entry discards the operand typed so far and keeps the
    pending operation: the result is that of the operand typed after. *)
Theorem clearEntry_replaces_operand text o ka kb kc :
  forallb entry ka = true -> forallb entry kb = true ->
  forallb entry kc = true ->
  currentInput
    (run (ka ++ SetOperator (symbol o) :: (kb ++ ClearEntry :: kc) ++
          [CalculateResult]) (constructor text))
  = toString (evaluate o (operand ka) (operand kc)).
Proof.
  intros Ha Hb Hc.
  assert (Hbc : forallb entry (kb ++ ClearEntry :: kc) = true).
  { rewrite forallb_app, Hb. cbn. exact Hc. }
  now rewrite operation_input, compute_symbol, operand_clearEntry.
Qed.

Lemma clearEntry_replaces_operand_witness :
  currentInput
    (run ([InputDigit "9"] ++ SetOperator (symbol Minus) ::
          ([InputDigit "5"] ++ ClearEntry :: [InputDigit "2"]) ++
          [CalculateResult]) (constructor ""))
  = toString (evaluate Minus (operand [InputDigit "9"])
                       (operand [InputDigit "2"])).
Proof.
  apply clearEntry_replaces_operand; reflexivity.
Defined.

(** the operand after a percent key *)
Lemma operand_percent ks :
  same_value_zero (operand (ks ++ [CalculatePercentage]))
                  (operand ks / 100)%float.
Proof.
  unfold operand. rewrite run_app.
  change (run [CalculatePercentage] ?c) with (calculatePercentage c).
  apply same_value_zero_round_trip.
Qed.

(** X5. Percent divides the operand being typed by 100, also as the
    right operand of a pending operation, whose left operand plays no
    part in it. *)
Theorem percent_of_operand text o ka kb :
  forallb entry ka = true -> forallb entry kb = true ->
  currentInput (run (ka ++ [CalculatePercentage]) (constructor text))
    = toString (operand ka / 100)%float /\
  currentInput
    (run (ka ++ SetOperator (symbol o) :: (kb ++ [CalculatePercentage]) ++
          [CalculateResult]) (constructor text))
  = toString (evaluate o (operand ka) (operand kb / 100)%float).
Proof.
  intros Ha Hb. split.
  - rewrite run_app.
    change (run [CalculatePercentage] ?c) with (calculatePercentage c).
    destruct (operand_typed text ka Ha) as (_ & _ & Hv).
    unfold calculatePercentage. cbn. now rewrite Hv.
  - assert (Hbp : forallb entry (kb ++ [CalculatePercentage]) = true).
    { rewrite forallb_app, Hb. reflexivity. }
    rewrite operation_input, <- compute_symbol by assumption.
    apply same_value_zero_toString, compute_same_value_zero_r,
      operand_percent.
Qed.

Lemma percent_of_operand_witness :
  currentInput (run ([InputDigit "5"; InputDigit "0"] ++ [CalculatePercentage])
                    (constructor ""))
    = toString (operand [InputDigit "5"; InputDigit "0"] / 100)%float /\
  currentInput
    (run ([InputDigit "5"; InputDigit "0"] ++ SetOperator (symbol Plus) ::
          ([InputDigit "8"] ++ [CalculatePercentage]) ++
          [CalculateResult]) (constructor ""))
  = toString (evaluate Plus (operand [InputDigit "5"; InputDigit "0"])
                       (operand [InputDigit "8"] / 100)%float).
Proof.
  apply percent_of_operand; reflexivity.
Defined.

Lemma compute_unknown op previous current :
  operator_key op = false -> compute op previous current = current.
Proof.
  unfold operator_key, compute. intros H.
  destruct (String.eqb op "+"); [discriminate|].
  destruct (String.eqb op "-"); [discriminate|].
  destruct (String.eqb op "*"); [discriminate|].
  destruct (String.eqb op "/"); [discriminate|]. reflexivity.
Qed.

(** X6. With an operator that is none of the four, equals leaves the
    right operand: the left one is dropped and nothing is computed. *)
Theorem unknown_operator text op ka kb :
  operator_key op = false ->
  forallb entry ka = true -> forallb entry kb = true ->
  currentInput (run (ka ++ SetOperator op :: kb ++ [CalculateResult])
                    (constructor text))
  = toString (operand kb).
Proof.
  intros Hop Ha Hb. now rewrite operation_input, compute_unknown.
Qed.

Lemma unknown_operator_witness :
  currentInput (run ([InputDigit "7"] ++ SetOperator "^" :: [InputDigit "2"] ++
                     [CalculateResult]) (constructor ""))
  = toString (operand [InputDigit "2"]).
Proof.
  apply unknown_operator; reflexivity.
Defined.

(* ----------------------------------------------------------------- *)
(** ** The sign *)

Lemma number_head_plain c :
  number_head c = true ->
  is_whitespace c = false /\ Ascii.eqb c "-" = false /\ Ascii.eqb c "+" = false.
Proof.
  unfold number_head, is_digit, is_whitespace.
  destruct (Ascii.eqb_spec c "N") as [->|_]; [now cbn|].
  destruct (Ascii.eqb_spec c "I") as [->|_]; [now cbn|].
  rewrite !orb_false_r, andb_true_iff, !Nat.leb_le. intros [H1 H2].
  repeat split.
  - apply orb_false_iff. split.
    + apply andb_false_iff. right. apply Nat.leb_gt. lia.
    + apply Nat.eqb_neq. lia.
  - destruct (Ascii.eqb_spec c "-") as [->|]; [cbn in H1; lia|reflexivity].
  - destruct (Ascii.eqb_spec c "+") as [->|]; [cbn in H1; lia|reflexivity].
Qed.

Lemma digit_number_head c : is_digit c = true -> number_head c = true.
Proof. unfold number_head. now intros ->. Qed.

Lemma signed_number_literal (s : bool) c r :
  number_head c = true -> (s = true -> String c r <> "0") ->
  signed_number ((if s then "-" else "") ++ String c r) = true.
Proof.
  intros Hc H0. destruct s; cbn [append signed_number].
  - change (Ascii.eqb "-" "-") with true. cbv iota. rewrite Hc.
    destruct (String.eqb_spec (String c r) "0");
      [now elim H0|reflexivity].
  - destruct (number_head_plain c Hc) as (_ & -> & _). exact Hc.
Qed.

(** [toString] never writes "-0" *)
Lemma toString_not_minus_zero x : toString x <> "-0".
Proof.
  intros E. pose proof (parseFloat_toString x) as H. rewrite E in H.
  destruct (Prim2SF x); discriminate H.
Qed.

Lemma toString_signed_number x : signed_number (toString x) = true.
Proof.
  pose proof (toString_not_minus_zero x) as Hz. revert Hz.
  unfold toString. pose proof (Prim2SF_valid x) as Hv.
  destruct (Prim2SF x) as [s|s| |s m e]; cbn [toStringSF]; intros Hz.
  - reflexivity.
  - now destruct s.
  - reflexivity.
  - pose proof (shortest_reads_back s m e Hv) as Hback.
    destruct (shortest m e) as [d X]. cbn [fst snd] in Hback.
    pose proof (of_decimal_finite_pos _ _ _ _ _ _ Hback) as Hd.
    destruct (render_shape d X Hd) as (c & ip & frac & ex & Hc & _ & _ & Er & _).
    rewrite Er in *. cbn [append].
    apply (signed_number_literal s c); [now apply digit_number_head|].
    intros -> E. apply Hz. cbn [append] in *. now rewrite E.
Qed.

Lemma signed_number_app s t :
  signed_number s = true -> s ++ t <> "-0" -> signed_number (s ++ t) = true.
Proof.
  destruct s as [|c r]; [discriminate|]. cbn [append signed_number].
  destruct (Ascii.eqb_spec c "-") as [->|Hc]; [|auto].
  destruct r as [|c' r']; [discriminate|]. cbn [append].
  rewrite andb_true_iff. intros [Hc _] Hz. rewrite Hc.
  destruct (String.eqb_spec (String c' (r' ++ t)) "0") as [E|]; [|reflexivity].
  elim Hz. now rewrite E.
Qed.

(** what the entry methods leave in [currentInput] *)
Lemma inputDigit_input d c :
  currentInput (inputDigit d c) =
  if String.eqb (currentInput c) "0" then d else currentInput c ++ d.
Proof. unfold inputDigit. now destruct (String.eqb _ _). Qed.

Lemma inputDecimal_input c :
  currentInput (inputDecimal c) =
  if includes (currentInput c) "." then currentInput c
  else currentInput c ++ ".".
Proof. unfold inputDecimal. now destruct (includes _ _). Qed.

Lemma toggleSign_input c :
  currentInput (toggleSign c) =
  if startsWith (currentInput c) "-" then substring1 (currentInput c)
  else if String.eqb (currentInput c) "0" then currentInput c
  else "-" ++ currentInput c.
Proof.
  unfold toggleSign. destruct (startsWith _ _); [reflexivity|].
  now destruct (String.eqb _ _).
Qed.

Lemma step_signed_number c a :
  key a = true -> signed_number (currentInput c) = true ->
  signed_number (currentInput (step c a)) = true.
Proof.
  intros Hk H. destruct a; cbn [step key] in *.
  - destruct (digit_key_char _ Hk) as (ch & -> & Hch).
    rewrite inputDigit_input. destruct (String.eqb _ _).
    + cbn [signed_number]. rewrite (digit_not_minus _ Hch).
      now apply digit_number_head.
    + apply signed_number_app; [exact H|].
      destruct (currentInput c) as [|c0 [|c1 r]]; cbn [append].
      * discriminate.
      * intros [= -> ->]. discriminate H.
      * destruct r; discriminate.
  - rewrite inputDecimal_input. destruct (includes _ _); [exact H|].
    apply signed_number_app; [exact H|].
    destruct (currentInput c) as [|c0 [|c1 r]]; cbn [append];
      try discriminate.
    destruct r; discriminate.
  - rewrite toggleSign_input.
    destruct (currentInput c) as [|ch r] eqn:E; [discriminate H|].
    rewrite startsWith_minus. cbn [signed_number substring1] in *.
    destruct (Ascii.eqb_spec ch "-") as [->|Hch].
    + destruct r as [|ch' r']; [discriminate H|].
      apply andb_true_iff in H. destruct H as [H _].
      cbn [signed_number].
      now destruct (number_head_plain ch' H) as (_ & -> & _).
    + destruct (String.eqb_spec (String ch r) "0") as [E0|E0].
      * cbn [signed_number].
        destruct (Ascii.eqb_spec ch "-"); [contradiction|exact H].
      * cbn [append signed_number]. change (Ascii.eqb "-" "-") with true.
        cbv iota. rewrite H.
        destruct (String.eqb_spec (String ch r) "0");
          [contradiction|reflexivity].
  - reflexivity.
  - reflexivity.
  - reflexivity.
  - unfold calculateResult. destruct (operator c); [|exact H].
    destruct (previousValue c); [|exact H]. apply toString_signed_number.
  - apply toString_signed_number.
Qed.

Lemma reachable_signed_number c :
  reachable c -> signed_number (currentInput c) = true.
Proof.
  induction 1 as [text|c a _ IH Hk]; [reflexivity|now apply step_signed_number].
Qed.

Lemma signed_number_not_minus_zero s : signed_number s = true -> s <> "-0".
Proof. intros H ->. discriminate H. Qed.

Lemma display_of_not_minus_zero s : display_of s <> "-0".
Proof.
  unfold display_of. destruct (includes s ".") eqn:E; cbn [negb].
  - intros ->. discriminate E.
  - apply toString_not_minus_zero.
Qed.

(** X17. Neither [currentInput] nor the display is ever "-0"; with a
    point typed, the display can read "-0.". *)
Theorem never_minus_zero :
  (forall c, reachable c -> currentInput c <> "-0" /\ textContent c <> "-0") /\
  (forall text,
     textContent (run [InputDecimal; ToggleSign] (constructor text)) = "-0.").
Proof.
  split.
  - intros c Hc. split.
    + now apply signed_number_not_minus_zero, reachable_signed_number.
    + rewrite (reachable_display c Hc). apply display_of_not_minus_zero.
  - intros text. reflexivity.
Qed.

Lemma never_minus_zero_witness :
  currentInput (run [InputDigit "0"; ToggleSign] (constructor "")) <> "-0" /\
  textContent (run [InputDigit "0"; ToggleSign] (constructor "")) <> "-0".
Proof.
  apply (proj1 never_minus_zero).
  repeat (apply reach_step; [|reflexivity]). apply reach_init.
Defined.

(** a state that shows its [currentInput] is known by its three fields *)
Lemma displayed_state_eq c c' :
  textContent c = display_of (currentInput c) ->
  textContent c' = display_of (currentInput c') ->
  currentInput c = currentInput c' ->
  previousValue c = previousValue c' ->
  operator c = operator c' -> c = c'.
Proof.
  destruct c, c'. cbn. intros -> -> -> -> ->. reflexivity.
Qed.

(** X15. The sign key pressed twice leaves every reachable state as
    it was. *)
Theorem toggleSign_involutive c :
  reachable c -> toggleSign (toggleSign c) = c.
Proof.
  intros Hc. pose proof (reachable_display c Hc) as Hd.
  pose proof (reachable_signed_number c Hc) as Hs.
  apply displayed_state_eq.
  - apply (step_display (toggleSign c) ToggleSign),
      (step_display c ToggleSign), Hd.
  - exact Hd.
  - rewrite !toggleSign_input.
    destruct (currentInput c) as [|ch r]; [discriminate Hs|].
    rewrite startsWith_minus. cbn [signed_number] in Hs.
    destruct (Ascii.eqb_spec ch "-") as [->|Hch].
    + destruct r as [|ch' r']; [discriminate Hs|].
      apply andb_true_iff in Hs. destruct Hs as [Hh Hz].
      cbn [substring1]. rewrite startsWith_minus.
      destruct (number_head_plain ch' Hh) as (_ & -> & _).
      apply negb_true_iff in Hz. now rewrite Hz.
    + destruct (String.eqb_spec (String ch r) "0") as [E0|E0].
      * rewrite startsWith_minus.
        destruct (Ascii.eqb_spec ch "-"); [contradiction|].
        now destruct (String.eqb_spec (String ch r) "0").
      * reflexivity.
  - now rewrite !(proj1 (toggleSign_pending _)).
  - now rewrite !(proj2 (toggleSign_pending _)).
Qed.

Lemma toggleSign_involutive_witness :
  toggleSign (toggleSign (run [InputDigit "4"; InputDecimal] (constructor "")))
  = run [InputDigit "4"; InputDecimal] (constructor "").
Proof.
  apply toggleSign_involutive.
  repeat (apply reach_step; [|reflexivity]). apply reach_init.
Defined.

(* ----------------------------------------------------------------- *)
(** ** The value under a sign *)

Lemma opp_involutive x : (- - x)%float = x.
Proof.
  apply Prim2SF_inj. rewrite !opp_spec.
  destruct (Prim2SF x) as [s|s| |s m e]; cbn; now rewrite ?negb_involutive.
Qed.

Lemma str_unsigned_decimal_sign neg s :
  str_unsigned_decimal neg s = with_sign neg (str_unsigned_decimal false s).
Proof.
  unfold str_unsigned_decimal. destruct (startsWith s "Infinity"); [reflexivity|].
  destruct (span_digits s) as [ip rest].
  destruct (match rest with String "."%char t => span_digits t | _ => ("", rest) end)
    as [fp rest'].
  destruct ip, fp; try reflexivity;
    rewrite (of_decimal_sign neg), (of_decimal_sign false);
    now destruct (of_decimal false _ _).
Qed.

(** [parseFloat] under a "-" *)
Lemma parseFloat_minus c r :
  number_head c = true ->
  parseFloat ("-" ++ String c r) = (- parseFloat (String c r))%float.
Proof.
  intros Hc. destruct (number_head_plain c Hc) as (Hw & Hm & Hp).
  unfold parseFloat, parseFloatSF.
  cbn [append trim_start split_sign].
  change (is_whitespace "-") with false. cbv iota.
  rewrite Hw.
  assert (E : split_sign (String c r) = (false, String c r)).
  { unfold split_sign. destruct c as [[] [] [] [] [] [] [] []];
      try reflexivity; discriminate. }
  change (split_sign (String "-" (String c r))) with (true, String c r).
  rewrite E, (str_unsigned_decimal_sign true).
  pose proof (str_unsigned_decimal_sign false (String c r)) as Hf.
  destruct (str_unsigned_decimal false (String c r)) as [s|s| |s m e];
    cbn [with_sign] in *; try (injection Hf as ->); reflexivity.
Qed.

(** X16. The sign key negates the Number that [currentInput] denotes,
    unless [currentInput] is "0", which it leaves alone. *)
Theorem toggleSign_negates c :
  reachable c ->
  (currentInput c <> "0" ->
   parseFloat (currentInput (toggleSign c))
   = (- parseFloat (currentInput c))%float) /\
  (currentInput c = "0" -> toggleSign c = c).
Proof.
  intros Hc. pose proof (reachable_display c Hc) as Hd.
  pose proof (reachable_signed_number c Hc) as Hs. split.
  - intros H0. rewrite toggleSign_input.
    destruct (currentInput c) as [|ch r]; [discriminate Hs|].
    rewrite startsWith_minus. cbn [signed_number] in Hs.
    destruct (Ascii.eqb_spec ch "-") as [->|Hch].
    + destruct r as [|ch' r']; [discriminate Hs|].
      apply andb_true_iff in Hs. destruct Hs as [Hh _].
      cbn [substring1].
      change (String "-" (String ch' r')) with ("-" ++ String ch' r').
      now rewrite parseFloat_minus, opp_involutive.
    + destruct (String.eqb_spec (String ch r) "0"); [contradiction|].
      now apply parseFloat_minus.
  - intros E0. apply displayed_state_eq.
    + apply (step_display c ToggleSign), Hd.
    + exact Hd.
    + rewrite toggleSign_input, E0. reflexivity.
    + apply toggleSign_pending.
    + apply toggleSign_pending.
Qed.

Lemma toggleSign_negates_witness :
  parseFloat (currentInput (toggleSign (run [InputDigit "4"] (constructor ""))))
  = (- parseFloat (currentInput (run [InputDigit "4"] (constructor ""))))%float.
Proof.
  apply toggleSign_negates.
  - repeat (apply reach_step; [|reflexivity]). apply reach_init.
  - discriminate.
Defined.

(* ----------------------------------------------------------------- *)
(** ** Typing digits and a point *)

Lemma digit_keys_cons ch ds :
  digit_keys (String ch ds) = InputDigit (String ch "") :: digit_keys ds.
Proof. reflexivity. Qed.

(** digits typed over "0": the leading zeros are dropped *)
Lemma digit_keys_over_zero s : forall c,
  currentInput c = "0" -> s <> "" ->
  currentInput (run (digit_keys s) c) = strip_zeros s.
Proof.
  induction s as [|ch s IH]; intros c Hc Hs; [contradiction|].
  rewrite digit_keys_cons, run_cons. cbn [step].
  assert (E : currentInput (inputDigit (String ch "") c) = String ch "").
  { unfold inputDigit. now rewrite Hc. }
  destruct s as [|ch' s']; [exact E|].
  cbn [strip_zeros]. destruct (Ascii.eqb_spec ch "0") as [->|Hch].
  - apply IH; [exact E|discriminate].
  - rewrite digit_keys_append; rewrite E.
    + reflexivity.
    + congruence.
    + discriminate.
Qed.

Lemma strip_zeros_digits s : all_digits s = true -> all_digits (strip_zeros s) = true.
Proof.
  induction s as [|ch [|ch' s'] IH]; intros H; try exact H.
  cbn [strip_zeros]. destruct (Ascii.eqb ch "0"); [|exact H].
  apply IH. cbn [all_digits] in H. now apply andb_true_iff in H.
Qed.

(** what is left is "0", or starts with another digit *)
Lemma strip_zeros_head s :
  s <> "" ->
  strip_zeros s = "0" \/
  exists d ds, strip_zeros s = String d ds /\ d <> "0"%char.
Proof.
  induction s as [|ch [|ch' s'] IH]; intros H; [contradiction| |].
  - cbn. destruct (Ascii.eqb_spec ch "0") as [->|]; [now left|right; eauto].
  - cbn [strip_zeros]. destruct (Ascii.eqb_spec ch "0") as [->|].
    + apply IH. discriminate.
    + right; eauto.
Qed.

(** X12. Digits typed from the start are in [currentInput] without
    their leading zeros, and up to 15 of them are displayed so. *)
Theorem leading_zeros_dropped text s :
  all_digits s = true -> s <> "" ->
  let c := run (digit_keys s) (constructor text) in
  currentInput c = strip_zeros s /\
  (length_Z (strip_zeros s) <= 15 -> textContent c = strip_zeros s).
Proof.
  intros Hs Hne c. subst c.
  assert (Hin : currentInput (run (digit_keys s) (constructor text))
                = strip_zeros s)
    by now apply digit_keys_over_zero.
  split; [exact Hin|]. intros Hlen.
  rewrite run_display by reflexivity. rewrite Hin.
  pose proof (strip_zeros_digits s Hs) as Hd.
  rewrite display_of_integer by now apply all_digits_no_point.
  destruct (strip_zeros_head s Hne) as [->|(d & ds & E & Hd0)]; [reflexivity|].
  rewrite E in *. cbn [all_digits] in Hd. apply andb_true_iff in Hd.
  now apply toString_parseInt_digits.
Qed.

Lemma leading_zeros_dropped_witness :
  let c := run (digit_keys "00705") (constructor "") in
  currentInput c = strip_zeros "00705" /\
  (length_Z (strip_zeros "00705") <= 15 -> textContent c = strip_zeros "00705").
Proof.
  apply leading_zeros_dropped; [reflexivity|discriminate].
Defined.

Lemma includes_point_app s t : includes (s ++ "." ++ t) "." = true.
Proof.
  rewrite includes_char_app. cbn [append]. rewrite includes_char_cons.
  cbn. now rewrite orb_true_r.
Qed.

(** X13. Digits, a point and more digits typed from the start are
    stored and displayed as typed, however many: the leading zeros
    dropped, "0" standing before a point typed first, the zeros after
    the point kept. *)
Theorem decimal_entry text ip fp :
  all_digits ip = true -> all_digits fp = true ->
  let c := run (digit_keys ip ++ InputDecimal :: digit_keys fp)
               (constructor text) in
  let shown := (if String.eqb ip "" then "0" else strip_zeros ip) ++ "." ++ fp in
  currentInput c = shown /\ textContent c = shown.
Proof.
  intros Hip Hfp c shown. subst c shown.
  set (head := if String.eqb ip "" then "0" else strip_zeros ip).
  assert (H1 : currentInput (run (digit_keys ip) (constructor text)) = head).
  { unfold head. destruct (String.eqb_spec ip "") as [->|Hne]; [reflexivity|].
    now apply digit_keys_over_zero. }
  assert (Hhead : all_digits head = true /\ head <> "").
  { unfold head. destruct (String.eqb_spec ip "") as [->|Hne]; [now split|].
    split; [now apply strip_zeros_digits|].
    destruct (strip_zeros_head ip Hne) as [->|(d & ds & -> & _)]; discriminate. }
  destruct Hhead as [Hhd Hhne].
  assert (Hin : currentInput (run (digit_keys ip ++ InputDecimal :: digit_keys fp)
                                  (constructor text)) = head ++ "." ++ fp).
  { rewrite run_app, run_cons. cbn [step].
    assert (H2 : currentInput (inputDecimal (run (digit_keys ip) (constructor text)))
                 = head ++ ".").
    { now rewrite inputDecimal_input, H1, (all_digits_no_point _ Hhd). }
    rewrite digit_keys_append; rewrite H2.
    - now rewrite append_assoc.
    - destruct head as [|a [|b r]]; discriminate.
    - destruct head; discriminate. }
  split; [exact Hin|].
  rewrite run_display by reflexivity. rewrite Hin.
  apply display_of_pointed, includes_point_app.
Qed.

Lemma decimal_entry_witness :
  let c := run (digit_keys "12" ++ InputDecimal :: digit_keys "50")
               (constructor "") in
  let shown := (if String.eqb "12" "" then "0" else strip_zeros "12") ++ "." ++ "50" in
  currentInput c = shown /\ textContent c = shown.
Proof.
  apply decimal_entry; reflexivity.
Defined.

(** the integer and the Number a run of digits denotes are one *)
Lemma parseInt_parseFloat_digits s :
  all_digits s = true -> s <> "" -> parseInt s = parseFloat s.
Proof.
  intros Hs Hne. destruct s as [|c ip]; [contradiction|].
  cbn [all_digits] in Hs. apply andb_true_iff in Hs. destruct Hs as [Hc Hip].
  unfold parseInt, parseFloat. f_equal.
  pose proof (parseIntSF_digits false c ip Hc Hip) as Hi.
  pose proof (literal_value false c ip None None Hc Hip eq_refl) as Hf.
  cbn [frac_suffix exp_suffix frac_digits exp_value append] in Hi, Hf.
  rewrite !append_nil_r in Hf. change (length_Z "") with 0 in Hf.
  change (0 - 0) with 0 in Hf. now rewrite Hi, Hf.
Qed.

Lemma strip_zeros_value s : digits_value 0 (strip_zeros s) = digits_value 0 s.
Proof.
  induction s as [|ch s IH]; [reflexivity|].
  destruct s as [|ch' s']; [reflexivity|].
  change (strip_zeros (String ch (String ch' s')))
    with (if Ascii.eqb ch "0" then strip_zeros (String ch' s')
          else String ch (String ch' s')).
  destruct (Ascii.eqb_spec ch "0") as [->|]; [|reflexivity].
  rewrite IH. reflexivity.
Qed.

Lemma strip_zeros_not_empty s : s <> "" -> strip_zeros s <> "".
Proof.
  intros H. destruct (strip_zeros_head s H) as [->|(d & ds & -> & _)];
    discriminate.
Qed.

(** leading zeros do not change the Number *)
Lemma parseFloat_strip_zeros s :
  all_digits s = true -> s <> "" -> parseFloat (strip_zeros s) = parseFloat s.
Proof.
  intros Hs Hne.
  assert (G : forall t, all_digits t = true -> t <> "" ->
            parseFloat t = SF2Prim (of_decimal false (digits_value 0 t) 0)).
  { intros [|c ip] Ht Hn; [contradiction|].
    cbn [all_digits] in Ht. apply andb_true_iff in Ht. destruct Ht as [Hc Hip].
    unfold parseFloat. f_equal.
    pose proof (literal_value false c ip None None Hc Hip eq_refl) as Hf.
    cbn [frac_suffix exp_suffix frac_digits exp_value append] in Hf.
    rewrite !append_nil_r in Hf. change (length_Z "") with 0 in Hf.
    now change (0 - 0) with 0 in Hf. }
  rewrite (G s Hs Hne), G, strip_zeros_value;
    auto using strip_zeros_digits, strip_zeros_not_empty.
Qed.

(** X14. However many digits are typed from the start, the display
    denotes the same Number as the digits typed. *)
Theorem display_denotes_typed_number text s :
  all_digits s = true -> s <> "" ->
  same_value_zero
    (parseFloat (textContent (run (digit_keys s) (constructor text))))
    (parseFloat s).
Proof.
  intros Hs Hne.
  rewrite run_display by reflexivity.
  rewrite digit_keys_over_zero by (try reflexivity; exact Hne).
  pose proof (strip_zeros_digits s Hs) as Hd.
  rewrite display_of_integer by now apply all_digits_no_point.
  rewrite parseInt_parseFloat_digits, parseFloat_strip_zeros
    by auto using strip_zeros_not_empty.
  apply same_value_zero_round_trip.
Qed.

Lemma display_denotes_typed_number_witness :
  same_value_zero
    (parseFloat (textContent (run (digit_keys "12345678901234567")
                                  (constructor ""))))
    (parseFloat "12345678901234567").
Proof.
  apply display_denotes_typed_number; [reflexivity|discriminate].
Defined.

(* ----------------------------------------------------------------- *)
(** ** Showing a result *)

Lemma includes_head s ch rest :
  includes s (String ch rest) = true -> includes s (String ch "") = true.
Proof.
  induction s as [|a s IH]; [discriminate|].
  cbn [includes startsWith]. rewrite !orb_true_iff, andb_true_iff.
  intros [[H _]|H]; [left; now rewrite H|right; auto].
Qed.

Lemma all_digits_excludes s ch :
  all_digits s = true -> is_digit ch = false -> includes s (String ch "") = false.
Proof.
  intros Hs Hch. induction s as [|a s IH]; [reflexivity|].
  cbn [all_digits] in Hs. apply andb_true_iff in Hs. destruct Hs as [Ha Hs].
  rewrite includes_char_cons, (IH Hs), orb_false_r.
  destruct (Ascii.eqb_spec ch a) as [->|]; [congruence|reflexivity].
Qed.

(** a text in the operand grammar has no exponent and is not Infinity *)
Lemma grammar_no_exponent s :
  operand_grammar s = true -> exponent_or_infinity s = false.
Proof.
  intros H.
  destruct (grammar_shape s H) as (sg & c & ip & frac & Hc & Hip & Hf & ->).
  assert (Hno : forall ch, is_digit ch = false -> Ascii.eqb ch "-" = false ->
                  Ascii.eqb ch "." = false ->
                  includes ((if sg then "-" else "") ++ String c ip ++
                            frac_suffix frac) (String ch "") = false).
  { intros ch Hd Hm Hp. rewrite !includes_char_app, !orb_false_iff.
    split; [|split].
    - destruct sg; [|reflexivity]. rewrite includes_char_cons, Hm. reflexivity.
    - apply all_digits_excludes; [|exact Hd]. cbn. now rewrite Hc.
    - destruct frac as [fp|]; [|reflexivity]. cbn [frac_suffix append].
      rewrite includes_char_cons, Hp. cbn [orb].
      now apply all_digits_excludes. }
  unfold exponent_or_infinity. apply orb_false_iff. split.
  - now apply Hno.
  - destruct (includes _ "Infinity") eqn:E; [|reflexivity].
    apply includes_head in E. rewrite Hno in E; [discriminate|reflexivity..].
Qed.

Lemma display_of_plain x :
  plain_magnitude x = true -> display_of (toString x) = toString x.
Proof.
  intros H. apply display_of_toStringSF; [apply Prim2SF_valid|].
  apply grammar_no_exponent. fold (toString x).
  now rewrite grammar_toString, plain_notation_magnitude.
Qed.

(** X9. A result that is zero or has a magnitude from 1e-6 up to, and
    not reaching, 1e21 is displayed as it is stored in [currentInput]. *)
Theorem plain_result_displayed c :
  (forall op previous,
     operator c = Some op -> previousValue c = Some previous ->
     plain_magnitude (compute op previous (parseFloat (currentInput c))) = true ->
     textContent (calculateResult c) = currentInput (calculateResult c)) /\
  (plain_magnitude (parseFloat (currentInput c) / 100)%float = true ->
   textContent (calculatePercentage c) = currentInput (calculatePercentage c)).
Proof.
  split.
  - intros op previous Ho Hp H. unfold calculateResult. rewrite Ho, Hp.
    cbn [updateDisplay set_textContent set_operator set_previousValue
         set_currentInput textContent currentInput].
    now apply display_of_plain.
  - intros H. unfold calculatePercentage.
    cbn [updateDisplay set_textContent set_operator set_previousValue
         set_currentInput textContent currentInput].
    now apply display_of_plain.
Qed.

Lemma plain_result_displayed_witness :
  textContent (calculatePercentage (run [InputDigit "5"] (constructor "")))
  = currentInput (calculatePercentage (run [InputDigit "5"] (constructor ""))).
Proof.
  apply plain_result_displayed. reflexivity.
Defined.

(* ----------------------------------------------------------------- *)
(** ** Keys and buttons *)

Lemma string_leb_char a b r :
  string_leb (String a "") (String b r) = (nat_of_ascii a <=? nat_of_ascii b)%nat.
Proof.
  cbn [string_leb].
  destruct (Nat.ltb_spec (nat_of_ascii a) (nat_of_ascii b));
    [symmetry; apply Nat.leb_le; lia|].
  destruct (Nat.ltb_spec (nat_of_ascii b) (nat_of_ascii a));
    symmetry; [apply Nat.leb_gt|apply Nat.leb_le]; lia.
Qed.

Lemma string_leb_char_r a r b :
  string_leb (String a r) (String b "") =
  (nat_of_ascii a <? nat_of_ascii b)%nat ||
  ((nat_of_ascii a =? nat_of_ascii b)%nat && String.eqb r "").
Proof.
  cbn [string_leb].
  destruct (Nat.ltb_spec (nat_of_ascii a) (nat_of_ascii b)); [reflexivity|].
  destruct (Nat.ltb_spec (nat_of_ascii b) (nat_of_ascii a)).
  - symmetry. cbn. apply andb_false_iff. left. apply Nat.eqb_neq. lia.
  - replace (nat_of_ascii a =? nat_of_ascii b)%nat with true
      by (symmetry; apply Nat.eqb_eq; lia).
    now destruct r.
Qed.

(** the strings the digit test of the keyboard lets through *)
Lemma digit_range_cons c r :
  digit_range (String c r) =
  is_digit c && (negb (Ascii.eqb c "9") || String.eqb r "").
Proof.
  unfold digit_range, is_digit.
  rewrite string_leb_char, string_leb_char_r.
  change (nat_of_ascii "0") with 48%nat.
  change (nat_of_ascii "9") with 57%nat.
  destruct (Nat.leb_spec 48 (nat_of_ascii c)); [|reflexivity]. cbn [andb].
  destruct (Ascii.eqb_spec c "9") as [->|Hc]; [reflexivity|].
  assert (nat_of_ascii c <> 57%nat).
  { intros E. apply Hc. rewrite <- (ascii_nat_embedding c), E. reflexivity. }
  destruct (Nat.ltb_spec (nat_of_ascii c) 57);
    destruct (Nat.leb_spec (nat_of_ascii c) 57);
    destruct (Nat.eqb_spec (nat_of_ascii c) 57); try lia; reflexivity.
Qed.

Lemma digit_range_char k :
  String.length k = 1%nat -> digit_range k = digit_key k.
Proof.
  destruct k as [|c [|c' r]]; try discriminate. intros _.
  rewrite digit_range_cons. cbn [digit_key String.eqb].
  now rewrite orb_true_r, andb_true_r.
Qed.

(** X19. The digit test of the keyboard compares strings: it lets
    through every key that starts with a character from "0" to "8",
    and "9" itself; among the keys of one character, exactly the
    digits. *)
Theorem keyboard_digit_test :
  digit_range "" = false /\
  (forall c r, digit_range (String c r) =
               is_digit c && (negb (Ascii.eqb c "9") || String.eqb r "")) /\
  (forall k, String.length k = 1%nat -> digit_range k = digit_key k).
Proof.
  split; [reflexivity|]. split; [exact digit_range_cons|exact digit_range_char].
Qed.

(** what a key does is a step of the engine, or nothing *)
Lemma keydown_step k c :
  (digit_range k = true -> String.length k = 1%nat) ->
  (exists a, key a = true /\ keydown k c = (step c a, true)) \/
  keydown k c = (c, false).
Proof.
  intros Hk. unfold keydown.
  destruct (digit_range k) eqn:Ed.
  { left. exists (InputDigit k). split; [|reflexivity].
    cbn [key]. now rewrite <- digit_range_char, Ed by auto. }
  destruct (String.eqb k "." || String.eqb k ",").
  { left. now exists InputDecimal. }
  destruct (String.eqb k "+" || String.eqb k "-" ||
            String.eqb k "*" || String.eqb k "/") eqn:Eo.
  { left. now exists (SetOperator k). }
  destruct (String.eqb k "Enter" || String.eqb k "=").
  { left. now exists CalculateResult. }
  destruct (String.eqb k "Backspace").
  { left. now exists ClearEntry. }
  destruct (String.eqb k "Escape").
  { left. now exists AllClear. }
  destruct (String.eqb k "%").
  { left. now exists CalculatePercentage. }
  now right.
Qed.

(** X18. A key pressed in a reachable state leaves a reachable state,
    as long as a key that passes the digit test is one character; a
    key for which [preventDefault] is not called changes nothing. *)
Theorem keydown_reachable k c :
  (digit_range k = true -> String.length k = 1%nat) ->
  reachable c ->
  reachable (fst (keydown k c)) /\
  (snd (keydown k c) = false -> fst (keydown k c) = c).
Proof.
  intros Hk Hc.
  destruct (keydown_step k c Hk) as [(a & Ha & ->)| ->]; cbn [fst snd].
  - split; [now apply reach_step|discriminate].
  - now split.
Qed.

Lemma keydown_reachable_witness :
  reachable (fst (keydown "7" (constructor ""))) /\
  (snd (keydown "7" (constructor "")) = false ->
   fst (keydown "7" (constructor "")) = constructor "").
Proof.
  apply keydown_reachable; [reflexivity|apply reach_init].
Defined.

(** what a button does is a step of the engine, or nothing *)
Lemma click_step btn c c' :
  well_formed_button btn -> click btn c = Some c' ->
  (exists a, key a = true /\ c' = step c a) \/ c' = c.
Proof.
  unfold well_formed_button, click. intros Hb.
  destruct (getDataAttribute btn "action") as [a|]; [|intros [= <-]; now right].
  destruct (String.eqb_spec a "number") as [->|_].
  { destruct (getDataAttribute btn "value") as [v|]; [|discriminate].
    intros [= <-]. left. exists (InputDigit v). split; [|reflexivity].
    now apply (Hb v). }
  destruct (String.eqb a "decimal").
  { intros [= <-]. left. now exists InputDecimal. }
  destruct (String.eqb a "sign").
  { intros [= <-]. left. now exists ToggleSign. }
  destruct (String.eqb a "clear").
  { intros [= <-]. left. now exists AllClear. }
  destruct (String.eqb_spec a "operator") as [->|_].
  { destruct (getDataAttribute btn "value") as [v|]; [|discriminate].
    intros [= <-]. left. exists (SetOperator v). split; [|reflexivity].
    now apply (Hb v). }
  destruct (String.eqb a "equals").
  { intros [= <-]. left. now exists CalculateResult. }
  destruct (String.eqb a "percent").
  { intros [= <-]. left. now exists CalculatePercentage. }
  intros [= <-]. now right.
Qed.

(** X20. A button clicked in a reachable state leaves a reachable
    state, as long as its data-value is a digit where its action is
    "number" and an operator where it is "operator". *)
Theorem click_reachable btn c c' :
  well_formed_button btn -> reachable c -> click btn c = Some c' ->
  reachable c'.
Proof.
  intros Hb Hc Hclick.
  destruct (click_step btn c c' Hb Hclick) as [(a & Ha & ->)| ->];
    [now apply reach_step|exact Hc].
Qed.

Lemma click_reachable_witness :
  reachable (inputDigit "7" (constructor "")).
Proof.
  apply (click_reachable [("action", "number"); ("value", "7")]
                         (constructor "")).
  - intros v [= <-]. split; [reflexivity|discriminate].
  - apply reach_init.
  - reflexivity.
Defined.




(* ----------------------------------------------------------------- *)
(** ** Rounding in the four operations *)

Lemma shr_1_nonneg mrs : 0 <= shr_m mrs -> 0 <= shr_m (shr_1 mrs).
Proof.
  destruct mrs as [[|[p|p|]|p] r s]; cbn; lia.
Qed.

Lemma iter_shr_1_nonneg p : forall mrs,
  0 <= shr_m mrs -> 0 <= shr_m (iter_pos shr_1 p mrs).
Proof.
  induction p as [p IH|p IH|]; intros mrs H; cbn [iter_pos].
  - apply IH, IH, shr_1_nonneg, H.
  - apply IH, IH, H.
  - apply shr_1_nonneg, H.
Qed.

Lemma shr_fexp_nonneg m e l :
  0 <= m -> 0 <= shr_m (fst (shr_fexp prec emax m e l)).
Proof.
  intros H. unfold shr_fexp, shr.
  assert (H0 : 0 <= shr_m (shr_record_of_loc m l))
    by (destruct l as [|[]]; exact H).
  destruct (fexp prec emax (Zdigits2 m + e) - e); cbn [fst]; try exact H0.
  now apply iter_shr_1_nonneg.
Qed.

Lemma round_nearest_even_nonneg m l : 0 <= m -> 0 <= round_nearest_even m l.
Proof.
  intros H. destruct l as [|[]]; cbn; try lia.
  destruct (Z.even m); lia.
Qed.

(** rounding a non-negative mantissa never gives NaN *)
Lemma binary_round_aux_number s m e l :
  0 <= m -> binary_round_aux prec emax s m e l <> S754_nan.
Proof.
  intros H. unfold binary_round_aux.
  pose proof (shr_fexp_nonneg m e l H) as H1.
  destruct (shr_fexp prec emax m e l) as [mrs' e']. cbn [fst] in H1.
  pose proof (shr_fexp_nonneg _ e' loc_Exact
                (round_nearest_even_nonneg _ (loc_of_shr_record mrs') H1)) as H2.
  destruct (shr_fexp prec emax _ e' loc_Exact) as [mrs'' e'']. cbn [fst] in H2.
  destruct (shr_m mrs'') as [|p|p]; [discriminate| |lia].
  destruct (e'' <=? emax - prec); discriminate.
Qed.

Lemma binary_normalize_number m e sz :
  binary_normalize prec emax m e sz <> S754_nan.
Proof.
  unfold binary_normalize, binary_round.
  destruct m as [|p|p]; [discriminate| |];
    destruct (shl_align _ _ _); now apply binary_round_aux_number.
Qed.

Lemma SF64add_number x y :
  finite_sf x = true -> finite_sf y = true -> SF64add x y <> S754_nan.
Proof.
  destruct x as [sx|sx| |sx mx ex], y as [sy|sy| |sy my ey];
    intros Hx Hy; try discriminate Hx; try discriminate Hy; cbn [SF64add SFadd].
  - destruct sx, sy; discriminate.
  - discriminate.
  - discriminate.
  - apply binary_normalize_number.
Qed.

Lemma SF64sub_number x y :
  finite_sf x = true -> finite_sf y = true -> SF64sub x y <> S754_nan.
Proof.
  destruct x as [sx|sx| |sx mx ex], y as [sy|sy| |sy my ey];
    intros Hx Hy; try discriminate Hx; try discriminate Hy; cbn [SF64sub SFsub].
  - destruct sx, sy; discriminate.
  - discriminate.
  - discriminate.
  - apply binary_normalize_number.
Qed.

Lemma SF64mul_number x y :
  finite_sf x = true -> finite_sf y = true -> SF64mul x y <> S754_nan.
Proof.
  destruct x as [sx|sx| |sx mx ex], y as [sy|sy| |sy my ey];
    intros Hx Hy; try discriminate Hx; try discriminate Hy; cbn [SF64mul SFmul]; try discriminate.
  now apply binary_round_aux_number.
Qed.

Lemma SF64div_number x y :
  finite_sf x = true -> finite_sf y = true ->
  (forall s, y <> S754_zero s) -> SF64div x y <> S754_nan.
Proof.
  destruct x as [sx|sx| |sx mx ex], y as [sy|sy| |sy my ey];
    intros Hx Hy' Hy; try discriminate Hx; try discriminate Hy'; cbn [SF64div SFdiv]; try discriminate.
  - now elim (Hy sy).
  - unfold SFdiv_core_binary.
    set (m' := match _ - _ with Z0 => Zpos mx | Zpos _ => _ | Zneg _ => 0 end).
    assert (Hm : 0 <= m').
    { unfold m'. destruct (_ - _); [lia| |lia]. apply Z.shiftl_nonneg. lia. }
    pose proof (Z.div_pos m' (Zpos my) Hm eq_refl) as Hq.
    unfold Z.div in Hq. destruct (Z.div_eucl m' (Zpos my)) as [q r].
    now apply binary_round_aux_number.
Qed.

Lemma isFinite_finite_sf x : isFinite x = finite_sf (Prim2SF x).
Proof. reflexivity. Qed.

Lemma eqb_zero_false x :
  (x =? 0)%float = false -> forall s, Prim2SF x <> S754_zero s.
Proof.
  intros H s E. rewrite eqb_spec, E in H. discriminate H.
Qed.

(** with finite operands, [compute] never gives NaN *)
Lemma compute_number op a b :
  isFinite a = true -> isFinite b = true -> isNaN (compute op a b) = false.
Proof.
  rewrite !isFinite_finite_sf. intros Ha Hb.
  assert (H : forall x, Prim2SF x <> S754_nan -> isNaN x = false).
  { intros x Hx. unfold isNaN. now destruct (Prim2SF x). }
  unfold compute.
  destruct (String.eqb op "+").
  { apply H. rewrite add_spec. now apply SF64add_number. }
  destruct (String.eqb op "-").
  { apply H. rewrite sub_spec. now apply SF64sub_number. }
  destruct (String.eqb op "*").
  { apply H. rewrite mul_spec. now apply SF64mul_number. }
  destruct (String.eqb op "/").
  { destruct (b =? 0)%float eqn:Eb; [reflexivity|].
    apply H. rewrite div_spec.
    apply SF64div_number; auto using eqb_zero_false. }
  apply H. intros E. rewrite E in Hb. discriminate Hb.
Qed.

(** only NaN is written "NaN" *)
Lemma toString_NaN x : toString x = "NaN" -> isNaN x = true.
Proof.
  intros E. pose proof (parseFloat_toString x) as H. rewrite E in H.
  unfold isNaN. destruct (Prim2SF x); try discriminate H. reflexivity.
Qed.

(** X8. With finite operands, neither equals nor percent leaves "NaN"
    in [currentInput]: the guard of the division keeps 0 / 0 out. *)
Theorem finite_operands_never_NaN c :
  isFinite (parseFloat (currentInput c)) = true ->
  (forall op previous,
     operator c = Some op -> previousValue c = Some previous ->
     isFinite previous = true ->
     isNaN (compute op previous (parseFloat (currentInput c))) = false /\
     currentInput (calculateResult c) <> "NaN") /\
  currentInput (calculatePercentage c) <> "NaN".
Proof.
  intros Hb. split.
  - intros op previous Ho Hp Ha.
    pose proof (compute_number op previous _ Ha Hb) as Hn.
    split; [exact Hn|].
    destruct (calculateResult_pending c op previous Ho Hp) as (-> & _).
    intros E. apply toString_NaN in E. congruence.
  - unfold calculatePercentage.
    cbn [updateDisplay set_textContent set_currentInput currentInput].
    intros E. apply toString_NaN in E. revert E.
    unfold isNaN. rewrite div_spec.
    pose proof (SF64div_number (Prim2SF (parseFloat (currentInput c)))
                  (Prim2SF 100) Hb eq_refl) as H.
    destruct (SF64div _ _); try discriminate.
    intros _. apply H; [|reflexivity]. intros s. discriminate.
Qed.

Lemma finite_operands_never_NaN_witness :
  currentInput
    (calculatePercentage (run [InputDigit "0"] (constructor ""))) <> "NaN".
Proof.
  apply finite_operands_never_NaN. reflexivity.
Defined.

(* ----------------------------------------------------------------- *)
(** ** Exact results *)

Lemma shr_1_exact m :
  0 <= m ->
  shr_1 (Build_shr_record (m * 2) false false) = Build_shr_record m false false.
Proof.
  intros H. destruct m as [|p|p]; [reflexivity| |lia].
  now rewrite Z.mul_comm.
Qed.

Lemma pow2_xO p : 2 ^ Zpos p~0 = 2 ^ Zpos p * 2 ^ Zpos p.
Proof.
  change (Zpos p~0) with (2 * Zpos p). apply Z.pow_twice_r.
Qed.

Lemma pow2_xI p : 2 ^ Zpos p~1 = 2 ^ Zpos p * 2 ^ Zpos p * 2.
Proof.
  change (Zpos p~1) with (2 * Zpos p + 1).
  rewrite Z.pow_add_r, Z.pow_twice_r by lia. reflexivity.
Qed.

Lemma iter_shr_1_exact p : forall m,
  0 <= m ->
  iter_pos shr_1 p (Build_shr_record (m * 2 ^ Zpos p) false false)
  = Build_shr_record m false false.
Proof.
  induction p as [p IH|p IH|]; intros m H; cbn [iter_pos].
  - assert (0 < 2 ^ Zpos p) by (apply Z.pow_pos_nonneg; lia).
    replace (m * 2 ^ Zpos p~1) with (m * 2 ^ Zpos p * 2 ^ Zpos p * 2)
      by (rewrite pow2_xI; ring).
    rewrite shr_1_exact by nia.
    rewrite IH by nia. now apply IH.
  - assert (0 < 2 ^ Zpos p) by (apply Z.pow_pos_nonneg; lia).
    replace (m * 2 ^ Zpos p~0) with (m * 2 ^ Zpos p * 2 ^ Zpos p)
      by (rewrite pow2_xO; ring).
    rewrite IH by nia. now apply IH.
  - now apply shr_1_exact.
Qed.

Lemma Zdigits2_log2 m : 0 < m -> Zdigits2 m = Z.log2 m + 1.
Proof.
  destruct m as [|p|p]; try lia. intros _. apply digits2_log2.
Qed.

Lemma fexp_small n : -1021 <= n -> fexp prec emax n = n - 53.
Proof. unfold fexp, SpecFloat.emin, prec, emax. lia. Qed.

(** rounding [N * 2^k] at the exponent [- k] gives the float of [N] *)
Lemma binary_round_aux_integer s N k :
  0 < N < 2 ^ 53 -> 52 - Z.log2 N <= k ->
  binary_round_aux prec emax s (N * 2 ^ k) (- k) loc_Exact
  = with_sign s (int_float N).
Proof.
  intros HN Hk. pose proof (log2_below_53 N HN) as Hl.
  assert (H2k : 0 < 2 ^ k) by (apply Z.pow_pos_nonneg; lia).
  remember (Z.log2 N - 52 + k) as n eqn:En.
  assert (Hshift : shr_fexp prec emax (N * 2 ^ k) (- k) loc_Exact
                   = (Build_shr_record (N * 2 ^ (52 - Z.log2 N)) false false,
                      Z.log2 N - 52)).
  { unfold shr_fexp. rewrite Zdigits2_log2 by lia.
    rewrite Z.log2_mul_pow2 by lia. rewrite fexp_small by lia.
    replace (k + Z.log2 N + 1 + - k - 53 - - k) with n by lia.
    cbn [shr_record_of_loc]. unfold shr.
    destruct n as [|p|p]; try lia.
    - replace k with (52 - Z.log2 N) by lia. f_equal. lia.
    - replace (N * 2 ^ k) with (N * 2 ^ (52 - Z.log2 N) * 2 ^ Zpos p).
      2:{ rewrite <- Z.mul_assoc, <- Z.pow_add_r by lia. do 2 f_equal. lia. }
      rewrite iter_shr_1_exact by (apply Z.mul_nonneg_nonneg;
        [|apply Z.pow_nonneg]; lia).
      f_equal. lia. }
  unfold binary_round_aux. rewrite Hshift.
  cbn [shr_m loc_of_shr_record round_nearest_even].
  assert (Hm : 2 ^ 52 <= N * 2 ^ (52 - Z.log2 N) < 2 ^ 53).
  { destruct (Z.log2_spec N) as [Hlo Hhi]; [lia|].
    replace (2 ^ 52) with (2 ^ Z.log2 N * 2 ^ (52 - Z.log2 N))
      by (rewrite <- Z.pow_add_r by lia; f_equal; lia).
    replace (2 ^ 53) with (2 ^ Z.succ (Z.log2 N) * 2 ^ (52 - Z.log2 N))
      by (rewrite <- Z.pow_add_r by lia; f_equal; lia).
    assert (0 < 2 ^ (52 - Z.log2 N)) by (apply Z.pow_pos_nonneg; lia).
    split; [apply Z.mul_le_mono_nonneg_r|apply Z.mul_lt_mono_pos_r]; lia. }
  assert (Hlm : Z.log2 (N * 2 ^ (52 - Z.log2 N)) = 52).
  { apply Z.log2_unique; [lia|]. exact Hm. }
  unfold shr_fexp. rewrite Zdigits2_log2 by lia. rewrite Hlm.
  rewrite fexp_small by lia.
  replace (52 + 1 + (Z.log2 N - 52) - 53 - (Z.log2 N - 52)) with 0 by lia.
  cbn [shr_record_of_loc shr fst snd shr_m].
  destruct (N * 2 ^ (52 - Z.log2 N)) as [|p|p] eqn:Ep; try lia.
  replace (Z.log2 N - 52 <=? emax - prec) with true
    by (symmetry; apply Z.leb_le; unfold emax, prec; lia).
  unfold int_float. rewrite Ep. reflexivity.
Qed.

Lemma iter_xO m d : Zpos (Pos.iter xO m d) = Zpos m * 2 ^ Zpos d.
Proof.
  change (Pos.iter xO m d) with (shift_pos d m).
  rewrite shift_pos_correct, Zpower_pos_nat, Zpower_nat_Z, positive_nat_Z.
  ring.
Qed.

(** aligning a mantissa to a lower exponent *)
Lemma shl_align_fst m e e' :
  e' <= e -> Zpos (fst (shl_align m e e')) = Zpos m * 2 ^ (e - e').
Proof.
  intros H. unfold shl_align.
  destruct (e' - e) as [|d|d] eqn:E; cbn [fst]; try lia.
  - replace (e - e') with 0 by lia. lia.
  - rewrite iter_xO. do 2 f_equal. lia.
Qed.

(** normalizing [N * 2^k] at the exponent [- k] gives the float of [N] *)
Lemma binary_round_integer s N k m :
  0 < N < 2 ^ 53 -> 0 <= k -> Zpos m = N * 2 ^ k ->
  binary_round prec emax s m (- k) = with_sign s (int_float N).
Proof.
  intros HN Hk Em. pose proof (log2_below_53 N HN) as Hl.
  unfold binary_round.
  rewrite digits2_log2, Em, Z.log2_mul_pow2, fexp_small by lia.
  unfold shl_align.
  destruct (k + Z.log2 N + 1 + - k - 53 - - k) as [|d|d] eqn:E.
  - rewrite Em. apply binary_round_aux_integer; lia.
  - rewrite Em. apply binary_round_aux_integer; lia.
  - rewrite iter_xO, Em, <- Z.mul_assoc, <- Z.pow_add_r by lia.
    replace (k + Z.log2 N + 1 + - k - 53) with (- (52 - Z.log2 N)) by lia.
    replace (k + Zpos d) with (52 - Z.log2 N) by lia.
    apply binary_round_aux_integer; lia.
Qed.

Lemma binary_normalize_integer z k :
  Z.abs z < 2 ^ 53 -> 0 <= k ->
  binary_normalize prec emax (z * 2 ^ k) (- k) false = integer_float z.
Proof.
  intros Hz Hk. assert (H2k : 0 < 2 ^ k) by (apply Z.pow_pos_nonneg; lia).
  destruct z as [|p|p]; cbn [integer_float].
  - reflexivity.
  - remember (Zpos p * 2 ^ k) as M eqn:E. destruct M as [|m|m]; try nia.
    cbn [binary_normalize].
    apply (binary_round_integer false (Zpos p)); lia.
  - remember (Zneg p * 2 ^ k) as M eqn:E. destruct M as [|m|m]; try nia.
    cbn [binary_normalize].
    apply (binary_round_integer true (- Zneg p)); lia.
Qed.

(** the mantissa of the float of an integer *)
Lemma int_float_mantissa N :
  0 < N < 2 ^ 53 ->
  Zpos (Z.to_pos (N * 2 ^ (52 - Z.log2 N))) = N * 2 ^ (52 - Z.log2 N) /\
  Z.log2 (N * 2 ^ (52 - Z.log2 N)) = 52.
Proof.
  intros HN. pose proof (log2_below_53 N HN) as Hl.
  assert (0 < 2 ^ (52 - Z.log2 N)) by (apply Z.pow_pos_nonneg; lia).
  split; [rewrite Z2Pos.id; nia|].
  rewrite Z.log2_mul_pow2; lia.
Qed.

Section IntegerOperands.

Variables A B : Z.
Hypothesis HA : 0 < A < 2 ^ 53.
Hypothesis HB : 0 < B < 2 ^ 53.

Let la := Z.log2 A.
Let lb := Z.log2 B.
Let ez := Z.min (la - 52) (lb - 52).

Lemma aligned_operands :
  0 <= - ez /\
  Zpos (fst (shl_align (Z.to_pos (A * 2 ^ (52 - la))) (la - 52) ez)) = A * 2 ^ (- ez) /\
  Zpos (fst (shl_align (Z.to_pos (B * 2 ^ (52 - lb))) (lb - 52) ez)) = B * 2 ^ (- ez).
Proof.
  pose proof (log2_below_53 A HA). pose proof (log2_below_53 B HB).
  destruct (int_float_mantissa A HA) as [EA _].
  destruct (int_float_mantissa B HB) as [EB _].
  fold la in EA. fold lb in EB.
  split; [unfold ez, la, lb; lia|]. split.
  - rewrite shl_align_fst by (unfold ez; lia).
    rewrite EA, <- Z.mul_assoc, <- Z.pow_add_r by (unfold ez, la, lb; lia).
    do 2 f_equal. lia.
  - rewrite shl_align_fst by (unfold ez; lia).
    rewrite EB, <- Z.mul_assoc, <- Z.pow_add_r by (unfold ez, la, lb; lia).
    do 2 f_equal. lia.
Qed.

Lemma SF64add_integer :
  A + B < 2 ^ 53 ->
  SF64add (int_float A) (int_float B) = int_float (A + B).
Proof.
  intros H. unfold int_float at 1 2. cbn [SF64add SFadd cond_Zopp].
  fold la lb ez. destruct aligned_operands as (Hez & -> & ->).
  rewrite <- Z.mul_add_distr_r.
  replace ez with (- - ez) at 2 by lia.
  rewrite binary_normalize_integer by lia.
  destruct (A + B) eqn:E; try lia. reflexivity.
Qed.

Lemma SF64sub_integer :
  SF64sub (int_float A) (int_float B) = integer_float (A - B).
Proof.
  unfold int_float at 1 2. cbn [SF64sub SFsub cond_Zopp].
  fold la lb ez. destruct aligned_operands as (Hez & -> & ->).
  rewrite <- Z.mul_sub_distr_r.
  replace ez with (- - ez) at 2 by lia.
  apply binary_normalize_integer; lia.
Qed.

Lemma SF64mul_integer :
  A * B < 2 ^ 53 ->
  SF64mul (int_float A) (int_float B) = int_float (A * B).
Proof.
  intros H. unfold int_float at 1 2. cbn [SF64mul SFmul xorb].
  pose proof (log2_below_53 A HA). pose proof (log2_below_53 B HB).
  destruct (int_float_mantissa A HA) as [EA _].
  destruct (int_float_mantissa B HB) as [EB _].
  fold la in EA |- *. fold lb in EB |- *.
  rewrite Pos2Z.inj_mul, EA, EB.
  replace (A * 2 ^ (52 - la) * (B * 2 ^ (52 - lb)))
    with (A * B * 2 ^ (104 - la - lb)).
  2:{ replace (104 - la - lb) with ((52 - la) + (52 - lb)) by lia.
      rewrite Z.pow_add_r by (unfold la, lb; lia). ring. }
  replace (la - 52 + (lb - 52)) with (- (104 - la - lb)) by lia.
  pose proof (Z.log2_mul_below A B ltac:(lia) ltac:(lia)).
  apply (binary_round_aux_integer false); [nia|].
  fold la lb in H2. lia.
Qed.

End IntegerOperands.

Lemma new_location_exact n : new_location n 0 = loc_Exact.
Proof. unfold new_location. now destruct (Z.even n). Qed.

Lemma div_eucl_exact q b : 0 < b -> Z.div_eucl (q * b) b = (q, 0).
Proof.
  intros Hb. pose proof (Z_div_mod (q * b) b ltac:(lia)) as H.
  destruct (Z.div_eucl (q * b) b) as [q' r]. destruct H as [E Hr].
  assert (q' = q) by nia. subst q'. f_equal. lia.
Qed.

(** a quotient without remainder *)
Lemma SF64div_integer Q B :
  0 < Q -> 0 < B -> Q * B < 2 ^ 53 ->
  SF64div (int_float (Q * B)) (int_float B) = int_float Q.
Proof.
  intros HQ HB H.
  assert (HA : 0 < Q * B < 2 ^ 53) by nia.
  assert (HB' : 0 < B < 2 ^ 53) by nia.
  assert (HQ' : 0 < Q < 2 ^ 53) by nia.
  pose proof (log2_below_53 _ HA) as Hla.
  pose proof (log2_below_53 _ HB') as Hlb.
  pose proof (log2_below_53 _ HQ') as Hlq.
  destruct (int_float_mantissa _ HA) as [EA LA].
  destruct (int_float_mantissa _ HB') as [EB LB].
  assert (Hlog : Z.log2 B <= Z.log2 (Q * B) <= Z.log2 Q + Z.log2 B + 1).
  { pose proof (Z.log2_mul_above Q B ltac:(lia) ltac:(lia)).
    pose proof (Z.log2_le_mono B (Q * B) ltac:(nia)). lia. }
  set (la := Z.log2 (Q * B)) in *. set (lb := Z.log2 B) in *.
  unfold int_float at 1 2. fold la lb. cbn [SF64div SFdiv xorb].
  unfold SFdiv_core_binary.
  rewrite !Zdigits2_log2 by lia. rewrite EA, EB, LA, LB.
  replace (52 + 1 + (la - 52) - (52 + 1 + (lb - 52))) with (la - lb) by lia.
  rewrite fexp_small by lia.
  replace (Z.min (la - lb - 53) (la - 52 - (lb - 52))) with (la - lb - 53) by lia.
  replace (la - 52 - (lb - 52) - (la - lb - 53)) with 53 by lia.
  rewrite Z.shiftl_mul_pow2 by lia.
  assert (0 < 2 ^ (52 - lb)) by (apply Z.pow_pos_nonneg; lia).
  assert (P1 : 2 ^ (52 - la) * 2 ^ 53 = 2 ^ (105 - la))
    by (rewrite <- Z.pow_add_r by lia; f_equal; lia).
  assert (P2 : 2 ^ (53 + lb - la) * 2 ^ (52 - lb) = 2 ^ (105 - la))
    by (rewrite <- Z.pow_add_r by lia; f_equal; lia).
  replace (Q * B * 2 ^ (52 - la) * 2 ^ 53)
    with (Q * 2 ^ (53 + lb - la) * (B * 2 ^ (52 - lb))).
  2:{ transitivity (Q * B * 2 ^ (105 - la));
        [rewrite <- P2|rewrite <- P1]; ring. }
  rewrite div_eucl_exact by nia.
  rewrite new_location_exact.
  replace (la - lb - 53) with (- (53 + lb - la)) by lia.
  apply (binary_round_aux_integer false); lia.
Qed.

(* ----------------------------------------------------------------- *)
(** ** Integer arithmetic *)

Lemma integer_float_valid z :
  Z.abs z < 2 ^ 53 -> valid_binary (integer_float z) = true.
Proof.
  intros H. destruct z as [|p|p]; [reflexivity| |];
    apply canonical_valid, int_float_canonical; lia.
Qed.

Lemma of_decimal_natural n :
  0 <= n < 2 ^ 53 -> of_decimal false n 0 = integer_float n.
Proof.
  intros H. destruct n as [|p|p]; [reflexivity| |lia].
  rewrite (of_decimal_integer (Zpos p) 0) by lia.
  cbn [integer_float]. f_equal. lia.
Qed.

(** the Number a run of digits denotes *)
Lemma parseFloat_digits s :
  all_digits s = true -> s <> "" -> digits_value 0 s < 2 ^ 53 ->
  parseFloat s = SF2Prim (integer_float (digits_value 0 s)).
Proof.
  intros Hs Hne Hv. destruct s as [|c ip]; [contradiction|].
  cbn [all_digits] in Hs. apply andb_true_iff in Hs. destruct Hs as [Hc Hip].
  unfold parseFloat. f_equal.
  pose proof (literal_value false c ip None None Hc Hip eq_refl) as H.
  cbn [frac_suffix exp_suffix frac_digits exp_value append] in H.
  rewrite !append_nil_r in H. change (length_Z "") with 0 in H.
  change (0 - 0) with 0 in H. rewrite H.
  apply of_decimal_natural. split; [|exact Hv].
  clear - Hc Hip. 
  assert (G : forall t acc, 0 <= acc -> all_digits t = true -> 0 <= digits_value acc t).
  { induction t as [|d t IH]; intros acc Ha Ht; [exact Ha|].
    cbn [all_digits] in Ht. apply andb_true_iff in Ht. destruct Ht as [Hd Ht].
    cbn [digits_value]. apply IH; [|exact Ht].
    pose proof (digit_val_range d Hd). lia. }
  apply G; [lia|]. cbn. now rewrite Hc.
Qed.

(** the operand typed with the digits of [n] *)
Lemma operand_natural n :
  0 <= n < 2 ^ 53 ->
  forallb entry (digit_keys (decimal_digits n)) = true /\
  operand (digit_keys (decimal_digits n)) = SF2Prim (integer_float n).
Proof.
  intros Hn.
  pose proof (decimal_digits_all n (proj1 Hn)) as Hd.
  destruct (decimal_digits_cons n (proj1 Hn)) as (c & r & E & Hc).
  split.
  - clear - Hd. induction (decimal_digits n) as [|ch s IH]; [reflexivity|].
    cbn [all_digits] in Hd. apply andb_true_iff in Hd. destruct Hd as [H1 H2].
    change (digit_keys (String ch s))
      with (InputDigit (String ch "") :: digit_keys s).
    cbn [forallb entry digit_key]. rewrite H1. now apply IH.
  - unfold operand.
    rewrite digit_keys_over_zero by (try reflexivity; rewrite E; discriminate).
    rewrite parseFloat_digits.
    + now rewrite strip_zeros_value, digits_value_decimal.
    + now apply strip_zeros_digits.
    + destruct (strip_zeros_head (decimal_digits n)) as [->|(d & ds & -> & _)];
        [rewrite E| |]; discriminate.
    + rewrite strip_zeros_value, digits_value_decimal; lia.
Qed.

Lemma Prim2SF_integer z :
  Z.abs z < 2 ^ 53 -> Prim2SF (integer_number z) = integer_float z.
Proof. intros H. now apply Prim2SF_SF2Prim, integer_float_valid. Qed.

Lemma integer_float_pos z : 0 < z -> integer_float z = int_float z.
Proof. destruct z; try lia. reflexivity. Qed.

(** the four operations on natural numbers, while all is below 2^53 *)
Lemma compute_naturals a b :
  0 <= a < 2 ^ 53 -> 0 <= b < 2 ^ 53 ->
  (a + b < 2 ^ 53 ->
   compute "+" (integer_number a) (integer_number b) = integer_number (a + b)) /\
  compute "-" (integer_number a) (integer_number b) = integer_number (a - b) /\
  (a * b < 2 ^ 53 ->
   compute "*" (integer_number a) (integer_number b) = integer_number (a * b)) /\
  (0 < b -> a mod b = 0 ->
   compute "/" (integer_number a) (integer_number b) = integer_number (a / b)).
Proof.
  intros Ha Hb.
  pose proof (Prim2SF_integer a ltac:(lia)) as Ea.
  pose proof (Prim2SF_integer b ltac:(lia)) as Eb.
  destruct (compute_operators (integer_number a) (integer_number b))
    as (-> & -> & -> & ->).
  split; [|split; [|split]].
  - intros H. apply Prim2SF_inj.
    rewrite add_spec, Ea, Eb, Prim2SF_integer by lia.
    destruct (Z.eq_dec a 0) as [->|].
    { change (0 + b) with b. destruct b as [|p|p]; [reflexivity|reflexivity|lia]. }
    destruct (Z.eq_dec b 0) as [->|].
    { rewrite Z.add_0_r. destruct a as [|p|p]; [reflexivity|reflexivity|lia]. }
    rewrite !integer_float_pos by lia. apply SF64add_integer; lia.
  - apply Prim2SF_inj.
    rewrite sub_spec, Ea, Eb, Prim2SF_integer by lia.
    destruct (Z.eq_dec a 0) as [->|].
    { change (0 - b) with (- b). destruct b as [|p|p]; [reflexivity|reflexivity|lia]. }
    destruct (Z.eq_dec b 0) as [->|].
    { rewrite Z.sub_0_r. destruct a as [|p|p]; [reflexivity|reflexivity|lia]. }
    rewrite !(integer_float_pos a), !(integer_float_pos b) by lia.
    apply SF64sub_integer; lia.
  - intros H. apply Prim2SF_inj.
    rewrite mul_spec, Ea, Eb, Prim2SF_integer by lia.
    destruct (Z.eq_dec a 0) as [->|].
    { change (0 * b) with 0. destruct b as [|p|p]; [reflexivity|reflexivity|lia]. }
    destruct (Z.eq_dec b 0) as [->|].
    { rewrite Z.mul_0_r. destruct a as [|p|p]; [reflexivity|reflexivity|lia]. }
    rewrite !integer_float_pos by nia. apply SF64mul_integer; lia.
  - intros Hb0 Hmod.
    assert (Eq : a = a / b * b).
    { pose proof (Z.div_mod a b ltac:(lia)). lia. }
    assert (Hq : 0 <= a / b <= a).
    { split; [apply Z.div_pos; lia|]. apply Z.div_le_upper_bound; nia. }
    replace (integer_number b =? 0)%float with false.
    2:{ rewrite eqb_spec, Eb, integer_float_pos by lia. reflexivity. }
    apply Prim2SF_inj.
    rewrite div_spec, Ea, Eb, Prim2SF_integer by lia.
    destruct (Z.eq_dec a 0) as [->|].
    { rewrite Z.div_0_l by lia. destruct b as [|p|p]; [lia|reflexivity|lia]. }
    assert (0 < a / b) by nia.
    rewrite !integer_float_pos by lia. rewrite Eq at 1.
    apply SF64div_integer; nia.
Qed.

Lemma pow10_15 : 10 ^ 15 < 2 ^ 53.
Proof. reflexivity. Qed.

Lemma toString_natural n :
  0 < n < 10 ^ 15 -> toStringSF (int_float n) = decimal_digits n.
Proof.
  intros Hn. apply toStringSF_integer; [lia|].
  pose proof (decimal_digits_length n ltac:(lia)) as [Hlo _].
  destruct (Z_le_gt_dec (length_Z (decimal_digits n)) 15) as [|Hgt]; [assumption|].
  assert (10 ^ 15 <= 10 ^ (length_Z (decimal_digits n) - 1))
    by (apply Z.pow_le_mono_r; lia).
  lia.
Qed.

Lemma toStringSF_integer_float z :
  Z.abs z < 10 ^ 15 -> toStringSF (integer_float z) = integer_text z.
Proof.
  intros H. unfold integer_text. destruct z as [|p|p].
  - reflexivity.
  - apply toString_natural. lia.
  - pose proof (toString_natural (Zpos p) ltac:(lia)) as Hpos.
    change (integer_float (Zneg p)) with (with_sign true (int_float (Zpos p))).
    change (Z.abs (Zneg p)) with (Zpos p).
    change (Zneg p <? 0) with true. cbv iota.
    unfold int_float in *. cbn [with_sign toStringSF] in *.
    destruct (shortest _ _) as [d X]. cbn [append] in Hpos. now rewrite Hpos.
Qed.

Lemma integer_text_grammar z : operand_grammar (integer_text z) = true.
Proof.
  unfold integer_text.
  destruct (decimal_digits_cons (Z.abs z) (Z.abs_nonneg z)) as (c & r & E & Hc).
  pose proof (decimal_digits_all (Z.abs z) (Z.abs_nonneg z)) as Hd.
  rewrite E in *. cbn [all_digits] in Hd. apply andb_true_iff in Hd.
  pose proof (grammar_plain (z <? 0) c r None Hc (proj2 Hd) eq_refl) as G.
  cbn [frac_suffix] in G. now rewrite append_nil_r in G.
Qed.

(** an integer of up to 15 digits is stored and displayed by its digits *)
Lemma integer_result z :
  Z.abs z < 10 ^ 15 ->
  toString (integer_number z) = integer_text z /\
  display_of (toString (integer_number z)) = integer_text z.
Proof.
  intros H. pose proof pow10_15.
  assert (E : toString (integer_number z) = integer_text z).
  { unfold toString. rewrite Prim2SF_integer by lia.
    now apply toStringSF_integer_float. }
  split; [exact E|].
  pose proof (display_of_toStringSF (Prim2SF (integer_number z))
                (Prim2SF_valid _)) as D.
  change (toStringSF (Prim2SF (integer_number z)))
    with (toString (integer_number z)) in D.
  rewrite E in *. apply D, grammar_no_exponent, integer_text_grammar.
Qed.

(** X7. Two natural numbers below 10^15 typed with an operator between
    them and equals: the display reads their sum, their difference
    (with "-" when negative), their product, and their quotient when
    the division leaves no remainder, as long as that is below 10^15. *)
Theorem integer_arithmetic text a b :
  0 <= a < 10 ^ 15 -> 0 <= b < 10 ^ 15 ->
  let shown op :=
    textContent (run (digit_keys (decimal_digits a) ++ SetOperator op ::
                      digit_keys (decimal_digits b) ++ [CalculateResult])
                     (constructor text)) in
  (a + b < 10 ^ 15 -> shown "+" = decimal_digits (a + b)) /\
  (b <= a -> shown "-" = decimal_digits (a - b)) /\
  (a < b -> shown "-" = "-" ++ decimal_digits (b - a)) /\
  (a * b < 10 ^ 15 -> shown "*" = decimal_digits (a * b)) /\
  (0 < b -> a mod b = 0 -> shown "/" = decimal_digits (a / b)).
Proof.
  intros Ha Hb shown. pose proof pow10_15 as Hpow.
  destruct (operand_natural a ltac:(lia)) as [Hka Hoa].
  destruct (operand_natural b ltac:(lia)) as [Hkb Hob].
  assert (Hshown : forall op, shown op =
            display_of (toString (compute op (integer_number a)
                                          (integer_number b)))).
  { intros op. unfold shown. rewrite run_display by reflexivity.
    now rewrite (operation_input text op _ _ Hka Hkb), Hoa, Hob. }
  destruct (compute_naturals a b ltac:(lia) ltac:(lia))
    as (Hadd & Hsub & Hmul & Hdiv).
  assert (Htext : forall z, 0 <= z < 10 ^ 15 ->
            display_of (toString (integer_number z)) = decimal_digits z).
  { intros z Hz. rewrite (proj2 (integer_result z ltac:(lia))).
    unfold integer_text. replace (z <? 0) with false by (symmetry; apply Z.ltb_ge; lia).
    now rewrite Z.abs_eq by lia. }
  split; [|split; [|split; [|split]]].
  - intros H. rewrite Hshown, Hadd by lia. apply Htext. lia.
  - intros H. rewrite Hshown, Hsub. apply Htext. lia.
  - intros H. rewrite Hshown, Hsub.
    rewrite (proj2 (integer_result (a - b) ltac:(lia))).
    unfold integer_text. replace (a - b <? 0) with true by (symmetry; apply Z.ltb_lt; lia).
    do 2 f_equal. lia.
  - intros H. rewrite Hshown, Hmul by lia. apply Htext. nia.
  - intros H0 Hmod. rewrite Hshown, Hdiv by assumption. apply Htext.
    split; [apply Z.div_pos; lia|].
    apply Z.le_lt_trans with a; [|lia]. apply Z.div_le_upper_bound; nia.
Qed.

Lemma integer_arithmetic_witness :
  let shown op :=
    textContent (run (digit_keys (decimal_digits 12) ++ SetOperator op ::
                      digit_keys (decimal_digits 3) ++ [CalculateResult])
                     (constructor "")) in
  (12 + 3 < 10 ^ 15 -> shown "+" = decimal_digits (12 + 3)) /\
  (3 <= 12 -> shown "-" = decimal_digits (12 - 3)) /\
  (12 < 3 -> shown "-" = "-" ++ decimal_digits (3 - 12)) /\
  (12 * 3 < 10 ^ 15 -> shown "*" = decimal_digits (12 * 3)) /\
  (0 < 3 -> 12 mod 3 = 0 -> shown "/" = decimal_digits (12 / 3)).
Proof.
  apply (integer_arithmetic "" 12 3); split; (reflexivity || discriminate).
Defined.
